(** * pid_monitor: dispatchers, frontend caches and report jobs

    A shallow embedding of the Python sources

    - [pid_monitor/dt_mvc/std_dispatcher.py]
    - [pid_monitor/report.py]

    Python values are modelled as the interpreter has them: [int] is an
    unbounded integer ([Z]), [float] is an IEEE-754 binary64 number
    ([spec_float] at precision 53 and maximal exponent 1024), [str] is
    [string], a [dict] is a [gmap] and a [set] is a [gset].  Raising an
    exception is a value of [result]. *)

From Stdlib Require Import ZArith Lia String Ascii List Bool.
From Stdlib Require Import Floats.SpecFloat.
From stdpp Require Import gmap strings pretty list.

Local Open Scope Z_scope.

(** ** Exceptions and results *)

Inductive exn :=
| ValueError
| ZeroDivisionError
| OverflowError
| StatisticsError
| NoSuchProcess
| DuplicateEntityError.

Inductive result (A : Type) :=
| Ok (a : A)
| Raise (e : exn).
Arguments Ok {A} a.
Arguments Raise {A} e.

(** Sequencing: the first exception raised ends the computation. *)
Global Instance result_ret : MRet result := λ A a, Ok a.
Global Instance result_bind : MBind result := λ A B k r,
  match r with
  | Ok a => k a
  | Raise e => Raise e
  end.

(** ** Python [float]: binary64 *)

Module PyFloat.

Definition prec : Z := 53.
Definition emax : Z := 1024.

Abbreviation float := spec_float.

Definition fadd : float → float → float := SFadd prec emax.
Definition fmul : float → float → float := SFmul prec emax.
Definition fdiv : float → float → float := SFdiv prec emax.
Definition flt : float → float → bool := SFltb.
Definition fle : float → float → bool := SFleb.
Definition feq : float → float → bool := SFeqb.

(** [float(n)] for an integer [n]: the nearest binary64, ties to even;
    [S754_infinity] stands for a magnitude beyond the largest float, where
    CPython raises [OverflowError]. *)
Definition of_Z_round (n : Z) : float := binary_normalize prec emax n 0 false.

(** The correctly rounded quotient of two positive integers, with the sign
    [s]: the division core of binary64 applied at exponent 0. *)
Definition of_ratio (s : bool) (n d : positive) : float :=
  fdiv (S754_finite s n 0) (S754_finite false d 0).

Definition is_finite (x : float) : bool :=
  match x with
  | S754_zero _ | S754_finite _ _ _ => true
  | _ => false
  end.

Definition is_nan (x : float) : bool :=
  match x with S754_nan => true | _ => false end.

(** The exact value of a float [m * 2^e] as a fraction [(num, den)]. *)
Definition exact_ratio (m : positive) (e : Z) : Z * Z :=
  if 0 <=? e then (Z.pos m * 2 ^ e, 1) else (Z.pos m, 2 ^ (- e)).

(** *** [round(x, 2)]

    CPython's [double_round]: the exact binary value is rounded to two
    decimals, half to even, and the decimal is read back as the nearest
    binary64; zeros, infinities and NaN round to themselves. *)
Definition round_half_even (a b : Z) : Z :=
  let q := a / b in
  let r := a mod b in
  match 2 * r ?= b with
  | Lt => q
  | Gt => q + 1
  | Eq => if Z.even q then q else q + 1
  end.

Definition round_ndigits (ndigits : Z) (x : float) : float :=
  match x with
  | S754_finite s m e =>
      let '(a, b) := exact_ratio m e in
      match round_half_even (a * 10 ^ ndigits) b with
      | Z.pos q => of_ratio s q (Z.to_pos (10 ^ ndigits))
      | _ => S754_zero s
      end
  | _ => x
  end.

(** *** [repr(x)]: the shortest decimal string that reads back as [x] *)

Definition digit_char (d : Z) : ascii :=
  match d with
  | 0 => "0" | 1 => "1" | 2 => "2" | 3 => "3" | 4 => "4"
  | 5 => "5" | 6 => "6" | 7 => "7" | 8 => "8" | _ => "9"
  end%char.

(** Decimal digits of a positive integer, most significant first. *)
Fixpoint digits_fuel (fuel : nat) (n : Z) (acc : list ascii) : list ascii :=
  match fuel with
  | O => acc
  | S fuel' =>
      if n <? 10 then digit_char n :: acc
      else digits_fuel fuel' (n / 10) (digit_char (n mod 10) :: acc)
  end.

Definition digits (n : positive) : list ascii :=
  digits_fuel (Pos.to_nat (digits2_pos n)) (Z.pos n) [].

(** Drop the trailing decimal zeros of [n], counting them. *)
Fixpoint strip_zeros (fuel : nat) (n : Z) (z : Z) : Z * Z :=
  match fuel with
  | O => (n, z)
  | S fuel' =>
      if (n mod 10 =? 0) && (0 <? n) then strip_zeros fuel' (n / 10) (z + 1)
      else (n, z)
  end.

(** The number [t] with [10^(t-1) <= a/b < 10^t], searched upwards or
    downwards from 0. *)
Fixpoint decpt_up (fuel : nat) (a b : Z) (t : Z) : Z :=
  match fuel with
  | O => t
  | S fuel' => if a <? b then t else decpt_up fuel' a (b * 10) (t + 1)
  end.

Fixpoint decpt_down (fuel : nat) (a b : Z) (t : Z) : Z :=
  match fuel with
  | O => t
  | S fuel' => if b <=? a * 10 then t else decpt_down fuel' (a * 10) b (t - 1)
  end.

Definition decpt_of (a b : Z) : Z :=
  if b <=? a then decpt_up 400 a b 0 else decpt_down 400 a b 0.

(** The rounding interval of [m * 2^e] in quarter units of the last place:
    value, lower and upper midpoint as numerators over one denominator.  The
    lower gap is halved where the mantissa is the smallest of its binade. *)
Definition interval (m : positive) (e : Z) : Z * Z * Z * Z :=
  let boundary := (Z.pos m =? 2 ^ (prec - 1)) && (3 - emax - prec <? e) in
  let v := 4 * Z.pos m in
  let lo := if boundary then v - 1 else v - 2 in
  let hi := v + 2 in
  if 2 <=? e then (v * 2 ^ (e - 2), lo * 2 ^ (e - 2), hi * 2 ^ (e - 2), 1)
  else (v, lo, hi, 2 ^ (2 - e)).

(** One attempt with [p] significant digits: the two [p]-digit decimals
    around the value, kept when they lie in the rounding interval (whose ends
    count when the mantissa is even); of two, the nearer, and on a tie the
    even one. *)
Definition candidate (m : positive) (e : Z) (t p : Z) (force : bool) : option (Z * Z) :=
  let '(v, lo, hi, d) := interval m e in
  let k := t - p in
  let sc := if 0 <=? k then 1 else 10 ^ (- k) in
  let b := if 0 <=? k then d * 10 ^ k else d in
  let dl := (v * sc) / b in
  let dh := dl + 1 in
  let closed := Z.even (Z.pos m) in
  let ok_l := if closed then lo * sc <=? dl * b else lo * sc <? dl * b in
  let ok_h := if closed then dh * b <=? hi * sc else dh * b <? hi * sc in
  let nearer :=
    match 2 * (v * sc) ?= (2 * dl + 1) * b with
    | Lt => dl
    | Gt => dh
    | Eq => if Z.even dl then dl else dh
    end in
  if ok_l && ok_h then Some (nearer, k)
  else if ok_l then Some (dl, k)
  else if ok_h then Some (dh, k)
  else if force then Some (nearer, k)
  else None.

Fixpoint shortest (fuel : nat) (m : positive) (e : Z) (t p : Z) : Z * Z :=
  match fuel with
  | O => default (0, 0) (candidate m e t p true)
  | S fuel' =>
      match candidate m e t p false with
      | Some r => r
      | None => shortest fuel' m e t (p + 1)
      end
  end.

(** The digit string and the position of the decimal point, as
    [_Py_dg_dtoa] in mode 0 returns them. *)
Definition dtoa0 (m : positive) (e : Z) : list ascii * Z :=
  let '(v, _, _, d) := interval m e in
  let t := decpt_of v d in
  let '(n, k) := shortest 16 m e t 1 in
  let '(n', z) := strip_zeros (S (Z.to_nat (Z.log2 n))) n 0 in
  let ds := digits (Z.to_pos n') in
  (ds, k + z + Z.of_nat (length ds)).

Definition zeros (n : Z) : list ascii := replicate (Z.to_nat n) "0"%char.

Definition exponent_digits (x : Z) : list ascii :=
  let a := Z.abs x in
  (if x <? 0 then "-"%char else "+"%char) ::
  (if a <? 10 then ["0"%char] else []) ++ digits (Z.to_pos a).

(** [format_float_short] for the format code ['r'] with
    [Py_DTSF_ADD_DOT_0]. *)
Definition format_r (ds : list ascii) (decpt : Z) : list ascii :=
  let n := Z.of_nat (length ds) in
  if (decpt <=? -4) || (16 <? decpt) then
    take 1 ds ++ (if 1 <? n then "."%char :: drop 1 ds else [])
      ++ "e"%char :: exponent_digits (decpt - 1)
  else if decpt <=? 0 then
    "0"%char :: "."%char :: zeros (- decpt) ++ ds
  else if decpt <? n then
    take (Z.to_nat decpt) ds ++ "."%char :: drop (Z.to_nat decpt) ds
  else
    ds ++ zeros (decpt - n) ++ ["."%char; "0"%char].

Definition repr_chars (x : float) : list ascii :=
  match x with
  | S754_nan => ["n"; "a"; "n"]%char
  | S754_infinity s => (if s then ["-"%char] else []) ++ ["i"; "n"; "f"]%char
  | S754_zero s => (if s then ["-"%char] else []) ++ ["0"; "."; "0"]%char
  | S754_finite s m e =>
      let '(ds, decpt) := dtoa0 m e in
      (if s then ["-"%char] else []) ++ format_r ds decpt
  end.

Definition repr (x : float) : string := string_of_list_ascii (repr_chars x).

End PyFloat.

(** ** Python numbers: [int] and [float] *)

Module PyNum.
Import PyFloat.

Inductive number :=
| PyInt (n : Z)
| PyFloat (x : float).

(** [str(v)] *)
Definition str (v : number) : string :=
  match v with
  | PyInt n => pretty n
  | PyFloat x => repr x
  end.

(** [round(v, 2)]: an [int] rounds to itself. *)
Definition round2 (v : number) : number :=
  match v with
  | PyInt n => PyInt n
  | PyFloat x => PyFloat (round_ndigits 2 x)
  end.

(** Comparing a float with an integer is exact. *)
Definition compare_float_Z (x : float) (n : Z) : option comparison :=
  match x with
  | S754_nan => None
  | S754_infinity s => Some (if s then Lt else Gt)
  | S754_zero _ => Some (0 ?= n)
  | S754_finite s m e =>
      let '(a, b) := exact_ratio m e in
      Some ((if s then - a else a) ?= n * b)
  end.

Definition compare (a b : number) : option comparison :=
  match a, b with
  | PyInt x, PyInt y => Some (x ?= y)
  | PyFloat x, PyFloat y => SFcompare x y
  | PyFloat x, PyInt y => compare_float_Z x y
  | PyInt x, PyFloat y => CompOpp <$> compare_float_Z y x
  end.

(** [a > b], [a >= b], [a == b]; any comparison with NaN is false. *)
Definition gt (a b : number) : bool :=
  match compare a b with Some Gt => true | _ => false end.
Definition ge (a b : number) : bool :=
  match compare a b with Some (Gt | Eq) => true | _ => false end.
Definition eq (a b : number) : bool :=
  match compare a b with Some Eq => true | _ => false end.

(** [float(n)], raising [OverflowError] beyond the largest float. *)
Definition to_float (v : number) : result float :=
  match v with
  | PyFloat x => Ok x
  | PyInt n =>
      match of_Z_round n with
      | S754_infinity _ => Raise OverflowError
      | x => Ok x
      end
  end.

Definition is_zero (v : number) : bool :=
  match v with
  | PyInt n => n =? 0
  | PyFloat (S754_zero _) => true
  | PyFloat _ => false
  end.

(** [a / b].  Two integers give the correctly rounded quotient
    ([long_true_divide]); otherwise both sides are converted to [float]. *)
Definition truediv (a b : number) : result number :=
  match a, b with
  | PyInt x, PyInt y =>
      match y with
      | 0 => Raise ZeroDivisionError
      | _ =>
          match x with
          | 0 => Ok (PyFloat (S754_zero (y <? 0)))
          | _ =>
              match of_ratio (xorb (x <? 0) (y <? 0))
                      (Z.to_pos (Z.abs x)) (Z.to_pos (Z.abs y)) with
              | S754_infinity _ => Raise OverflowError
              | q => Ok (PyFloat q)
              end
          end
      end
  | _, _ =>
      x ← to_float a;
      y ← to_float b;
      if is_zero (PyFloat y) then Raise ZeroDivisionError
      else Ok (PyFloat (fdiv x y))
  end.

(** [a * b] *)
Definition mul (a b : number) : result number :=
  match a, b with
  | PyInt x, PyInt y => Ok (PyInt (x * y))
  | _, _ =>
      x ← to_float a;
      y ← to_float b;
      Ok (PyFloat (fmul x y))
  end.

(** [max(a, b)]: the first argument stays unless the second is greater. *)
Definition max (a b : number) : number := if gt b a then b else a.

End PyNum.

(** ** [_to_human_readable] *)

Module HumanReadable.
Import PyNum.

Definition dc_list_1024 : list string :=
  ["B"; "KiB"; "MiB"; "GiB"; "TiB"; "PiB"; "EiB"]%string.
Definition dc_list_1000 : list string :=
  ["B"; "KB"; "MB"; "GB"; "TB"; "PB"; "EB"]%string.

(** [dc_list[step]]; the loop keeps [step] below the length. *)
Definition index (dc_list : list string) (step : nat) : string :=
  default ""%string (dc_list !! step).

(** The [while] loop.  [budget] is its variant [len(dc_list) - 1 - step]:
    the test [step < len(dc_list) - 1] holds exactly when it is a successor. *)
Fixpoint scale (budget : nat) (dc_list : list string) (base : Z)
    (num : number) (step : nat) (dc : string) : result (number * string) :=
  match budget with
  | O => Ok (num, dc)
  | S budget' =>
      if gt num (PyInt base) then
        let step := S step in
        num ← truediv num (PyInt base);
        let dc := index dc_list step in
        scale budget' dc_list base num step dc
      else Ok (num, dc)
  end.

Definition _to_human_readable (num : number) (base : Z) : result string :=
  dc_list ← (if base =? 1024 then Ok dc_list_1024
             else if base =? 1000 then Ok dc_list_1000
             else Raise ValueError);
  let step := 0%nat in
  let dc := index dc_list step in
  '(num, dc) ← scale (length dc_list - 1 - step) dc_list base num step dc;
  let num := round2 num in
  Ok (str num +:+ dc).

End HumanReadable.

(** ** Statements over a mutable object

    A method body mutates [self] and may raise: a statement maps the state
    before to the state after, together with a value or the exception raised.
    What was assigned before an exception stays assigned. *)

Definition stmt (S A : Type) : Type := S → S * result A.

Global Instance stmt_ret {S} : MRet (stmt S) := λ A a s, (s, Ok a).
Global Instance stmt_bind {S} : MBind (stmt S) := λ A B k m s,
  match m s with
  | (s', Ok a) => k a s'
  | (s', Raise e) => (s', Raise e)
  end.

Definition lift {S A} (r : result A) : stmt S A := λ s, (s, r).
Definition get {S} : stmt S S := λ s, (s, Ok s).
Definition modify {S} (f : S → S) : stmt S unit := λ s, (f s, Ok ()).

(** [try: body except cls as e: handler e] *)
Definition try_except {S A} (body : stmt S A) (cls : exn → bool)
    (handler : exn → stmt S A) : stmt S A := λ s,
  match body s with
  | (s', Raise e) => if cls e then handler e s' else (s', Raise e)
  | r => r
  end.

(** ** [statistics.mean] on a list of floats *)

Module Statistics.
Import PyFloat PyNum.

(** [x.as_integer_ratio()] of a finite float, over a power of two. *)
Definition as_ratio (x : float) : Z * Z :=
  match x with
  | S754_finite s m e =>
      let '(a, b) := exact_ratio m e in ((if s then - a else a), b)
  | _ => (0, 1)
  end.

Definition ratio_add (p q : Z * Z) : Z * Z :=
  let b := Z.max p.2 q.2 in
  (p.1 * (b / p.2) + q.1 * (b / q.2), b).

(** The data are summed exactly and the mean is rounded once; when a value is
    infinite or NaN, only those values are summed, as floats. *)
Definition mean (data : list float) : result float :=
  match data with
  | [] => Raise StatisticsError
  | _ =>
      let n := Z.of_nat (length data) in
      if forallb is_finite data then
        let total := foldr (λ x acc, ratio_add (as_ratio x) acc) (0, 1) data in
        q ← truediv (PyInt total.1) (PyInt (total.2 * n));
        to_float q
      else
        let special := filter (λ x, is_finite x = false) data in
        let total := foldl fadd (S754_zero false) special in
        q ← truediv (PyFloat total) (PyInt n);
        to_float q
  end.

End Statistics.

(** ** [SystemTracerDispatcherThread]: the frontend cache *)

Module SystemDispatcher.
Import PyFloat PyNum HumanReadable.

Abbreviation cache := (gmap string string).

Definition setitem (k v : string) : stmt cache unit := modify <[k:=v]>.

Definition _setup_cache : cache :=
  list_to_map
    [("CPU%", "NA"); ("VM_AVAIL", "NA"); ("VM_TOTAL", "NA");
     ("VM_PERCENT", "NA"); ("BUFFERED", "NA"); ("SHARED", "NA");
     ("SWAP_AVAIL", "NA"); ("SWAP_TOTAL", "NA"); ("SWAP_PERCENT", "NA")]%string.

(** What the pollers of the pool have cached when the dispatcher reads them:
    [get_cached_cpu_percent()] of [SystemCPUTracerThread], a list with one
    percentage per logical core; [get_cached_vm_info()], a 4-tuple of byte
    counts; [get_cached_swap_info()], a pair of byte counts. *)
Record pool := {
  cached_cpu_percent : list float;
  cached_vm_info : Z * Z * Z * Z;
  cached_swap_info : Z * Z;
}.

Definition _update_cache (p : pool) : stmt cache unit :=
  m ← lift (Statistics.mean (cached_cpu_percent p));
  setitem "CPU%" (str (round2 (PyFloat m)) +:+ "%");;
  let '(mem0, mem1, mem2, mem3) := cached_vm_info p in
  s ← lift (_to_human_readable (PyInt mem0) 1024); setitem "VM_AVAIL" s;;
  s ← lift (_to_human_readable (PyInt mem1) 1024); setitem "VM_TOTAL" s;;
  (if negb (mem1 =? 0) then
     q ← lift (truediv (PyInt mem0) (PyInt mem1));
     r ← lift (mul q (PyInt 100));
     setitem "VM_PERCENT" (str (round2 r) +:+ "%")
   else
     setitem "VM_PERCENT" "0.00%");;
  s ← lift (_to_human_readable (PyInt mem2) 1024); setitem "BUFFERED" s;;
  s ← lift (_to_human_readable (PyInt mem3) 1024); setitem "SHARED" s;;
  let '(swap0, swap1) := cached_swap_info p in
  s ← lift (_to_human_readable (PyInt swap0) 1024); setitem "SWAP_AVAIL" s;;
  s ← lift (_to_human_readable (PyInt swap1) 1024); setitem "SWAP_TOTAL" s;;
  (if negb (swap1 =? 0) then
     q ← lift (truediv (PyInt swap0) (PyInt swap1));
     r ← lift (mul q (PyInt 100));
     setitem "SWAP_PERCENT" (str (round2 r) +:+ "%")
   else
     setitem "SWAP_PERCENT" "0.00%").

End SystemDispatcher.

(** ** The process-wide state of the monitor *)

Definition TAB : string := String (ascii_of_nat 9) EmptyString.
Definition NL : string := String (ascii_of_nat 10) EmptyString.

(** [sep.join(parts)] *)
Definition join (sep : string) (parts : list string) : string :=
  String.concat sep parts.

Definition exn_name (e : exn) : string :=
  match e with
  | ValueError => "ValueError"
  | ZeroDivisionError => "ZeroDivisionError"
  | OverflowError => "OverflowError"
  | StatisticsError => "StatisticsError"
  | NoSuchProcess => "NoSuchProcess"
  | DuplicateEntityError => "DuplicateEntityError"
  end.

(** Modelled from the spec: the tuple [PSUTIL_NOTFOUND_ERRORS] of
    [pid_monitor/__init__.py], which is not among the sources.  It holds the
    exception classes of the "process not found" condition of the
    introspection layer. *)
Definition PSUTIL_NOTFOUND_ERRORS (e : exn) : bool :=
  match e with NoSuchProcess => true | _ => false end.

Inductive level := DEBUG | INFO | ERROR.

(** A dispatcher object.  Attributes that the constructor has not assigned
    yet hold the value [Base.__init__] gives them below. *)
Record dispatcher := Dispatcher {
  trace_pid : Z;
  basename : string;
  should_exit : bool;
  loaded_tracers : list string;
  tracer_kwargs : gmap string Z;
  thread_pool : list string;
  _cached_last_cpu_time : PyNum.number;
  _frontend_cache : gmap string string;
  (** [Thread.is_alive()]: from [start()] to the end of [run()] *)
  alive : bool;
}.

(** Objects are referred to by identity ([nat]); [_DISPATCHERS] is the entity
    registry, [_ALL_PIDS] the set of every pid ever attached. *)
Record world := World {
  _DISPATCHERS : gmap Z nat;
  _ALL_PIDS : gset Z;
  files : gmap string string;
  log : list (level * string);
  objects : gmap nat dispatcher;
  next_id : nat;
}.

Definition set_DISPATCHERS (f : gmap Z nat → gmap Z nat) (w : world) : world :=
  World (f (_DISPATCHERS w)) (_ALL_PIDS w) (files w) (log w) (objects w) (next_id w).
Definition set_ALL_PIDS (f : gset Z → gset Z) (w : world) : world :=
  World (_DISPATCHERS w) (f (_ALL_PIDS w)) (files w) (log w) (objects w) (next_id w).
Definition set_files (f : gmap string string → gmap string string) (w : world) : world :=
  World (_DISPATCHERS w) (_ALL_PIDS w) (f (files w)) (log w) (objects w) (next_id w).
Definition set_log (f : list (level * string) → list (level * string)) (w : world) : world :=
  World (_DISPATCHERS w) (_ALL_PIDS w) (files w) (f (log w)) (objects w) (next_id w).
Definition set_objects (f : gmap nat dispatcher → gmap nat dispatcher) (w : world) : world :=
  World (_DISPATCHERS w) (_ALL_PIDS w) (files w) (log w) (f (objects w)) (next_id w).
Definition set_next_id (f : nat → nat) (w : world) : world :=
  World (_DISPATCHERS w) (_ALL_PIDS w) (files w) (log w) (objects w) (f (next_id w)).

Definition empty_world : world := World ∅ ∅ ∅ [] ∅ 0.

Definition logging (l : level) (msg : string) : stmt world unit :=
  modify (set_log (λ lg, lg ++ [(l, msg)])).

(** [open(path, mode='w')]: the file is created or emptied. *)
Definition open_w (path : string) : stmt world unit :=
  modify (set_files <[path:=""%string]>).
(** [open(path, mode='a')]: the file is created when missing. *)
Definition open_a (path : string) : stmt world unit :=
  modify (set_files (λ fs, <[path:=default ""%string (fs !! path)]> fs)).
(** [writer.write(text)] *)
Definition write (path text : string) : stmt world unit :=
  modify (set_files (λ fs, <[path:=default ""%string (fs !! path) +:+ text]> fs)).

(** [for x in xs: body x] *)
Fixpoint for_each {S A} (xs : list A) (body : A → stmt S unit) : stmt S unit :=
  match xs with
  | [] => mret ()
  | x :: xs' => body x;; for_each xs' body
  end.

(** ** The entity registry *)

Module DispatcherController.

(** Modelled from the spec: [register_dispatcher] of
    [pid_monitor/dt_mvc/dispatcher_controller.py], which is not among the
    sources.  Registering fails if the id is already present. *)
Definition register_dispatcher (pid : Z) (d : nat) : stmt world unit := λ w,
  if decide (pid ∈ dom (_DISPATCHERS w)) then (w, Raise DuplicateEntityError)
  else (set_DISPATCHERS <[pid:=d]> w, Ok ()).

(** Modelled from the spec: [get_current_active_pids], the set of the ids
    registered. *)
Definition get_current_active_pids : stmt world (gset Z) := λ w,
  (w, Ok (dom (_DISPATCHERS w))).

(** Modelled from the spec: [remove_dispatcher], which does nothing for an
    absent id. *)
Definition remove_dispatcher (pid : Z) : stmt world unit :=
  modify (set_DISPATCHERS (delete pid)).

End DispatcherController.

(** ** [ProcessTracerDispatcherThread] *)

Module ProcessDispatcher.
Import PyNum HumanReadable DispatcherController.

Record memory_map := {
  mm_path : string;
  mm_rss : Z;
  mm_size : Z;
  mm_swap : Z;
}.

(** What the introspection layer answers while a dispatcher is constructed
    for a process: each call either returns or raises. *)
Record process_view := {
  pv_Process : result unit;
  pv_name : result string;
  pv_ppid : result Z;
  pv_timestamp : string;
  pv_cmdline : result (list string);
  pv_exe : result string;
  pv_cwd : result string;
  pv_environ : result (list (string * string));
  pv_memory_maps : result (list memory_map);
}.

(** Modelled from the spec: the helper [get_total_cpu_time] is imported from
    the package and is not among the sources; it reads the process through
    [psutil], so, like every introspection call (spec 6), it returns a float
    or raises the not-found error.  A [cycle_view] is what one pass of the
    supervision loop reads: the answer of that helper, the values cached by
    the pollers of the pool, and [self.process.children()], each child with
    the answers given when it is attached. *)
Record cycle_view := {
  cv_cpu_time : result PyFloat.float;
  cv_cpu_percent : number;
  cv_resident_mem : Z;
  cv_thread_child_process_num : Z * Z;
  cv_stat : string;
  cv_children : result (list (Z * process_view));
}.

Definition blank : dispatcher :=
  Dispatcher 0 "" false [] ∅ [] (PyInt 0) ∅ false.

Definition getattr (self : nat) : stmt world dispatcher := λ w,
  (w, Ok (default blank (objects w !! self))).

Definition update (self : nat) (f : dispatcher → dispatcher) : stmt world unit :=
  modify (set_objects (alter f self)).

Definition set_trace_pid (v : Z) (d : dispatcher) : dispatcher :=
  Dispatcher v (basename d) (should_exit d) (loaded_tracers d) (tracer_kwargs d)
    (thread_pool d) (_cached_last_cpu_time d) (_frontend_cache d) (alive d).
Definition set_should_exit (v : bool) (d : dispatcher) : dispatcher :=
  Dispatcher (trace_pid d) (basename d) v (loaded_tracers d) (tracer_kwargs d)
    (thread_pool d) (_cached_last_cpu_time d) (_frontend_cache d) (alive d).
Definition set_loaded_tracers (v : list string) (d : dispatcher) : dispatcher :=
  Dispatcher (trace_pid d) (basename d) (should_exit d) v (tracer_kwargs d)
    (thread_pool d) (_cached_last_cpu_time d) (_frontend_cache d) (alive d).
Definition set_tracer_kwargs (f : gmap string Z → gmap string Z) (d : dispatcher) : dispatcher :=
  Dispatcher (trace_pid d) (basename d) (should_exit d) (loaded_tracers d)
    (f (tracer_kwargs d)) (thread_pool d) (_cached_last_cpu_time d)
    (_frontend_cache d) (alive d).
Definition set_thread_pool (f : list string → list string) (d : dispatcher) : dispatcher :=
  Dispatcher (trace_pid d) (basename d) (should_exit d) (loaded_tracers d)
    (tracer_kwargs d) (f (thread_pool d)) (_cached_last_cpu_time d)
    (_frontend_cache d) (alive d).
Definition set_cached_last_cpu_time (v : number) (d : dispatcher) : dispatcher :=
  Dispatcher (trace_pid d) (basename d) (should_exit d) (loaded_tracers d)
    (tracer_kwargs d) (thread_pool d) v (_frontend_cache d) (alive d).
Definition set_frontend_cache (f : gmap string string → gmap string string)
    (d : dispatcher) : dispatcher :=
  Dispatcher (trace_pid d) (basename d) (should_exit d) (loaded_tracers d)
    (tracer_kwargs d) (thread_pool d) (_cached_last_cpu_time d)
    (f (_frontend_cache d)) (alive d).
Definition set_alive (v : bool) (d : dispatcher) : dispatcher :=
  Dispatcher (trace_pid d) (basename d) (should_exit d) (loaded_tracers d)
    (tracer_kwargs d) (thread_pool d) (_cached_last_cpu_time d)
    (_frontend_cache d) v.

(** [self._frontend_cache[k] = v] *)
Definition setitem (self : nat) (k v : string) : stmt world unit :=
  update self (set_frontend_cache <[k:=v]>).

Definition default_tracers : list string :=
  ["ProcessIOTracerThread"; "ProcessFDTracerThread"; "ProcessMEMTracerThread";
   "ProcessChildTracerThread"; "ProcessCPUTracerThread";
   "ProcessSTATTracerThread"; "ProcessSyscallTracerThread"]%string.

(** Modelled from the spec: [BaseTracerDispatcherThread.__init__] of
    [pid_monitor/dt_mvc/base_dispatcher_class.py], which is not among the
    sources.  A dispatcher owns an output basename, a poller pool and a
    termination flag; the new object gets the next identity. *)
Definition Base__init__ (dispatchee basename : string) : stmt world nat := λ w,
  let self := next_id w in
  (set_next_id S
     (set_objects <[self:=Dispatcher 0 basename false [] ∅ [] (PyInt 0) ∅ false]> w),
   Ok self).

(** Modelled from the spec: [BaseTracerDispatcherThread.start_tracers], which
    starts the poller pool: one poller per loaded tracer name, entered in
    [thread_pool]. *)
Definition start_tracers (self : nat) : stmt world unit :=
  d ← getattr self;
  update self (set_thread_pool (λ tp, tp ++ loaded_tracers d)).

(** Modelled from the spec: [BaseTracerDispatcherThread.append_threadpool],
    which enters a started thread in [thread_pool]. *)
Definition append_threadpool (self : nat) (name : string) : stmt world unit :=
  update self (set_thread_pool (λ tp, tp ++ [name])).

(** [Thread.start()] *)
Definition start (self : nat) : stmt world unit :=
  update self (set_alive true).

Definition tracee_error (self : nat) (e : exn) : stmt world unit :=
  d ← getattr self;
  logging ERROR ("TRACEE=" +:+ pretty (trace_pid d) +:+ ": " +:+ exn_name e
                 +:+ " encountered!").

Definition _setup_cache (self : nat) (pv : process_view) : stmt world unit :=
  update self (set_cached_last_cpu_time (PyInt 0));;
  d ← getattr self;
  update self (set_frontend_cache (λ _, list_to_map
    [("PID", str (PyInt (trace_pid d))); ("PPID", "NA"); ("NAME", "NA");
     ("CPU%", "NA"); ("STAT", "NA");
     ("CPU_TIME", str (_cached_last_cpu_time d)); ("RESIDENT_MEM", "NA");
     ("NUM_THREADS", "NA"); ("NUM_CHILD_PROCESS", "NA")]%string));;
  try_except
    (name ← lift (pv_name pv);
     setitem self "NAME" name;;
     ppid ← lift (pv_ppid pv);
     setitem self "PPID" (str (PyInt ppid)))
    PSUTIL_NOTFOUND_ERRORS
    (λ e, lift (Raise e)).

Definition _write_registry (self : nat) (pv : process_view) : stmt world unit :=
  try_except
    (d ← getattr self;
     let path := basename d +:+ ".reg.tsv" in
     open_a path;;
     cmdline ← lift (pv_cmdline pv);
     exe ← lift (pv_exe pv);
     cwd ← lift (pv_cwd pv);
     write path (join TAB [pv_timestamp pv; str (PyInt (trace_pid d));
                           join " " cmdline; exe; cwd] +:+ NL))
    PSUTIL_NOTFOUND_ERRORS
    (λ e, tracee_error self e;; lift (Raise e)).

Definition _write_env (self : nat) (pv : process_view) : stmt world unit :=
  try_except
    (d ← getattr self;
     let path := basename d +:+ "." +:+ pretty (trace_pid d) +:+ ".env.tsv" in
     open_w path;;
     write path (join TAB ["NAME"; "VALUE"] +:+ NL);;
     env ← lift (pv_environ pv);
     for_each env (λ '(env_name, env_value),
       write path (join TAB [env_name; env_value] +:+ NL)))
    PSUTIL_NOTFOUND_ERRORS
    (λ e, tracee_error self e;; lift (Raise e)).

Definition _write_mapfile (self : nat) (pv : process_view) : stmt world unit :=
  try_except
    (d ← getattr self;
     let path := basename d +:+ "." +:+ pretty (trace_pid d) +:+ ".mapfile.tsv" in
     open_w path;;
     write path (join TAB ["PATH"; "RESIDENT"; "VIRT"; "SWAP"] +:+ NL);;
     maps ← lift (pv_memory_maps pv);
     for_each maps (λ item,
       write path (join TAB [mm_path item; str (PyInt (mm_rss item));
                             str (PyInt (mm_size item));
                             str (PyInt (mm_swap item))] +:+ NL)))
    PSUTIL_NOTFOUND_ERRORS
    (λ e, tracee_error self e;; lift (Raise e)).

(** The constructor.  [loaded_tracers] is [None] for the default pool. *)
Definition __init__ (trace_pid : Z) (basename : string)
    (loaded_tracers : option (list string)) (pv : process_view) : stmt world nat :=
  self ← Base__init__ (str (PyInt trace_pid)) basename;
  register_dispatcher trace_pid self;;
  update self (set_loaded_tracers (default default_tracers loaded_tracers));;
  update self (set_trace_pid trace_pid);;
  try_except
    (lift (pv_Process pv);;
     _setup_cache self pv)
    PSUTIL_NOTFOUND_ERRORS
    (λ e, tracee_error self e;; lift (Raise e));;
  modify (set_ALL_PIDS (λ s, {[trace_pid]} ∪ s));;
  _write_registry self pv;;
  _write_env self pv;;
  _write_mapfile self pv;;
  update self (set_tracer_kwargs <["trace_pid"%string:=trace_pid]>);;
  start_tracers self;;
  mret self.

Definition _update_cache (self : nat) (cv : cycle_view) : stmt world unit :=
  d ← getattr self;
  total_cpu_time ← lift (cv_cpu_time cv);
  update self (set_cached_last_cpu_time
    (max (_cached_last_cpu_time d) (PyFloat total_cpu_time)));;
  d ← getattr self;
  setitem self "CPU_TIME" (str (round2 (_cached_last_cpu_time d)));;
  setitem self "CPU%" (str (cv_cpu_percent cv));;
  s ← lift (_to_human_readable (PyInt (cv_resident_mem cv)) 1024);
  setitem self "RESIDENT_MEM" s;;
  let thread_child_process_num := cv_thread_child_process_num cv in
  setitem self "NUM_THREADS" (str (PyInt thread_child_process_num.1));;
  setitem self "NUM_CHILD_PROCESS" (str (PyInt thread_child_process_num.2));;
  setitem self "STAT" (cv_stat cv).

(** Detect and start child process dispatchers.  The whole loop sits in one
    [try]: whatever raises a not-found error inside it, the enumeration or the
    constructor of a child, is logged against this dispatcher's own pid and
    raised again. *)
Definition _detect_process (self : nat) (cv : cycle_view) : stmt world unit :=
  try_except
    (children ← lift (cv_children cv);
     for_each children (λ '(pid, pv),
       active ← get_current_active_pids;
       if decide (pid ∉ active) then
         logging INFO ("Sub-process " +:+ pretty pid +:+ " detected.");;
         d ← getattr self;
         new_thread ← __init__ pid (basename d) None pv;
         start new_thread;;
         append_threadpool self "ProcessTracerDispatcherThread"
       else mret ()))
    PSUTIL_NOTFOUND_ERRORS
    (λ e, tracee_error self e;; lift (Raise e)).

(** Record the CPU time, then leave the registry. *)
Definition before_ending (self : nat) : stmt world unit :=
  d ← getattr self;
  let path := basename d +:+ "." +:+ pretty (trace_pid d) +:+ ".cputime" in
  open_w path;;
  write path (str (_cached_last_cpu_time d) +:+ NL);;
  remove_dispatcher (trace_pid d).

(** Modelled from the spec: [BaseTracerDispatcherThread.sigterm], which is
    not among the sources.  Termination sets the flag, stops the poller pool,
    then runs [before_ending]. *)
Definition sigterm (self : nat) : stmt world unit :=
  update self (set_should_exit true);;
  update self (set_thread_pool (λ _, []));;
  before_ending self.

Inductive flow := Continue | Finished.

(** One evaluation of the loop of [run_body]: the test of the flag, then the
    body; leaving the loop, by the test or by [break], runs [sigterm]. *)
Definition run_body_pass (self : nat) (cv : cycle_view) : stmt world flow :=
  d ← getattr self;
  if should_exit d then
    sigterm self;; mret Finished
  else
    _update_cache self cv;;
    broke ← try_except
      (_detect_process self cv;; mret false)
      PSUTIL_NOTFOUND_ERRORS
      (λ _, mret true);
    if broke : bool then
      sigterm self;; mret Finished
    else
      (* sleep(DEFAULT_REFRESH_INTERVAL) *)
      mret Continue.

(** [run_body] against the successive answers of the system; [Continue]
    means that the loop is still running when the answers end. *)
Fixpoint run_body (self : nat) (cvs : list cycle_view) : stmt world flow :=
  match cvs with
  | [] => mret Continue
  | cv :: cvs' =>
      f ← run_body_pass self cv;
      match f with
      | Continue => run_body self cvs'
      | Finished => mret Finished
      end
  end.

(** ** The monitor as a transition system

    The threads of the monitor interleave; a step is one pass of one
    dispatcher's loop (child scans are serialised by [_DISPATCHER_MUTEX]), the
    attachment of a process by the caller of the monitor, or a request to
    stop.  A thread ends when [run_body] returns or raises. *)
Inductive event :=
| Attach (pid : Z) (basename : string) (pv : process_view)
| Pass (self : nat) (cv : cycle_view)
| RequestExit (self : nat).

Definition is_alive (self : nat) (w : world) : bool :=
  alive (default blank (objects w !! self)).

Definition end_thread (self : nat) (w : world) : world :=
  set_objects (alter (set_alive false) self) w.

Definition step (w : world) (ev : event) : world :=
  match ev with
  | Attach pid basename pv =>
      ((new_thread ← __init__ pid basename None pv; start new_thread) w).1
  | Pass self cv =>
      if is_alive self w then
        match run_body_pass self cv w with
        | (w', Ok Continue) => w'
        | (w', _) => end_thread self w'
        end
      else w
  | RequestExit self =>
      (update self (set_should_exit true) w).1
  end.

Definition run (evs : list event) (w : world) : world := foldl step w evs.

End ProcessDispatcher.

(** ** [report.py]: one renderer job per entity *)

Module Report.

Record report_thread := ReportThread {
  this_pid : Z;
  report_basename : string;
}.

(** Set objects are referred to by identity, so that a caller sees what
    [make_all_report] does to the set it passes. *)
Record state := State {
  sets : gmap nat (gset Z);
  rfiles : gmap string string;
  rlog : list (level * string);
  (** the threads appended to the job queue *)
  queue : list report_thread;
  (** the threads the pool has started and that have not completed *)
  running : list report_thread;
  (** the pids whose thread has finished [run] *)
  finished : list Z;
}.

Definition set_sets (f : gmap nat (gset Z) → gmap nat (gset Z)) (s : state) : state :=
  State (f (sets s)) (rfiles s) (rlog s) (queue s) (running s) (finished s).
Definition set_rfiles (f : gmap string string → gmap string string) (s : state) : state :=
  State (sets s) (f (rfiles s)) (rlog s) (queue s) (running s) (finished s).
Definition set_rlog (f : list (level * string) → list (level * string)) (s : state) : state :=
  State (sets s) (rfiles s) (f (rlog s)) (queue s) (running s) (finished s).
Definition set_queue (f : list report_thread → list report_thread) (s : state) : state :=
  State (sets s) (rfiles s) (rlog s) (f (queue s)) (running s) (finished s).
Definition set_running (f : list report_thread → list report_thread) (s : state) : state :=
  State (sets s) (rfiles s) (rlog s) (queue s) (f (running s)) (finished s).
Definition set_finished (f : list Z → list Z) (s : state) : state :=
  State (sets s) (rfiles s) (rlog s) (queue s) (running s) (f (finished s)).

Definition logger (l : level) (msg : string) : stmt state unit :=
  modify (set_rlog (λ lg, lg ++ [(l, msg)])).

(** [os.path.join(a, b)] for a relative [b] *)
Definition path_join (a b : string) : string := a +:+ "/" +:+ b.

Section Renderer.

(** [_R_FILE_DIR], the directory of the R scripts, and the external renderer:
    for each pid, what [Rscript] prints and the exit code [wait()] returns. *)
Variable _R_FILE_DIR : string.
Variable renderer : Z → string * Z.

Definition log_filename (t : report_thread) : string :=
  if this_pid t =? 0 then report_basename t +:+ "_report_system.log"
  else report_basename t +:+ "_report_" +:+ pretty (this_pid t) +:+ "_.log".

Definition args (t : report_thread) : list string :=
  if this_pid t =? 0 then
    ["Rscript"; path_join _R_FILE_DIR "make_system_report.R";
     "--basename"; report_basename t;
     "--rmd"; path_join _R_FILE_DIR "system_report.Rmd"]%string
  else
    ["Rscript"; path_join _R_FILE_DIR "make_process_report.R";
     "--pid"; pretty (this_pid t);
     "--basename"; report_basename t;
     "--rmd"; path_join _R_FILE_DIR "process_report.Rmd"]%string.

(** [_MakeIndividualReportThread.run] *)
Definition thread_run (t : report_thread) : stmt state unit :=
  let log_filename := log_filename t in
  modify (set_rfiles <[log_filename:=""%string]>);;
  let report_process_args := args t in
  logger DEBUG (join " " report_process_args +:+ " ADD");;
  let '(output, retv) := renderer (this_pid t) in
  modify (set_rfiles <[log_filename:=output]>);;
  (if retv =? 0 then
     logger DEBUG (join " " report_process_args +:+ " FIN");;
     modify (set_rfiles (delete log_filename))
   else
     logger ERROR (join " " report_process_args +:+ " ERR"));;
  modify (set_finished (λ l, l ++ [this_pid t])).

(** Modelled from the spec: [parallel_helper.ParallelJobQueue], which is not
    among the sources (spec 4.5).  [start] hands the appended units to the
    pool, which runs them on threads of its own: how many of them have
    completed when [start] returns to the caller is the choice of the
    scheduler, [ahead].  What a unit raises stays in its thread and the
    other units run all the same.  [join] returns once every unit that was
    started has completed.  The units complete in the order of the queue,
    which is one family of the schedules of the pool. *)
Variable ahead : nat.

Definition ParallelJobQueue : stmt state unit :=
  modify (set_queue (λ _, []));;
  modify (set_running (λ _, [])).
Definition queue_append (t : report_thread) : stmt state unit :=
  modify (set_queue (λ q, q ++ [t])).

(** One unit on its thread. *)
Definition pool_thread (t : report_thread) : stmt state unit :=
  try_except (thread_run t) (λ _, true) (λ _, mret ()).

(** The first [n] of the running units complete. *)
Definition complete (n : nat) : stmt state unit :=
  s ← get;
  for_each (take n (running s)) pool_thread;;
  modify (set_running (drop n)).

Definition queue_start : stmt state unit :=
  s ← get;
  modify (set_running (λ _, queue s));;
  complete ahead.
Definition queue_join : stmt state unit :=
  s ← get;
  complete (length (running s)).

(** [make_all_report(all_pids, report_basename)]; [all_pids] is the identity
    of the caller's set. *)
Definition make_all_report (all_pids : nat) (report_basename : string) : stmt state unit :=
  ParallelJobQueue;;
  modify (set_sets (alter (λ s, {[0]} ∪ s) all_pids));;
  s ← get;
  for_each (elements (default ∅ (sets s !! all_pids))) (λ this_pid,
    queue_append (ReportThread this_pid report_basename));;
  queue_start;;
  queue_join;;
  logger INFO "All finished".

End Renderer.

End Report.

(** ** Predicates of the specification *)

Definition exec {S A} (m : stmt S A) (s : S) : S := (m s).1.

(** A statement respects a relation when every run of it, returning or
    raising, relates the state before to the state after. *)
Definition respects {S A} (R : S → S → Prop) (m : stmt S A) : Prop :=
  ∀ s, R s (exec m s).

(** A statement returns [v] when it returns at all. *)
Definition returns {S A} (v : A) (m : stmt S A) : Prop :=
  ∀ s, (m s).2 = Ok v ∨ ∃ e, (m s).2 = Raise e.

(** A statement that never raises. *)
Definition total {S A} (m : stmt S A) : Prop :=
  ∀ s, ∃ a, (m s).2 = Ok a.

Section DispatcherPredicates.
Import ProcessDispatcher.

(** What the registry invariant reads of an object: its pid and whether its
    thread is alive. *)
Definition key (w : world) (t : nat) : option (Z * bool) :=
  (λ d, (trace_pid d, alive d)) <$> objects w !! t.

(** Every object has an identity below [next_id]. *)
Definition well_formed (w : world) : Prop :=
  ∀ t, is_Some (objects w !! t) → (t < next_id w)%nat.

(** The central invariant: the dispatcher of a live thread is the one
    registered under its pid. *)
Definition registered_alive (w : world) : Prop :=
  ∀ t d, objects w !! t = Some d → alive d = true →
         _DISPATCHERS w !! trace_pid d = Some t.

(** Nothing the invariant reads has changed. *)
Definition same_core (w w' : world) : Prop :=
  _DISPATCHERS w' = _DISPATCHERS w ∧ next_id w' = next_id w
  ∧ ∀ t, key w' t = key w t.

(** The world has grown by attachments: registrations are kept, the objects
    that existed keep their pid and liveness, and a new live dispatcher has a
    pid that was free and is now registered to it. *)
Definition extends (w w' : world) : Prop :=
  well_formed w →
  well_formed w'
  ∧ (next_id w ≤ next_id w')%nat
  ∧ (∀ p t, _DISPATCHERS w !! p = Some t → _DISPATCHERS w' !! p = Some t)
  ∧ (∀ t, (t < next_id w)%nat → key w' t = key w t)
  ∧ (∀ t d, (next_id w ≤ t)%nat → objects w' !! t = Some d → alive d = true →
       _DISPATCHERS w !! trace_pid d = None
       ∧ _DISPATCHERS w' !! trace_pid d = Some t).

(** An update of an object that leaves its pid and liveness alone. *)
Definition key_safe (f : dispatcher → dispatcher) : Prop :=
  ∀ d, trace_pid (f d) = trace_pid d ∧ alive (f d) = alive d.

(** An update that leaves alone all that the supervision loop relies on. *)
Definition harmless (f : dispatcher → dispatcher) : Prop :=
  ∀ d, trace_pid (f d) = trace_pid d ∧ basename (f d) = basename d
       ∧ should_exit (f d) = should_exit d
       ∧ _cached_last_cpu_time (f d) = _cached_last_cpu_time d
       ∧ alive (f d) = alive d.

(** The dispatcher [self] is left as it is, but for its caches and pool,
    and the registry and the files are left as they are for it. *)
Definition keeps (self : nat) (w w' : world) : Prop :=
  (self < next_id w)%nat →
  (self < next_id w')%nat
  ∧ ∀ d, objects w !! self = Some d →
      ∃ d', objects w' !! self = Some d'
        ∧ trace_pid d' = trace_pid d ∧ basename d' = basename d
        ∧ should_exit d' = should_exit d
        ∧ _cached_last_cpu_time d' = _cached_last_cpu_time d
        ∧ alive d' = alive d.

Definition invariant (w : world) : Prop := well_formed w ∧ registered_alive w.

(** The file that receives the cumulative CPU time at teardown. *)
Definition cputime_path (d : dispatcher) : string :=
  basename d +:+ "." +:+ pretty (trace_pid d) +:+ ".cputime".

(** A relation on worlds that tolerates logging, file writes, additions to
    [_ALL_PIDS] and the key-safe updates of the object [t]. *)
Class Frame (R : world → world → Prop) (t : nat) := {
  frame_preorder :: PreOrder R;
  frame_log f w : R w (set_log f w);
  frame_files f w : R w (set_files f w);
  frame_all_pids f w : R w (set_ALL_PIDS f w);
  frame_update f w : key_safe f → R w (set_objects (alter f t) w);
}.

End DispatcherPredicates.

Section OrderPredicates.
Import PyFloat PyNum.

(** The numbers a cumulative CPU time takes: the integer 0 it starts from
    and the floats read, NaN apart. *)
Definition comparable (v : number) : Prop :=
  v = PyInt 0 ∨ ∃ x, v = PyFloat x ∧ x ≠ S754_nan.

(** The place of such a number in the order: sign class, then exponent,
    then mantissa. *)
Definition rank (v : number) : Z * Z * Z :=
  match v with
  | PyInt _ => (0, 0, 0)
  | PyFloat (S754_zero _) => (0, 0, 0)
  | PyFloat (S754_infinity s) => (if s then -2 else 2, 0, 0)
  | PyFloat S754_nan => (0, 0, 0)
  | PyFloat (S754_finite s m e) =>
      if s then (-1, - e, Z.neg m) else (1, e, Z.pos m)
  end.

Definition lex (p q : Z * Z * Z) : comparison :=
  match p.1.1 ?= q.1.1 with
  | Eq => match p.1.2 ?= q.1.2 with
          | Eq => p.2 ?= q.2
          | c => c
          end
  | c => c
  end.

(** [c] is the maximum, under Python's [max], of the initial 0 and the
    readings [rs]: it is the initial 0 or one of the readings, it is not
    below 0, and it is not below any reading that compares at all (a NaN
    compares with nothing and never replaces the cached value). *)
Definition max_with_zero (c : number) (rs : list float) : Prop :=
  (c = PyInt 0 ∨ ∃ r, r ∈ rs ∧ c = PyFloat r)
  ∧ ge c (PyInt 0) = true
  ∧ ∀ r, r ∈ rs → r ≠ S754_nan → ge c (PyFloat r) = true.

(** The cached value [c] once the poll has answered [r]: a poll that raises
    assigns nothing. *)
Definition updated (c : number) (r : result float) : number :=
  match r with
  | Ok total_cpu_time => max c (PyFloat total_cpu_time)
  | Raise _ => c
  end.

(** The cached cumulative CPU time of [self] once [run_body] has met the
    answers [cvs]. *)
Definition cpu_time_after (self : nat) (cvs : list ProcessDispatcher.cycle_view)
    (w : world) : number :=
  _cached_last_cpu_time
    (default ProcessDispatcher.blank
       (objects (exec (ProcessDispatcher.run_body self cvs) w) !! self)).

(** The readings delivered by the polls of [cvs]. *)
Definition readings (cvs : list ProcessDispatcher.cycle_view) : list float :=
  omap (λ cv, match ProcessDispatcher.cv_cpu_time cv with
              | Ok total_cpu_time => Some total_cpu_time
              | Raise _ => None
              end) cvs.

End OrderPredicates.

Definition zero_zero_zero : list ascii := ["0"; "."; "0"; "0"]%char.

Definition percent_free (l : list ascii) : Prop := "%"%char ∉ l.

Definition is_digit (c : ascii) : bool :=
  ((48 <=? nat_of_ascii c) && (nat_of_ascii c <=? 57))%nat.

Definition is_integer_text (l : list ascii) : bool :=
  match l with
  | [] => false
  | "-"%char :: ds => negb (bool_decide (ds = [])) && forallb is_digit ds
  | ds => forallb is_digit ds
  end.

(** The format "two decimal places with a trailing %": an integer part, a
    point, exactly two digits and the percent sign, as in "12.50%". *)
Definition two_decimals_percent (s : string) : bool :=
  match reverse (list_ascii_of_string s) with
  | "%"%char :: d2 :: d1 :: "."%char :: rest =>
      is_digit d1 && is_digit d2 && is_integer_text (reverse rest)
  | _ => false
  end.

(** ** Sample inputs *)

Module Samples.
Import PyFloat PyNum ProcessDispatcher.

(** Two processes were monitored; the renderer fails for pid 10. *)
Definition report_state : Report.state :=
  Report.State {[5%nat := {[10; 20]}]} ∅ [] [] [] [].
Definition renderer (p : Z) : string * Z :=
  if p =? 10 then ("boom"%string, 1) else ("fine"%string, 0).

(** A process that answers every query, and one that has exited. *)
Definition live (name : string) (ppid : Z) : process_view :=
  {| pv_Process := Ok (); pv_name := Ok name; pv_ppid := Ok ppid;
     pv_timestamp := "t0";
     pv_cmdline := Ok ["sh"; "-c"]%string; pv_exe := Ok "/bin/sh"%string;
     pv_cwd := Ok "/"%string; pv_environ := Ok [("HOME", "/root")]%string;
     pv_memory_maps := Ok [] |}.
Definition gone : process_view :=
  {| pv_Process := Raise NoSuchProcess; pv_name := Raise NoSuchProcess;
     pv_ppid := Raise NoSuchProcess; pv_timestamp := "t1";
     pv_cmdline := Raise NoSuchProcess; pv_exe := Raise NoSuchProcess;
     pv_cwd := Raise NoSuchProcess; pv_environ := Raise NoSuchProcess;
     pv_memory_maps := Raise NoSuchProcess |}.

(** One pass: a CPU time in quarters of a second, 12.5% of a core, 4096
    resident bytes, and the children enumerated. *)
Definition pass_view (quarters : positive)
    (children : result (list (Z * process_view))) : cycle_view :=
  {| cv_cpu_time := Ok (of_ratio false quarters 4);
     cv_cpu_percent := PyFloat (of_ratio false 25 2);
     cv_resident_mem := 4096; cv_thread_child_process_num := (3, 1);
     cv_stat := "S"; cv_children := children |}.

(** The process 1 has been attached: its dispatcher is the object 0. *)
Definition parent_world : world :=
  run [Attach 1 "out" (live "a" 0)] empty_world.
Definition parent : dispatcher :=
  default blank (objects parent_world !! 0%nat).

(** The process 1 has two children; the child 2 exits before it is
    attached. *)
Definition scan_with_gone_child : cycle_view :=
  pass_view 5 (Ok [(2, gone); (3, live "c" 1)]).

(** Readings of 1.25 s, 0.5 s and 2 s; then the process is gone. *)
Definition lifetime : list cycle_view :=
  [pass_view 5 (Ok []); pass_view 2 (Ok []);
   pass_view 8 (Raise NoSuchProcess)].

(** One pass in which the poll of the CPU time finds the process gone. *)
Definition poll_gone : cycle_view :=
  {| cv_cpu_time := Raise NoSuchProcess;
     cv_cpu_percent := PyFloat (of_ratio false 25 2);
     cv_resident_mem := 4096; cv_thread_child_process_num := (3, 1);
     cv_stat := "Z"; cv_children := Ok [] |}.


(** One pass whose reading is [t], with no children. *)
Definition reading (t : float) : cycle_view :=
  {| cv_cpu_time := Ok t;
     cv_cpu_percent := PyFloat (of_ratio false 25 2);
     cv_resident_mem := 4096; cv_thread_child_process_num := (3, 1);
     cv_stat := "S"; cv_children := Ok [] |}.

(** Readings of -1.0 s, not a number, 0.5 s and 0.25 s; then the process is
    gone at the scan. *)
Definition noisy_lifetime : list cycle_view :=
  [reading (of_ratio true 1 1); reading S754_nan; reading (of_ratio false 1 2);
   pass_view 1 (Raise NoSuchProcess)].

(** Two cores at 12.5% and 25%; 1 byte of 2 in use; no swap. *)
Definition system_pool : SystemDispatcher.pool :=
  SystemDispatcher.Build_pool
    [of_ratio false 25 2; of_ratio false 25 1] (1, 2, 4096, 0) (5, 0).

End Samples.

(** * Properties *)

(** ** Strings as lists of characters *)

Section StringFacts.

Lemma chars_app (s t : string) :
  list_ascii_of_string (s +:+ t) = list_ascii_of_string s ++ list_ascii_of_string t.
Proof. induction s as [|c s IH]; simpl; [done | by rewrite IH]. Qed.

Lemma chars_inj (s t : string) :
  list_ascii_of_string s = list_ascii_of_string t → s = t.
Proof.
  intros H. rewrite <- (string_of_list_ascii_of_string s),
    <- (string_of_list_ascii_of_string t). by rewrite H.
Qed.

Lemma chars_length (s : string) :
  length (list_ascii_of_string s) = String.length s.
Proof. induction s as [|c s IH]; simpl; [done | by rewrite IH]. Qed.

(** Two concatenations with suffixes of one length agree part by part. *)
Lemma string_app_inj_suffix (s1 s2 t1 t2 : string) :
  String.length t1 = String.length t2 →
  s1 +:+ t1 = s2 +:+ t2 → s1 = s2 ∧ t1 = t2.
Proof.
  intros Hlen Heq. apply (f_equal list_ascii_of_string) in Heq.
  rewrite !chars_app in Heq.
  apply app_inj_2 in Heq as [H1 H2]; [|by rewrite !chars_length].
  split; by apply chars_inj.
Qed.

End StringFacts.

(** ** The text of a float *)

Section ReprFacts.
Import PyFloat.

Lemma digits_fuel_app fuel n acc :
  ∃ pre, digits_fuel fuel n acc = pre ++ acc.
Proof.
  revert n acc. induction fuel as [|fuel IH]; intros n acc; simpl.
  - by exists [].
  - destruct (n <? 10).
    + by exists [digit_char n].
    + destruct (IH (n / 10) (digit_char (n mod 10) :: acc)) as [pre ->].
      exists (pre ++ [digit_char (n mod 10)]). by rewrite <- app_assoc.
Qed.

(** The last digit printed is the digit of the units. *)
Lemma digits_last (n : positive) :
  ∃ pre, digits n = pre ++ [digit_char (Z.pos n mod 10)].
Proof.
  unfold digits.
  destruct (Pos.to_nat (digits2_pos n)) as [|fuel] eqn:Hf; [lia|].
  simpl. destruct (Z.pos n <? 10) eqn:Hlt.
  - exists []. simpl. apply Z.ltb_lt in Hlt.
    rewrite Z.mod_small by lia. done.
  - apply digits_fuel_app.
Qed.

Lemma digit_char_units (n : Z) :
  n mod 10 ≠ 0 → digit_char (n mod 10) ≠ "0"%char.
Proof.
  intros Hne. pose proof (Z.mod_pos_bound n 10 ltac:(lia)) as Hb.
  destruct (n mod 10) as [|d|d]; [done| |lia].
  unfold digit_char. by repeat (destruct d as [d|d|]; try done).
Qed.

Lemma strip_zeros_units fuel n z :
  0 < n < 2 ^ Z.of_nat fuel →
  (strip_zeros fuel n z).1 mod 10 ≠ 0 ∧ 0 < (strip_zeros fuel n z).1.
Proof.
  revert n z. induction fuel as [|fuel IH]; intros n z Hn.
  - simpl in Hn. lia.
  - simpl. destruct (n mod 10 =? 0) eqn:Hm; simpl.
    + destruct (0 <? n) eqn:Hp; [|apply Z.ltb_ge in Hp; lia].
      apply Z.eqb_eq in Hm. apply IH.
      rewrite Nat2Z.inj_succ, Z.pow_succ_r in Hn by lia.
      pose proof (Z.div_mod n 10 ltac:(lia)) as Hdm. lia.
    + apply Z.eqb_neq in Hm. simpl. lia.
Qed.

(** The digit string of [dtoa0] does not end with a zero. *)
Lemma dtoa0_last m e :
  ∃ pre c, (dtoa0 m e).1 = pre ++ [c] ∧ c ≠ "0"%char.
Proof.
  unfold dtoa0.
  destruct (interval m e) as [[[v lo] hi] d].
  destruct (shortest 16 m e (decpt_of v d) 1) as [n k].
  destruct (strip_zeros _ n 0) as [n' z] eqn:Hs. simpl.
  destruct (digits_last (Z.to_pos n')) as [pre Hpre].
  exists pre, (digit_char (Z.pos (Z.to_pos n') mod 10)). split; [done|].
  apply digit_char_units.
  destruct (decide (0 < n)) as [Hpos|Hneg].
  - pose proof (strip_zeros_units (S (Z.to_nat (Z.log2 n))) n 0) as H.
    rewrite Hs in H. simpl in H. destruct H as [H1 H2].
    + split; [done|]. pose proof (Z.log2_spec n Hpos) as [_ Hlt].
      rewrite Nat2Z.inj_succ, Z2Nat.id by apply Z.log2_nonneg. exact Hlt.
    + rewrite Z2Pos.id by done. done.
  - assert (Hn' : n' = n).
    { simpl in Hs. destruct (0 <? n) eqn:Hp; [apply Z.ltb_lt in Hp; lia|].
      rewrite andb_false_r in Hs. congruence. }
    subst n'. destruct n; try lia; done.
Qed.

Lemma format_r_not_zero_zero_zero pre c decpt :
  c ≠ "0"%char → format_r (pre ++ [c]) decpt ≠ zero_zero_zero.
Proof.
  intros Hc. unfold format_r, zero_zero_zero.
  set (ds := pre ++ [c]).
  destruct ((decpt <=? -4) || (16 <? decpt)).
  { intros H. assert (Hin : "e"%char ∈ ["0"; "."; "0"; "0"]%char).
    { rewrite <- H. rewrite !elem_of_app. right. right. by left. }
    by repeat (apply elem_of_cons in Hin as [Hin|Hin]; [done|]);
      apply not_elem_of_nil in Hin. }
  destruct (decpt <=? 0).
  { intros H. apply (f_equal last) in H. subst ds.
    change ("0"%char :: "."%char :: zeros (- decpt) ++ pre ++ [c])
      with (("0"%char :: "."%char :: zeros (- decpt) ++ pre) ++ [c]) in H
      || rewrite !app_comm_cons, app_assoc in H.
    rewrite last_snoc in H. simpl in H. congruence. }
  destruct (decpt <? Z.of_nat (length ds)) eqn:Hlt.
  { apply Z.ltb_lt in Hlt. intros H. apply (f_equal last) in H.
    subst ds. rewrite length_app in Hlt. simpl in Hlt.
    rewrite drop_app_le in H by lia.
    rewrite app_comm_cons, app_assoc, last_snoc in H. simpl in H. congruence. }
  intros H.
  change ["0"; "."; "0"; "0"]%char with (["0"; "."] ++ ["0"; "0"])%char in H.
  rewrite app_assoc in H. apply app_inj_2 in H as [_ H]; [discriminate H | done].
Qed.

(** [repr(x)] is never the text "0.00". *)
Lemma repr_not_zero_zero_zero (x : float) : repr x ≠ "0.00"%string.
Proof.
  unfold repr. intros H. apply (f_equal list_ascii_of_string) in H.
  rewrite list_ascii_of_string_of_list_ascii in H. simpl in H.
  destruct x as [s|s| |s m e]; simpl in H.
  - by destruct s.
  - by destruct s.
  - done.
  - destruct (dtoa0 m e) as [ds decpt] eqn:Hd.
    destruct (dtoa0_last m e) as (pre & c & Hds & Hc).
    rewrite Hd in Hds. simpl in Hds. subst ds.
    destruct s; simpl in H.
    + discriminate H.
    + by apply format_r_not_zero_zero_zero in H.
Qed.

End ReprFacts.

(** ** Rounding an integer to binary64 never gives zero *)

Section RoundingFacts.
Import PyFloat.

Lemma shr_m_of_loc m l : shr_m (shr_record_of_loc m l) = m.
Proof. by destruct l as [|[]]. Qed.

Lemma shr_1_halves mrs : 0 <= shr_m mrs → shr_m (shr_1 mrs) = shr_m mrs / 2.
Proof.
  destruct mrs as [m r s]; simpl. intros Hm.
  destruct m as [|[p|p|]|p]; simpl; try lia;
    first [apply Z.div_unique with 1; lia | apply Z.div_unique with 0; lia].
Qed.

Lemma iter_shr_1 (p : positive) mrs :
  0 <= shr_m mrs →
  shr_m (SpecFloat.iter_pos shr_1 p mrs) = shr_m mrs / 2 ^ Z.pos p.
Proof.
  revert mrs. induction p as [p IH|p IH|]; intros mrs Hm;
    cbn [SpecFloat.iter_pos].
  - assert (H1 : 0 <= shr_m (shr_1 mrs)).
    { rewrite shr_1_halves by done. apply Z.div_pos; lia. }
    assert (H2 : 0 <= shr_m (SpecFloat.iter_pos shr_1 p (shr_1 mrs))).
    { rewrite IH by done. apply Z.div_pos; [done|]. apply Z.pow_pos_nonneg; lia. }
    assert (Hp : 0 < 2 ^ Z.pos p) by (apply Z.pow_pos_nonneg; lia).
    rewrite IH, IH, shr_1_halves by done.
    rewrite !Z.div_div by lia.
    replace (2 ^ Z.pos p~1) with (2 * 2 ^ Z.pos p * 2 ^ Z.pos p); [f_equal; lia|].
    rewrite Pos2Z.inj_xI.
    replace (2 * Z.pos p + 1) with (1 + Z.pos p + Z.pos p) by lia.
    rewrite !Z.pow_add_r by lia. lia.
  - assert (H2 : 0 <= shr_m (SpecFloat.iter_pos shr_1 p mrs)).
    { rewrite IH by done. apply Z.div_pos; [done|]. apply Z.pow_pos_nonneg; lia. }
    assert (Hp : 0 < 2 ^ Z.pos p) by (apply Z.pow_pos_nonneg; lia).
    rewrite IH, IH by done.
    rewrite !Z.div_div by lia.
    replace (2 ^ Z.pos p~0) with (2 ^ Z.pos p * 2 ^ Z.pos p); [f_equal; lia|].
    rewrite <- Z.pow_add_r by lia. f_equal. lia.
  - by rewrite shr_1_halves.
Qed.

Lemma digits2_lower (m : positive) : 2 ^ (Z.pos (digits2_pos m) - 1) <= Z.pos m.
Proof.
  induction m as [m IH|m IH|]; cbn [digits2_pos]; [| |done].
  - rewrite Pos2Z.inj_succ.
    replace (Z.succ (Z.pos (digits2_pos m)) - 1)
      with (Z.succ (Z.pos (digits2_pos m) - 1)) by lia.
    rewrite Z.pow_succ_r by lia. lia.
  - rewrite Pos2Z.inj_succ.
    replace (Z.succ (Z.pos (digits2_pos m)) - 1)
      with (Z.succ (Z.pos (digits2_pos m) - 1)) by lia.
    rewrite Z.pow_succ_r by lia. lia.
Qed.

(** Above the smallest exponent, shifting to the working precision keeps a
    positive mantissa positive. *)
Lemma shr_fexp_positive m e l :
  0 < m → -1074 <= e →
  0 < shr_m (shr_fexp prec emax m e l).1 ∧ -1074 <= (shr_fexp prec emax m e l).2.
Proof.
  intros Hm He. unfold shr_fexp, shr.
  destruct m as [|m|m]; try lia. simpl Zdigits2.
  set (d := Z.pos (digits2_pos m)).
  destruct (fexp prec emax (d + e) - e) as [|k|k] eqn:Hk; simpl;
    rewrite ?shr_m_of_loc; try (split; lia).
  unfold fexp, SpecFloat.emin, prec, emax in Hk.
  rewrite iter_shr_1 by (rewrite shr_m_of_loc; lia).
  rewrite shr_m_of_loc.
  assert (Hkd : Z.pos k = d - 53) by lia.
  split; [|lia].
  apply Z.div_str_pos. split; [apply Z.pow_pos_nonneg; lia|].
  etrans; [|apply digits2_lower]. fold d.
  apply Z.pow_le_mono_r; lia.
Qed.

Lemma round_nearest_even_ge m l : m <= round_nearest_even m l.
Proof. destruct l as [|[]]; simpl; try lia. destruct (Z.even m); lia. Qed.

Lemma binary_round_aux_not_zero sx mx ex lx s :
  0 < mx → -1074 <= ex →
  binary_round_aux prec emax sx mx ex lx ≠ S754_zero s.
Proof.
  intros Hm He. unfold binary_round_aux.
  pose proof (shr_fexp_positive mx ex lx Hm He) as [H1 H2].
  destruct (shr_fexp prec emax mx ex lx) as [mrs' e']. simpl in H1, H2.
  set (m1 := round_nearest_even _ _).
  assert (Hm1 : 0 < m1).
  { pose proof (round_nearest_even_ge (shr_m mrs') (loc_of_shr_record mrs')).
    subst m1. lia. }
  pose proof (shr_fexp_positive m1 e' loc_Exact Hm1 H2) as [H3 H4].
  destruct (shr_fexp prec emax m1 e' loc_Exact) as [mrs'' e'']. simpl in H3.
  destruct (shr_m mrs''); try lia.
  by destruct (e'' <=? emax - prec).
Qed.

(** [float(n)] of a non-zero integer is not zero. *)
Lemma of_Z_round_not_zero n s : n ≠ 0 → of_Z_round n ≠ S754_zero s.
Proof.
  intros Hn. unfold of_Z_round, binary_normalize.
  assert (Hpos : ∀ sx m, binary_round prec emax sx m 0 ≠ S754_zero s).
  { intros sx m. unfold binary_round, shl_align.
    set (d := Z.pos (digits2_pos m)).
    assert (Hf : fexp prec emax (d + 0) = d - 53).
    { unfold fexp, SpecFloat.emin, prec, emax. lia. }
    rewrite Hf. destruct (d - 53 - 0) as [|k|k] eqn:Hk;
      apply binary_round_aux_not_zero; lia. }
  destruct n; [done|apply Hpos|apply Hpos].
Qed.

End RoundingFacts.

(** ** Byte scaling *)

Section HumanReadableFacts.
Import PyNum HumanReadable.

(** A value that does not exceed the base is not scaled. *)
Lemma scale_small budget dc_list base n step dc :
  n <= base →
  scale budget dc_list base (PyInt n) step dc = Ok (PyInt n, dc).
Proof.
  intros Hle. destruct budget as [|budget]; [done|].
  simpl. unfold gt. simpl.
  by destruct (n ?= base) eqn:Hc.
Qed.

Lemma to_human_readable_small n base :
  base = 1024 ∨ base = 1000 → n <= base →
  _to_human_readable (PyInt n) base = Ok (pretty n +:+ "B").
Proof.
  intros [-> | ->] Hle; unfold _to_human_readable;
    cbn [Z.eqb Pos.eqb mbind result_bind];
    rewrite scale_small by done; reflexivity.
Qed.

(** C2, as the code has it: [_to_human_readable] returns "0B" for 0 and
    "999B" for 999 with base 1000; for 1024 with base 1024 it returns "1024B",
    because a value is divided only while it strictly exceeds the base, and
    1025 is the first value rendered as "1.0KiB". *)
Theorem to_human_readable_vectors :
  _to_human_readable (PyInt 0) 1024 = Ok "0B"%string
  ∧ _to_human_readable (PyInt 1024) 1024 = Ok "1024B"%string
  ∧ _to_human_readable (PyInt 999) 1000 = Ok "999B"%string
  ∧ _to_human_readable (PyInt 1025) 1024 = Ok "1.0KiB"%string.
Proof. repeat split; vm_compute; reflexivity. Qed.

(** C2, as stated, fails on its second vector: 1024 is not rendered as
    "1.0KiB". *)
Lemma to_human_readable_vectors_as_stated_fail :
  ¬ (_to_human_readable (PyInt 0) 1024 = Ok "0B"%string
     ∧ _to_human_readable (PyInt 1024) 1024 = Ok "1.0KiB"%string
     ∧ _to_human_readable (PyInt 999) 1000 = Ok "999B"%string).
Proof. intros (_ & H & _). vm_compute in H. discriminate H. Qed.

End HumanReadableFacts.

(** ** Arithmetic on numbers *)

Section NumFacts.
Import PyFloat PyNum.

Lemma to_float_int_not_zero n x :
  n ≠ 0 → to_float (PyInt n) = Ok x → is_zero (PyFloat x) = false.
Proof.
  intros Hn. unfold to_float. pose proof (of_Z_round_not_zero n) as Hz.
  destruct (of_Z_round n) as [s| | |] eqn:E; intros [= <-]; try done.
  by destruct (Hz s Hn).
Qed.

(** Dividing by a non-zero integer never raises [ZeroDivisionError]. *)
Lemma truediv_nonzero_int v n :
  n ≠ 0 → truediv v (PyInt n) ≠ Raise ZeroDivisionError.
Proof.
  intros Hn. destruct v as [a|x].
  - simpl. destruct n as [|n|n]; [done| |].
    + destruct a; [done| |]; by destruct (of_ratio _ _ _).
    + destruct a; [done| |]; by destruct (of_ratio _ _ _).
  - change (truediv (PyFloat x) (PyInt n))
      with (y ← to_float (PyInt n);
            if is_zero (PyFloat y) then Raise ZeroDivisionError
            else Ok (PyFloat (fdiv x y))).
    unfold mbind, result_bind.
    destruct (to_float (PyInt n)) as [y|e] eqn:E.
    + by rewrite (to_float_int_not_zero n y Hn E).
    + unfold to_float in E. by destruct (of_Z_round n); inversion E.
Qed.

(** A quotient is a float. *)
Lemma truediv_float a b q : truediv a b = Ok q → ∃ x, q = PyFloat x.
Proof.
  unfold truediv, mbind, result_bind.
  repeat case_match; intros; simplify_eq; eauto.
Qed.

Lemma mul_float_int x n r :
  mul (PyFloat x) (PyInt n) = Ok r → ∃ y, r = PyFloat y.
Proof.
  unfold mul, mbind, result_bind.
  repeat case_match; intros; simplify_eq; eauto.
Qed.

Lemma mul_no_zero_division a b : mul a b ≠ Raise ZeroDivisionError.
Proof.
  unfold mul, to_float, mbind, result_bind.
  repeat case_match; intros; simplify_eq; eauto.
Qed.

(** The text of a float followed by "%" is never "0.00%". *)
Lemma str_float_percent x : str (PyFloat x) +:+ "%" ≠ "0.00%"%string.
Proof.
  intros H. change "0.00%"%string with ("0.00" +:+ "%")%string in H.
  apply string_app_inj_suffix in H as [H _]; [|done].
  by apply repr_not_zero_zero_zero in H.
Qed.

End NumFacts.

Section HumanReadableNoZeroDivision.
Import PyNum HumanReadable.

Lemma scale_no_zero_division budget dc_list base num step dc :
  base ≠ 0 → scale budget dc_list base num step dc ≠ Raise ZeroDivisionError.
Proof.
  intros Hb. revert num step dc.
  induction budget as [|budget IH]; intros num step dc; simpl; [done|].
  destruct (gt num (PyInt base)); [|done].
  unfold mbind, result_bind.
  pose proof (truediv_nonzero_int num base Hb) as Hd.
  destruct (truediv num (PyInt base)) as [q|e];
    [apply IH | intros [= ->]; by apply Hd].
Qed.

Lemma to_human_readable_no_zero_division num base :
  _to_human_readable num base ≠ Raise ZeroDivisionError.
Proof.
  unfold _to_human_readable.
  destruct (base =? 1024) eqn:H1; [|destruct (base =? 1000) eqn:H2].
  - apply Z.eqb_eq in H1. subst base.
    cbn [mbind result_bind].
    pose proof (scale_no_zero_division (length dc_list_1024 - 1 - 0) dc_list_1024
                  1024 num 0 (index dc_list_1024 0) ltac:(done)) as Hs.
    destruct (scale _ _ _ _ _ _) as [[n d]|e];
      [done | intros [= ->]; by apply Hs].
  - apply Z.eqb_eq in H2. subst base.
    cbn [mbind result_bind].
    pose proof (scale_no_zero_division (length dc_list_1000 - 1 - 0) dc_list_1000
                  1000 num 0 (index dc_list_1000 0) ltac:(done)) as Hs.
    destruct (scale _ _ _ _ _ _) as [[n d]|e];
      [done | intros [= ->]; by apply Hs].
  - done.
Qed.

End HumanReadableNoZeroDivision.

Section StatisticsFacts.
Import PyFloat PyNum Statistics.

Lemma ratio_sum_denominator (data : list float) :
  0 < (foldr (λ x acc, ratio_add (as_ratio x) acc) (0, 1) data).2.
Proof.
  induction data as [|x data IH]; simpl; [done|]. lia.
Qed.

Lemma mean_no_zero_division data : mean data ≠ Raise ZeroDivisionError.
Proof.
  unfold mean. destruct data as [|x data]; [done|].
  set (l := x :: data).
  assert (Hn : Z.of_nat (length l) ≠ 0) by (subst l; simpl; lia).
  destruct (forallb is_finite l); unfold mbind, result_bind.
  - pose proof (ratio_sum_denominator l) as Hd.
    set (total := foldr _ _ l) in *.
    pose proof (truediv_nonzero_int (PyInt total.1) (total.2 * Z.of_nat (length l))
                  ltac:(lia)) as Ht.
    destruct (truediv _ _) as [q|e] eqn:E; [|intros [= ->]; by apply Ht].
    apply truediv_float in E as [y ->]. done.
  - pose proof (truediv_nonzero_int
                  (PyFloat (foldl fadd (S754_zero false)
                              (filter (λ x, is_finite x = false) l)))
                  (Z.of_nat (length l)) Hn) as Ht.
    destruct (truediv _ _) as [q|e] eqn:E; [|intros [= ->]; by apply Ht].
    apply truediv_float in E as [y ->]. done.
Qed.

End StatisticsFacts.

(** ** No number is printed with a percent sign *)

Section PercentFree.
Import PyFloat PyNum.

Lemma percent_free_app l1 l2 :
  percent_free l1 → percent_free l2 → percent_free (l1 ++ l2).
Proof. unfold percent_free. rewrite elem_of_app. tauto. Qed.

Lemma percent_free_cons c l :
  c ≠ "%"%char → percent_free l → percent_free (c :: l).
Proof. unfold percent_free. rewrite elem_of_cons. intros Hc Hl [H|H]; auto. Qed.

Lemma percent_free_nil : percent_free [].
Proof. apply not_elem_of_nil. Qed.

Lemma percent_free_subseteq l1 l2 :
  l1 ⊆ l2 → percent_free l2 → percent_free l1.
Proof. unfold percent_free. intros Hs Hl Hin. by apply Hl, Hs. Qed.

Lemma digit_char_not_percent d : digit_char d ≠ "%"%char.
Proof. unfold digit_char. by repeat case_match. Qed.

Lemma digits_fuel_percent_free fuel n acc :
  percent_free acc → percent_free (digits_fuel fuel n acc).
Proof.
  revert n acc. induction fuel as [|fuel IH]; intros n acc Hacc; simpl; [done|].
  destruct (n <? 10).
  - apply percent_free_cons; [apply digit_char_not_percent | done].
  - apply IH, percent_free_cons; [apply digit_char_not_percent | done].
Qed.

Lemma digits_percent_free n : percent_free (digits n).
Proof. apply digits_fuel_percent_free, percent_free_nil. Qed.

Lemma zeros_percent_free n : percent_free (zeros n).
Proof.
  unfold zeros, percent_free. intros Hin.
  by apply elem_of_replicate in Hin as [? _].
Qed.

Lemma format_r_percent_free ds decpt :
  percent_free ds → percent_free (format_r ds decpt).
Proof.
  intros Hds. unfold format_r, exponent_digits.
  assert (Htake : ∀ k, percent_free (take k ds)).
  { intros k. eapply percent_free_subseteq; [apply subseteq_take | done]. }
  assert (Hdrop : ∀ k, percent_free (drop k ds)).
  { intros k. eapply percent_free_subseteq; [apply subseteq_drop | done]. }
  repeat case_match;
    repeat first
      [ apply percent_free_app | apply percent_free_cons | apply percent_free_nil
      | apply digits_percent_free | apply zeros_percent_free
      | apply Htake | apply Hdrop | done ].
Qed.

Lemma repr_percent_free (x : float) : percent_free (repr_chars x).
Proof.
  destruct x as [s|s| |s m e]; simpl.
  - destruct s; simpl; repeat (apply percent_free_cons; [done|]); apply percent_free_nil.
  - destruct s; simpl; repeat (apply percent_free_cons; [done|]); apply percent_free_nil.
  - repeat (apply percent_free_cons; [done|]); apply percent_free_nil.
  - unfold dtoa0.
    destruct (interval m e) as [[[v lo] hi] d].
    destruct (shortest 16 m e (decpt_of v d) 1) as [n k].
    destruct (strip_zeros _ n 0) as [n' z].
    apply percent_free_app.
    + destruct s; [apply percent_free_cons; [done|]|]; apply percent_free_nil.
    + apply format_r_percent_free, digits_percent_free.
Qed.

Lemma pretty_N_go_percent_free (x : N) (s : string) :
  percent_free (list_ascii_of_string s) →
  percent_free (list_ascii_of_string (pretty_N_go x s)).
Proof.
  revert s. induction (N.lt_wf_0 x) as [x _ IH]; intros s Hs.
  destruct (decide (x = 0)%N) as [->|Hx]; [by rewrite pretty_N_go_0|].
  rewrite pretty_N_go_step by lia. apply IH.
  - apply N.div_lt; lia.
  - simpl. apply percent_free_cons; [|done].
    unfold pretty_N_char. by repeat case_match.
Qed.

Lemma pretty_Z_percent_free (n : Z) :
  percent_free (list_ascii_of_string (pretty n)).
Proof.
  assert (HN : ∀ x : N, percent_free (list_ascii_of_string (pretty x))).
  { intros x. unfold pretty, pretty_N. case_decide.
    - simpl. apply percent_free_cons; [done | apply percent_free_nil].
    - apply pretty_N_go_percent_free. apply percent_free_nil. }
  destruct n as [|p|p]; unfold pretty, pretty_Z.
  - simpl. apply percent_free_cons; [done | apply percent_free_nil].
  - apply HN.
  - simpl. apply percent_free_cons; [done | apply HN].
Qed.

(** The text of a number holds no percent sign. *)
Lemma str_percent_free (v : number) :
  percent_free (list_ascii_of_string (str v)).
Proof.
  destruct v as [n|x]; simpl.
  - apply pretty_Z_percent_free.
  - unfold repr. rewrite list_ascii_of_string_of_list_ascii.
    apply repr_percent_free.
Qed.

End PercentFree.

(** ** The system frontend cache *)

Section SystemCacheFacts.
Import PyFloat PyNum HumanReadable SystemDispatcher.

(** A percentage computed from a quotient is the text of a float followed by
    "%", hence not "0.00%". *)
Lemma ratio_percent_text a b q r :
  truediv (PyInt a) (PyInt b) = Ok q → mul q (PyInt 100) = Ok r →
  ∃ y, str (round2 r) +:+ "%" = repr y +:+ "%"
       ∧ str (round2 r) +:+ "%" ≠ "0.00%"%string.
Proof.
  intros Hq Hr. apply truediv_float in Hq as [x ->].
  apply mul_float_int in Hr as [y ->].
  exists (round_ndigits 2 y). split; [done|]. apply str_float_percent.
Qed.

Ltac reduce_update :=
  cbn beta iota zeta delta
    [fst snd negb cached_cpu_percent cached_vm_info cached_swap_info].

Ltac step_update :=
  match goal with
  | |- context [negb (?b =? 0)] =>
      let E := fresh "E" in destruct (b =? 0) eqn:E; reduce_update
  | |- context [match ?r with Ok _ => _ | Raise _ => _ end] =>
      let E := fresh "E" in destruct r eqn:E; reduce_update
  end.

Ltac no_zero_division :=
  match goal with
  | H : Statistics.mean _ = Raise ZeroDivisionError |- _ =>
      by apply mean_no_zero_division in H
  | H : _to_human_readable _ _ = Raise ZeroDivisionError |- _ =>
      by apply to_human_readable_no_zero_division in H
  | H : mul _ _ = Raise ZeroDivisionError |- _ =>
      by apply mul_no_zero_division in H
  | H : truediv _ (PyInt ?n) = Raise ZeroDivisionError, E : (?n =? 0) = false |- _ =>
      apply Z.eqb_neq in E; by apply (truediv_nonzero_int _ n E) in H
  end.

(** C6: rebuilding the system cache never raises [ZeroDivisionError]; and
    when the rebuild completes, VM_PERCENT is "0.00%" exactly when the total
    memory is 0, and SWAP_PERCENT is "0.00%" exactly when the total swap is
    0. *)
Theorem system_percent_zero_total
    (cpu : list float) (mem0 mem1 mem2 mem3 swap0 swap1 : Z) (c : cache) :
  let p := Build_pool cpu (mem0, mem1, mem2, mem3) (swap0, swap1) in
  (_update_cache p c).2 ≠ Raise ZeroDivisionError
  ∧ ((_update_cache p c).2 = Ok () →
     ((_update_cache p c).1 !! "VM_PERCENT"%string = Some "0.00%"%string ↔ mem1 = 0)
     ∧ ((_update_cache p c).1 !! "SWAP_PERCENT"%string = Some "0.00%"%string ↔ swap1 = 0)).
Proof.
  intros p. subst p.
  unfold _update_cache, setitem, lift, modify, mbind, stmt_bind. reduce_update.
  repeat step_update.
  all: split; [try done | intros Hok; try done].
  all: try (intros [= ->]; no_zero_division).
  all: repeat match goal with
       | E : (_ =? 0) = true |- _ => apply Z.eqb_eq in E
       | E : (_ =? 0) = false |- _ => apply Z.eqb_neq in E
       end.
  all: repeat match goal with
       | Hq : truediv (PyInt ?a) (PyInt ?b) = Ok ?q, Hr : mul ?q (PyInt 100) = Ok ?r |- _ =>
           destruct (ratio_percent_text a b q r Hq Hr) as (? & _ & ?); clear Hq Hr
       end.
  all: split.
  all: repeat (rewrite lookup_insert_ne by done).
  all: rewrite lookup_insert_eq.
  all: split; intros; first [done | congruence].
Qed.

(** A percentage computed from a quotient is a float, and its text is the
    text of that float rounded to two decimals. *)
Lemma ratio_percent_float a b q r :
  truediv (PyInt a) (PyInt b) = Ok q → mul q (PyInt 100) = Ok r →
  ∃ y, r = PyFloat y ∧ str (round2 r) = repr (round_ndigits 2 y).
Proof.
  intros Hq Hr. apply truediv_float in Hq as [x ->].
  apply mul_float_int in Hr as [y ->]. by exists y.
Qed.

(** C8, as amended: when the rebuild of the system cache completes, each of
    its three percentages is a text without "%" followed by one "%".  For
    CPU% the text is that of the mean of the cores rounded to two decimals;
    for VM_PERCENT and SWAP_PERCENT it is "0.00" when the total is 0, and
    otherwise that of 100 times the quotient rounded to two decimals.  The
    text of a rounded float is [repr] of it, the shortest text that reads
    back as that float; it is not padded to two decimals. *)
Theorem system_percentages_rounded
    (cpu : list float) (mem0 mem1 mem2 mem3 swap0 swap1 : Z) (c : cache) :
  let p := Build_pool cpu (mem0, mem1, mem2, mem3) (swap0, swap1) in
  let c' := (_update_cache p c).1 in
  let ratio (a b : Z) (t : string) :=
    if b =? 0 then t = "0.00"%string
    else ∃ q y, truediv (PyInt a) (PyInt b) = Ok q
                ∧ mul q (PyInt 100) = Ok (PyFloat y)
                ∧ t = repr (round_ndigits 2 y) in
  (_update_cache p c).2 = Ok () →
  (∃ m, Statistics.mean cpu = Ok m
        ∧ c' !! "CPU%"%string = Some (repr (round_ndigits 2 m) +:+ "%")
        ∧ percent_free (list_ascii_of_string (repr (round_ndigits 2 m))))
  ∧ (∃ t, c' !! "VM_PERCENT"%string = Some (t +:+ "%")
          ∧ percent_free (list_ascii_of_string t) ∧ ratio mem0 mem1 t)
  ∧ (∃ t, c' !! "SWAP_PERCENT"%string = Some (t +:+ "%")
          ∧ percent_free (list_ascii_of_string t) ∧ ratio swap0 swap1 t).
Proof.
  intros p c' ratio. subst p c' ratio. cbn beta.
  unfold _update_cache, setitem, lift, modify, mbind, stmt_bind. reduce_update.
  repeat step_update.
  all: intros Hok; try done.
  all: repeat match goal with
       | Hq : truediv (PyInt ?a) (PyInt ?b) = Ok ?q, Hr : mul ?q (PyInt 100) = Ok ?r |- _ =>
           let y := fresh "y" in let Hy := fresh "Hy" in
           destruct (ratio_percent_float a b q r Hq Hr) as (y & -> & Hy);
           rewrite Hy; clear Hy; revert Hq Hr
       end.
  all: intros.
  all: split; [eexists; split; [reflexivity|];
               split; [|apply (str_percent_free (PyFloat _))];
               repeat (rewrite lookup_insert_ne by done);
               by rewrite lookup_insert_eq|].
  all: split.
  all: repeat (rewrite lookup_insert_ne by done).
  all: rewrite lookup_insert_eq.
  all: first
    [ exists "0.00"%string; split; [reflexivity|]; split; [|reflexivity];
      simpl; repeat (apply percent_free_cons; [done|]); apply percent_free_nil
    | eexists; split; [reflexivity|];
      split; [apply (str_percent_free (PyFloat _))|]; eauto 10 ].
Qed.

End SystemCacheFacts.

Section SystemCacheExamples.
Import PyFloat PyNum SystemDispatcher.

Example system_cache_sample :
  (_update_cache Samples.system_pool _setup_cache).1
  = list_to_map
      [("CPU%", "18.75%"); ("VM_AVAIL", "1B"); ("VM_TOTAL", "2B");
       ("VM_PERCENT", "50.0%"); ("BUFFERED", "4.0KiB"); ("SHARED", "0B");
       ("SWAP_AVAIL", "5B"); ("SWAP_TOTAL", "0B"); ("SWAP_PERCENT", "0.00%")]%string.
Proof. vm_compute. reflexivity. Qed.

Lemma system_percent_zero_total_witness :
  (_update_cache Samples.system_pool _setup_cache).2 = Ok ()
  ∧ ((_update_cache Samples.system_pool _setup_cache).1 !! "VM_PERCENT"%string
       = Some "0.00%"%string ↔ 2 = 0)
  ∧ ((_update_cache Samples.system_pool _setup_cache).1 !! "SWAP_PERCENT"%string
       = Some "0.00%"%string ↔ 0 = 0).
Proof.
  split; [vm_compute; reflexivity|].
  apply (system_percent_zero_total
           [of_ratio false 25 2; of_ratio false 25 1] 1 2 4096 0 5 0 _setup_cache).
  vm_compute. reflexivity.
Defined.

Lemma system_percentages_rounded_witness :
  (_update_cache Samples.system_pool _setup_cache).2 = Ok ()
  ∧ (∃ m, Statistics.mean (cached_cpu_percent Samples.system_pool) = Ok m
        ∧ (_update_cache Samples.system_pool _setup_cache).1 !! "CPU%"%string
          = Some (repr (round_ndigits 2 m) +:+ "%")
        ∧ percent_free (list_ascii_of_string (repr (round_ndigits 2 m))))
  ∧ (∃ t, (_update_cache Samples.system_pool _setup_cache).1 !! "VM_PERCENT"%string
          = Some (t +:+ "%")
          ∧ percent_free (list_ascii_of_string t)
          ∧ ∃ q y, truediv (PyInt 1) (PyInt 2) = Ok q
                   ∧ mul q (PyInt 100) = Ok (PyFloat y)
                   ∧ t = repr (round_ndigits 2 y))
  ∧ (∃ t, (_update_cache Samples.system_pool _setup_cache).1 !! "SWAP_PERCENT"%string
          = Some (t +:+ "%")
          ∧ percent_free (list_ascii_of_string t) ∧ t = "0.00"%string).
Proof.
  split; [vm_compute; reflexivity|].
  apply (system_percentages_rounded
           [of_ratio false 25 2; of_ratio false 25 1] 1 2 4096 0 5 0 _setup_cache).
  vm_compute. reflexivity.
Defined.

(** The format of the specification accepts "18.75%" and "0.00%", and
    rejects a text with one decimal or without the sign. *)
Example two_decimals_percent_sample :
  two_decimals_percent "18.75%" = true ∧ two_decimals_percent "0.00%" = true
  ∧ two_decimals_percent "-3.10%" = true ∧ two_decimals_percent "50.0%" = false
  ∧ two_decimals_percent "12.5" = false ∧ two_decimals_percent "12.50" = false.
Proof. repeat split; vm_compute; reflexivity. Qed.

(** C8 as stated fails.  With 1 byte of 2 in use the system cache holds
    "50.0%" for VM_PERCENT: the value is rounded to two decimals, its text
    has one.  With a process at 12.5% of a core the process cache holds
    "12.5" for CPU%: the text of the cached value, with no sign. *)
Lemma percentages_two_decimals_fail :
  let c := _update_cache Samples.system_pool _setup_cache in
  let w := exec (ProcessDispatcher._update_cache 0
                   (Samples.pass_view 5 (Ok []))) Samples.parent_world in
  c.2 = Ok ()
  ∧ c.1 !! "VM_PERCENT"%string = Some "50.0%"%string
  ∧ two_decimals_percent "50.0%" = false
  ∧ (ProcessDispatcher._update_cache 0
       (Samples.pass_view 5 (Ok [])) Samples.parent_world).2 = Ok ()
  ∧ _frontend_cache
      (default ProcessDispatcher.blank (objects w !! 0%nat)) !! "CPU%"%string
    = Some "12.5"%string
  ∧ two_decimals_percent "12.5" = false.
Proof. cbn zeta. repeat split; vm_compute; reflexivity. Qed.

End SystemCacheExamples.

(** ** Report jobs *)

Section ReportFacts.
Import Report.
Variable _R_FILE_DIR : string.
Variable renderer : Z → string * Z.
Variable ahead : nat.

Abbreviation run_thread := (thread_run _R_FILE_DIR renderer).

(** Distinct pids have distinct log files. *)
Lemma log_filename_inj p q b :
  log_filename (ReportThread p b) = log_filename (ReportThread q b) → p = q.
Proof.
  unfold log_filename; simpl.
  destruct (p =? 0) eqn:Hp, (q =? 0) eqn:Hq; intros H.
  - apply Z.eqb_eq in Hp, Hq. congruence.
  - exfalso. apply (inj (String.app b)) in H.
    change ("_report_system.log")%string with ("_report_syste" +:+ "m.log")%string in H.
    change ("_report_" +:+ pretty q +:+ "_.log")%string
      with (("_report_" +:+ pretty q) +:+ "_.log")%string in H.
    apply string_app_inj_suffix in H as [_ H]; [discriminate H | done].
  - exfalso. apply (inj (String.app b)) in H.
    change ("_report_system.log")%string with ("_report_syste" +:+ "m.log")%string in H.
    change ("_report_" +:+ pretty p +:+ "_.log")%string
      with (("_report_" +:+ pretty p) +:+ "_.log")%string in H.
    apply string_app_inj_suffix in H as [_ H]; [discriminate H | done].
  - apply (inj (String.app b)) in H.
    apply (inj (String.app "_report_")) in H.
    apply string_app_inj_suffix in H as [H _]; [|done].
    by apply (inj pretty) in H.
Qed.

(** What one job does: its log file is gone after exit code 0 and holds the
    renderer's output otherwise, where an error is logged; nothing else
    changes but the log and the list of finished jobs. *)
Lemma thread_run_spec t s :
  ∃ s', run_thread t s = (s', Ok ())
    ∧ sets s' = sets s ∧ queue s' = queue s ∧ running s' = running s
    ∧ finished s' = finished s ++ [this_pid t]
    ∧ (∀ path, path ≠ log_filename t → rfiles s' !! path = rfiles s !! path)
    ∧ rfiles s' !! log_filename t =
        (if (renderer (this_pid t)).2 =? 0 then None
         else Some (renderer (this_pid t)).1)
    ∧ (∀ e, e ∈ rlog s → e ∈ rlog s')
    ∧ ((renderer (this_pid t)).2 ≠ 0 →
       (ERROR, join " " (args _R_FILE_DIR t) +:+ " ERR") ∈ rlog s').
Proof.
  unfold thread_run, mbind, stmt_bind; simpl.
  destruct (renderer (this_pid t)) as [output retv]; simpl.
  destruct (retv =? 0) eqn:Hr; simpl; eexists; (split; [reflexivity|]); simpl;
    repeat split; try done.
  - intros path Hne. by rewrite lookup_delete_ne, !lookup_insert_ne.
  - by rewrite lookup_delete_eq.
  - intros e He. rewrite !elem_of_app. auto.
  - intros Hne. apply Z.eqb_eq in Hr. done.
  - intros path Hne. by rewrite !lookup_insert_ne.
  - by rewrite lookup_insert_eq.
  - intros e He. rewrite !elem_of_app. auto.
  - intros _. rewrite !elem_of_app. right. apply list_elem_of_singleton. done.
Qed.

(** A job on a thread of the pool does what [run] does. *)
Lemma pool_thread_run t s : pool_thread _R_FILE_DIR renderer t s = run_thread t s.
Proof.
  unfold pool_thread, try_except.
  destruct (thread_run_spec t s) as (s' & E & _). by rewrite E.
Qed.

(** The threads of the pool: every one of them runs to completion, whatever
    the exit codes of the others. *)
Lemma for_each_run_spec (l : list Z) b s :
  NoDup l →
  ∃ s', for_each ((λ p, ReportThread p b) <$> l)
          (pool_thread _R_FILE_DIR renderer) s = (s', Ok ())
    ∧ sets s' = sets s ∧ queue s' = queue s ∧ running s' = running s
    ∧ finished s' = finished s ++ l
    ∧ (∀ p, p ∈ l →
         rfiles s' !! log_filename (ReportThread p b) =
           (if (renderer p).2 =? 0 then None else Some (renderer p).1))
    ∧ (∀ path, (∀ p, p ∈ l → path ≠ log_filename (ReportThread p b)) →
         rfiles s' !! path = rfiles s !! path)
    ∧ (∀ e, e ∈ rlog s → e ∈ rlog s')
    ∧ (∀ p, p ∈ l → (renderer p).2 ≠ 0 →
         (ERROR, join " " (args _R_FILE_DIR (ReportThread p b)) +:+ " ERR") ∈ rlog s').
Proof.
  intros Hnd. revert s. induction Hnd as [|p l Hp Hnd IH]; intros s.
  - exists s. simpl. rewrite app_nil_r. repeat split; try done.
    + intros p Hp. by apply not_elem_of_nil in Hp.
    + intros p Hp. by apply not_elem_of_nil in Hp.
  - destruct (thread_run_spec (ReportThread p b) s)
      as (s1 & E1 & Hsets1 & Hq1 & Hrun1 & Hfin1 & Hother1 & Hown1 & Hlog1 & Herr1).
    destruct (IH s1)
      as (s2 & E2 & Hsets2 & Hq2 & Hrun2 & Hfin2 & Hown2 & Hother2 & Hlog2 & Herr2).
    exists s2. simpl in *. unfold mbind, stmt_bind.
    rewrite pool_thread_run, E1. simpl.
    split; [exact E2|]. repeat split.
    + congruence.
    + congruence.
    + congruence.
    + rewrite Hfin2, Hfin1, <- app_assoc. done.
    + intros q Hq. apply elem_of_cons in Hq as [-> | Hq]; [|by apply Hown2].
      rewrite Hother2; [exact Hown1|].
      intros q Hq Heq. apply log_filename_inj in Heq. by subst.
    + intros path Hpath. rewrite Hother2, Hother1; [done| |].
      * apply Hpath. by left.
      * intros q Hq. apply Hpath. by right.
    + auto.
    + intros q Hq Hne. apply elem_of_cons in Hq as [-> | Hq]; [|by eapply Herr2].
      apply Hlog2, Herr1. done.
Qed.

(** The first [n] running jobs complete and leave the running ones. *)
Lemma complete_spec n (l : list Z) b s :
  NoDup l → running s = (λ p, ReportThread p b) <$> l →
  ∃ s', complete _R_FILE_DIR renderer n s = (s', Ok ())
    ∧ sets s' = sets s ∧ queue s' = queue s
    ∧ running s' = (λ p, ReportThread p b) <$> drop n l
    ∧ finished s' = finished s ++ take n l
    ∧ (∀ p, p ∈ take n l →
         rfiles s' !! log_filename (ReportThread p b) =
           (if (renderer p).2 =? 0 then None else Some (renderer p).1))
    ∧ (∀ path, (∀ p, p ∈ take n l → path ≠ log_filename (ReportThread p b)) →
         rfiles s' !! path = rfiles s !! path)
    ∧ (∀ e, e ∈ rlog s → e ∈ rlog s')
    ∧ (∀ p, p ∈ take n l → (renderer p).2 ≠ 0 →
         (ERROR, join " " (args _R_FILE_DIR (ReportThread p b)) +:+ " ERR") ∈ rlog s').
Proof.
  intros Hnd Hrun.
  assert (Hnd' : NoDup (take n l)).
  { eapply sublist_NoDup; [exact Hnd|apply sublist_take]. }
  destruct (for_each_run_spec (take n l) b s Hnd')
    as (s1 & E1 & Hsets1 & Hq1 & Hrun1 & Hfin1 & Hown1 & Hother1 & Hlog1 & Herr1).
  exists (set_running (drop n) s1).
  unfold complete, get, modify, mbind, stmt_bind.
  rewrite Hrun, <- fmap_take, E1. cbn.
  split; [done|]. rewrite Hrun1, Hrun, fmap_drop. done.
Qed.

Lemma for_each_append_spec (l : list Z) b s :
  for_each l (λ p, queue_append (ReportThread p b)) s
  = (set_queue (λ q, q ++ ((λ p, ReportThread p b) <$> l)) s, Ok ()).
Proof.
  revert s. induction l as [|p l IH]; intros s.
  - simpl. unfold mret, stmt_ret, set_queue. rewrite app_nil_r. by destruct s.
  - simpl. unfold mbind, stmt_bind. simpl. rewrite IH.
    unfold set_queue; simpl. by rewrite <- app_assoc.
Qed.

(** [start]: the queued jobs are started and the first [ahead] of them
    complete. *)
Lemma queue_start_spec (l : list Z) b s :
  NoDup l → queue s = (λ p, ReportThread p b) <$> l →
  ∃ s', queue_start _R_FILE_DIR renderer ahead s = (s', Ok ())
    ∧ sets s' = sets s ∧ queue s' = queue s
    ∧ running s' = (λ p, ReportThread p b) <$> drop ahead l
    ∧ finished s' = finished s ++ take ahead l
    ∧ (∀ p, p ∈ take ahead l →
         rfiles s' !! log_filename (ReportThread p b) =
           (if (renderer p).2 =? 0 then None else Some (renderer p).1))
    ∧ (∀ e, e ∈ rlog s → e ∈ rlog s')
    ∧ (∀ p, p ∈ take ahead l → (renderer p).2 ≠ 0 →
         (ERROR, join " " (args _R_FILE_DIR (ReportThread p b)) +:+ " ERR") ∈ rlog s').
Proof.
  intros Hnd Hq.
  destruct (complete_spec ahead l b (set_running (λ _, queue s) s) Hnd Hq)
    as (s' & E & Hsets & Hq' & Hrun & Hfin & Hown & _ & Hlog & Herr).
  exists s'. split; [|done].
  exact E.
Qed.

(** [join]: every job that is still running completes. *)
Lemma queue_join_spec (l : list Z) b s :
  NoDup l → running s = (λ p, ReportThread p b) <$> l →
  ∃ s', queue_join _R_FILE_DIR renderer s = (s', Ok ())
    ∧ sets s' = sets s ∧ queue s' = queue s
    ∧ running s' = []
    ∧ finished s' = finished s ++ l
    ∧ (∀ p, p ∈ l →
         rfiles s' !! log_filename (ReportThread p b) =
           (if (renderer p).2 =? 0 then None else Some (renderer p).1))
    ∧ (∀ path, (∀ p, p ∈ l → path ≠ log_filename (ReportThread p b)) →
         rfiles s' !! path = rfiles s !! path)
    ∧ (∀ e, e ∈ rlog s → e ∈ rlog s')
    ∧ (∀ p, p ∈ l → (renderer p).2 ≠ 0 →
         (ERROR, join " " (args _R_FILE_DIR (ReportThread p b)) +:+ " ERR") ∈ rlog s').
Proof.
  intros Hnd Hrun.
  destruct (complete_spec (length (running s)) l b s Hnd Hrun)
    as (s' & E & Hsets & Hq' & Hrun' & Hfin & Hown & Hother & Hlog & Herr).
  assert (Hlen : length (running s) = length l) by (by rewrite Hrun, length_fmap).
  rewrite Hlen, firstn_all in Hfin, Hown, Hother, Herr.
  rewrite Hlen, drop_all in Hrun'.
  exists s'. split; [|done].
  exact E.
Qed.

(** [make_all_report], once unfolded: zero joins the caller's set, one job
    per element of the set is queued, [start] lets some of them complete and
    [join] the others. *)
Lemma make_all_report_spec all_pids b s S0 :
  sets s !! all_pids = Some S0 →
  let l := elements ({[0]} ∪ S0) in
  ∃ s', make_all_report _R_FILE_DIR renderer ahead all_pids b s = (s', Ok ())
    ∧ sets s' = <[all_pids:={[0]} ∪ S0]> (sets s)
    ∧ queue s' = (λ p, ReportThread p b) <$> l
    ∧ running s' = []
    ∧ finished s' = finished s ++ l
    ∧ (∀ p, p ∈ l →
         rfiles s' !! log_filename (ReportThread p b) =
           (if (renderer p).2 =? 0 then None else Some (renderer p).1))
    ∧ (∀ p, p ∈ l → (renderer p).2 ≠ 0 →
         (ERROR, join " " (args _R_FILE_DIR (ReportThread p b)) +:+ " ERR") ∈ rlog s').
Proof.
  intros Hs l.
  assert (Hnd : NoDup l) by apply NoDup_elements.
  unfold make_all_report, ParallelJobQueue.
  unfold mbind, stmt_bind, modify, get. simpl.
  assert (Hl : default ∅ (alter (λ s0, {[0]} ∪ s0) all_pids (sets s) !! all_pids)
               = {[0]} ∪ S0).
  { rewrite lookup_alter_eq, Hs. done. }
  rewrite Hl. fold l. rewrite for_each_append_spec.
  set (s1 := set_queue _ _).
  assert (Hq1 : queue s1 = (λ p, ReportThread p b) <$> l) by done.
  destruct (queue_start_spec l b s1 Hnd Hq1)
    as (s2 & E2 & Hsets2 & Hq2 & Hrun2 & Hfin2 & Hown2 & Hlog2 & Herr2).
  assert (Hnd2 : NoDup (drop ahead l)).
  { eapply sublist_NoDup; [exact Hnd|apply sublist_drop]. }
  destruct (queue_join_spec (drop ahead l) b s2 Hnd2 Hrun2)
    as (s3 & E3 & Hsets3 & Hq3 & Hrun3 & Hfin3 & Hown3 & Hother3 & Hlog3 & Herr3).
  rewrite E2, E3. simpl.
  assert (Hsplit : ∀ p, p ∈ l → p ∈ take ahead l ∨ p ∈ drop ahead l).
  { intros p Hp. rewrite <- (take_drop ahead l) in Hp.
    by apply elem_of_app in Hp. }
  assert (Hdisj : ∀ p q, p ∈ take ahead l → q ∈ drop ahead l → p ≠ q).
  { intros p q Hp Hq ->. rewrite <- (take_drop ahead l) in Hnd.
    apply NoDup_app in Hnd as (_ & Hno & _). by apply (Hno q). }
  eexists. split; [reflexivity|]. simpl. repeat split.
  - rewrite Hsets3, Hsets2. subst s1. simpl.
    apply map_eq. intros i. destruct (decide (i = all_pids)) as [->|Hne].
    + by rewrite lookup_alter_eq, lookup_insert_eq, Hs.
    + by rewrite lookup_alter_ne, lookup_insert_ne.
  - rewrite Hq3, Hq2. done.
  - exact Hrun3.
  - rewrite Hfin3, Hfin2, <- app_assoc, take_drop. done.
  - intros p Hp. destruct (Hsplit p Hp) as [Hin|Hin]; [|by apply Hown3].
    rewrite Hother3; [by apply Hown2|].
    intros q Hq Heq. apply log_filename_inj in Heq. by apply (Hdisj p q).
  - intros p Hp Hne. rewrite elem_of_app. left.
    destruct (Hsplit p Hp) as [Hin|Hin]; [|by apply Herr3].
    by apply Hlog3, Herr2.
Qed.

(** C9: whatever the schedule of the pool, [make_all_report] returns, having
    queued exactly one job per entity id of the caller's set and one for the
    system entity 0; when it returns no job is still running and every
    queued job has finished; the log file of a job is removed when its
    renderer exits with 0, and otherwise it is kept, with the renderer's
    output, and an error is logged, whatever the other jobs did. *)
Theorem make_all_report_jobs all_pids b s S0 :
  sets s !! all_pids = Some S0 →
  ∃ s', make_all_report _R_FILE_DIR renderer ahead all_pids b s = (s', Ok ())
    ∧ let jobs := this_pid <$> queue s' in
      NoDup jobs
      ∧ (∀ p, p ∈ jobs ↔ p = 0 ∨ p ∈ S0)
      ∧ Forall (λ t, report_basename t = b) (queue s')
      ∧ running s' = []
      ∧ finished s' = finished s ++ jobs
      ∧ (∀ p, p ∈ jobs →
           rfiles s' !! log_filename (ReportThread p b) =
             (if (renderer p).2 =? 0 then None else Some (renderer p).1))
      ∧ (∀ p, p ∈ jobs → (renderer p).2 ≠ 0 →
           (ERROR, join " " (args _R_FILE_DIR (ReportThread p b)) +:+ " ERR")
             ∈ rlog s').
Proof.
  intros Hs.
  destruct (make_all_report_spec all_pids b s S0 Hs)
    as (s' & E & Hsets & Hq & Hrun & Hfin & Hown & Herr).
  exists s'. split; [exact E|]. cbn zeta.
  assert (Hjobs : this_pid <$> queue s' = elements ({[0]} ∪ S0)).
  { rewrite Hq, <- list_fmap_compose. apply list_fmap_id. }
  rewrite Hjobs. repeat split.
  - apply NoDup_elements.
  - rewrite elem_of_elements. set_solver.
  - rewrite elem_of_elements. set_solver.
  - rewrite Hq. apply Forall_fmap, Forall_forall. done.
  - exact Hrun.
  - exact Hfin.
  - exact Hown.
  - exact Herr.
Qed.

(** C10: after [make_all_report] the caller's set holds the system id 0 and
    the elements it had, nothing else, and no other set has changed. *)
Theorem make_all_report_mutates_all_pids all_pids b s S0 :
  sets s !! all_pids = Some S0 →
  let s' := (make_all_report _R_FILE_DIR renderer ahead all_pids b s).1 in
  ∃ S1, sets s' !! all_pids = Some S1
    ∧ (∀ x, x ∈ S1 ↔ x = 0 ∨ x ∈ S0)
    ∧ (∀ other, other ≠ all_pids → sets s' !! other = sets s !! other).
Proof.
  intros Hs.
  destruct (make_all_report_spec all_pids b s S0 Hs)
    as (s' & E & Hsets & _).
  rewrite E. simpl. exists ({[0]} ∪ S0). rewrite Hsets. repeat split.
  - apply lookup_insert_eq.
  - set_solver.
  - set_solver.
  - intros other Hne. by rewrite lookup_insert_ne.
Qed.

End ReportFacts.

Section ReportExamples.
Import Report.

(** With a scheduler that lets one job complete before [start] returns,
    the two other jobs are still running then; [join] is what completes
    them. *)
Example start_leaves_jobs_running :
  let queued :=
    for_each [0; 10; 20] (λ p, queue_append (ReportThread p "out")) in
  let s1 := ((queued;; queue_start "R" Samples.renderer 1) Samples.report_state).1 in
  let s2 := ((queued;; queue_start "R" Samples.renderer 1;;
              queue_join "R" Samples.renderer) Samples.report_state).1 in
  this_pid <$> running s1 = [10; 20] ∧ finished s1 = [0]
  ∧ running s2 = [] ∧ finished s2 = [0; 10; 20].
Proof. vm_compute. done. Qed.

Lemma make_all_report_jobs_witness :
  sets Samples.report_state !! 5%nat = Some {[10; 20]}
  ∧ ∃ s', make_all_report "R" Samples.renderer 1 5%nat "out" Samples.report_state
          = (s', Ok ())
    ∧ let jobs := this_pid <$> queue s' in
      NoDup jobs
      ∧ (∀ p, p ∈ jobs ↔ p = 0 ∨ p ∈ ({[10; 20]} : gset Z))
      ∧ Forall (λ t, report_basename t = "out"%string) (queue s')
      ∧ running s' = []
      ∧ finished s' = finished Samples.report_state ++ jobs
      ∧ (∀ p, p ∈ jobs →
           rfiles s' !! log_filename (ReportThread p "out") =
             (if (Samples.renderer p).2 =? 0 then None else Some (Samples.renderer p).1))
      ∧ (∀ p, p ∈ jobs → (Samples.renderer p).2 ≠ 0 →
           (ERROR, join " " (args "R" (ReportThread p "out")) +:+ " ERR")
             ∈ rlog s').
Proof.
  split; [reflexivity|].
  apply (make_all_report_jobs "R" Samples.renderer 1 5%nat "out"
           Samples.report_state {[10; 20]}).
  reflexivity.
Defined.

Lemma make_all_report_mutates_all_pids_witness :
  sets Samples.report_state !! 5%nat = Some {[10; 20]}
  ∧ let s' := (make_all_report "R" Samples.renderer 1 5%nat "out"
                 Samples.report_state).1 in
    ∃ S1, sets s' !! 5%nat = Some S1
      ∧ (∀ x, x ∈ S1 ↔ x = 0 ∨ x ∈ ({[10; 20]} : gset Z))
      ∧ (∀ other, other ≠ 5%nat → sets s' !! other = sets Samples.report_state !! other).
Proof.
  split; [reflexivity|].
  apply (make_all_report_mutates_all_pids "R" Samples.renderer 1 5%nat "out"
           Samples.report_state {[10; 20]}).
  reflexivity.
Defined.

End ReportExamples.

(** ** Statements and the relations they respect *)

Section StatementFacts.
Context {S : Type}.

Lemma bind_ok {A B} (m : stmt S A) (k : A → stmt S B) s s' a :
  m s = (s', Ok a) → (m ≫= k) s = k a s'.
Proof. intros H. unfold mbind, stmt_bind. by rewrite H. Qed.

Lemma bind_raise {A B} (m : stmt S A) (k : A → stmt S B) s s' e :
  m s = (s', Raise e) → (m ≫= k) s = (s', Raise e).
Proof. intros H. unfold mbind, stmt_bind. by rewrite H. Qed.

Section Respects.
Context (R : S → S → Prop) `{!PreOrder R}.

Lemma respects_ret {A} (a : A) : respects R (mret a : stmt S A).
Proof. intros s. reflexivity. Qed.

Lemma respects_lift {A} (r : result A) : respects R (lift r : stmt S A).
Proof. intros s. reflexivity. Qed.

Lemma respects_get : respects R (get : stmt S S).
Proof. intros s. reflexivity. Qed.

Lemma respects_bind {A B} (m : stmt S A) (k : A → stmt S B) :
  respects R m → (∀ a, respects R (k a)) → respects R (m ≫= k).
Proof.
  intros Hm Hk s. unfold exec. specialize (Hm s). unfold exec in Hm.
  destruct (m s) as [s' [a|e]] eqn:E.
  - erewrite bind_ok by done. etrans; [exact Hm|]. apply Hk.
  - erewrite bind_raise by done. exact Hm.
Qed.

Lemma respects_try_except {A} (body : stmt S A) cls handler :
  respects R body → (∀ e, respects R (handler e)) →
  respects R (try_except body cls handler).
Proof.
  intros Hb Hh s. unfold exec, try_except. specialize (Hb s). unfold exec in Hb.
  destruct (body s) as [s' [a|e]]; [done|].
  destruct (cls e); [|done]. etrans; [exact Hb|]. apply Hh.
Qed.

Lemma respects_for_each {A} (xs : list A) (body : A → stmt S unit) :
  (∀ x, respects R (body x)) → respects R (for_each xs body).
Proof.
  intros Hb. induction xs as [|x xs IH]; simpl.
  - apply respects_ret.
  - apply respects_bind; [apply Hb | intros _; apply IH].
Qed.

Lemma respects_modify (f : S → S) :
  (∀ s, R s (f s)) → respects R (modify f).
Proof. intros Hf s. apply Hf. Qed.

End Respects.

Lemma respects_weaken {A} (R R' : S → S → Prop) (m : stmt S A) :
  (∀ s s', R s s' → R' s s') → respects R m → respects R' m.
Proof. intros HR Hm s. apply HR, Hm. Qed.

Lemma returns_ret {A} (a : A) : returns a (mret a : stmt S A).
Proof. intros s. by left. Qed.

Lemma returns_bind {A B} (b : B) (m : stmt S A) (k : A → stmt S B) :
  (∀ a, returns b (k a)) → returns b (m ≫= k).
Proof.
  intros Hk s. destruct (m s) as [s' [a|e]] eqn:E.
  - erewrite bind_ok by done. apply Hk.
  - erewrite bind_raise by done. right. by exists e.
Qed.

Lemma total_ret {A} (a : A) : total (mret a : stmt S A).
Proof. intros s. by exists a. Qed.

Lemma total_modify (f : S → S) : total (modify f).
Proof. intros s. by exists (). Qed.

Lemma total_bind {A B} (m : stmt S A) (k : A → stmt S B) :
  total m → (∀ a, total (k a)) → total (m ≫= k).
Proof.
  intros Hm Hk s. destruct (Hm s) as [a Ha].
  destruct (m s) as [s' r] eqn:E. simpl in Ha. subst r.
  erewrite bind_ok by done. apply Hk.
Qed.

End StatementFacts.


(** ** Frames of the dispatcher methods *)

Ltac respects_step :=
  first
    [ apply respects_ret; apply _
    | apply respects_lift; apply _
    | apply respects_bind; [apply _| |intros ?]
    | apply respects_try_except; [apply _| |intros ?]
    | apply respects_for_each; [apply _|intros ?]
    | apply respects_modify; intros ?;
        first [apply frame_log | apply frame_files | apply frame_all_pids
              | apply frame_update; done]
    | progress cbn beta zeta
    | match goal with
      | |- respects _ (let '(_, _) := ?x in _) => destruct x
      | |- respects _ (if ?b then _ else _) => destruct b
      end ].

Section DispatcherFrames.
Import PyNum HumanReadable DispatcherController ProcessDispatcher.

Global Instance same_core_preorder : PreOrder same_core.
Proof.
  split.
  - intros w. unfold same_core. auto.
  - intros w1 w2 w3 (H1 & H2 & H3) (H4 & H5 & H6).
    split; [congruence|]. split; [congruence|].
    intros t. by rewrite H6, H3.
Qed.

Global Instance same_core_frame t : Frame same_core t.
Proof.
  split; [apply _|done|done|done|].
  intros f w Hf. repeat split; try done.
  intros t'. unfold key; simpl. destruct (decide (t' = t)) as [->|Hne].
  - rewrite lookup_alter_eq. destruct (objects w !! t) as [d|]; [|done].
    simpl. by destruct (Hf d) as [-> ->].
  - by rewrite lookup_alter_ne.
Qed.

Global Instance keeps_preorder self : PreOrder (keeps self).
Proof.
  split.
  - intros w Hlt. split; [done|]. intros d Hd. by exists d.
  - intros w1 w2 w3 H12 H23 Hlt.
    destruct (H12 Hlt) as [Hlt2 H2]. destruct (H23 Hlt2) as [Hlt3 H3].
    split; [done|]. intros d Hd.
    destruct (H2 d Hd) as (d2 & Hd2 & ? & ? & ? & ? & ?).
    destruct (H3 d2 Hd2) as (d3 & Hd3 & ? & ? & ? & ? & ?).
    exists d3. repeat split; congruence.
Qed.

(** Whatever is done to another object leaves [self] alone. *)
Lemma keeps_update_other self t f w :
  t ≠ self → keeps self w (set_objects (alter f t) w).
Proof.
  intros Hne Hlt. split; [done|]. intros d Hd. exists d.
  simpl. by rewrite lookup_alter_ne.
Qed.

Lemma keeps_update_harmless self t f w :
  harmless f → keeps self w (set_objects (alter f t) w).
Proof.
  intros Hf Hlt. split; [done|]. intros d Hd. simpl.
  destruct (decide (t = self)) as [->|Hne].
  - exists (f d). rewrite lookup_alter_eq, Hd. split; [done|]. apply Hf.
  - exists d. by rewrite lookup_alter_ne.
Qed.

Lemma keeps_frame_other self t : t ≠ self → Frame (keeps self) t.
Proof.
  intros Hne. split; [apply _| | | |].
  - intros f w Hlt. split; [done|]. intros d Hd. by exists d.
  - intros f w Hlt. split; [done|]. intros d Hd. by exists d.
  - intros f w Hlt. split; [done|]. intros d Hd. by exists d.
  - intros f w _. by apply keeps_update_other.
Qed.

Section Methods.
Context (R : world → world → Prop) (t : nat) `{!Frame R t}.

Lemma getattr_respects self : respects R (getattr self).
Proof. intros w. reflexivity. Qed.

Lemma active_pids_respects : respects R get_current_active_pids.
Proof. intros w. reflexivity. Qed.

Lemma logging_respects l msg : respects R (logging l msg).
Proof. intros w. apply frame_log. Qed.

Lemma open_w_respects path : respects R (open_w path).
Proof. intros w. apply frame_files. Qed.

Lemma open_a_respects path : respects R (open_a path).
Proof. intros w. apply frame_files. Qed.

Lemma write_respects path text : respects R (write path text).
Proof. intros w. apply frame_files. Qed.

Lemma update_respects f : key_safe f → respects R (update t f).
Proof. intros Hf w. by apply frame_update. Qed.

Lemma setitem_respects k v : respects R (setitem t k v).
Proof. by apply update_respects. Qed.

Lemma tracee_error_respects self e : respects R (tracee_error self e).
Proof.
  apply respects_bind; [apply _ | apply getattr_respects |].
  intros d. apply logging_respects.
Qed.

Lemma _setup_cache_respects pv : respects R (_setup_cache t pv).
Proof.
  unfold _setup_cache.
  repeat first [apply getattr_respects | apply setitem_respects
               | apply update_respects; done | respects_step].
Qed.

Lemma _write_registry_respects pv : respects R (_write_registry t pv).
Proof.
  unfold _write_registry.
  repeat first [apply getattr_respects | apply tracee_error_respects
               | apply open_a_respects | apply write_respects | respects_step].
Qed.

Lemma _write_env_respects pv : respects R (_write_env t pv).
Proof.
  unfold _write_env.
  repeat first [apply getattr_respects | apply tracee_error_respects
               | apply open_w_respects | apply write_respects | respects_step].
Qed.

Lemma _write_mapfile_respects pv : respects R (_write_mapfile t pv).
Proof.
  unfold _write_mapfile.
  repeat first [apply getattr_respects | apply tracee_error_respects
               | apply open_w_respects | apply write_respects | respects_step].
Qed.

Lemma start_tracers_respects : respects R (start_tracers t).
Proof.
  unfold start_tracers.
  repeat first [apply getattr_respects | apply update_respects; done
               | respects_step].
Qed.

Lemma append_threadpool_respects name : respects R (append_threadpool t name).
Proof. by apply update_respects. Qed.

End Methods.

(** The constructor, unfolded: a new object, the registration, which fails
    on a registered pid, two assignments, and a rest that leaves alone
    whatever tolerates updates of the new object. *)
Lemma init_unfold pid b lt pv :
  ∃ rest : nat → stmt world nat,
    (∀ R self, Frame R self → respects R (rest self))
    ∧ (∀ self, returns self (rest self))
    ∧ ∀ w,
        __init__ pid b lt pv w =
          let self := next_id w in
          let w0 := set_next_id S
            (set_objects
               <[self:=Dispatcher 0 b false [] ∅ [] (PyInt 0) ∅ false]> w) in
          if decide (pid ∈ dom (_DISPATCHERS w)) then
            (w0, Raise DuplicateEntityError)
          else
            rest self
              (set_objects (alter (set_trace_pid pid) self)
                 (set_objects
                    (alter (set_loaded_tracers (default default_tracers lt)) self)
                    (set_DISPATCHERS <[pid:=self]> w0))).
Proof.
  exists (λ self,
    try_except
      (lift (pv_Process pv);; _setup_cache self pv)
      PSUTIL_NOTFOUND_ERRORS
      (λ e, tracee_error self e;; lift (Raise e));;
    modify (set_ALL_PIDS (λ s, {[pid]} ∪ s));;
    _write_registry self pv;;
    _write_env self pv;;
    _write_mapfile self pv;;
    update self (set_tracer_kwargs <["trace_pid"%string:=pid]>);;
    start_tracers self;;
    mret self).
  split; [|split].
  - intros R self HF.
    repeat first
      [ apply (_setup_cache_respects R self) | apply (_write_registry_respects R self)
      | apply (_write_env_respects R self) | apply (_write_mapfile_respects R self)
      | apply (start_tracers_respects R self) | apply (tracee_error_respects R self)
      | apply (update_respects R self); done | respects_step ].
  - intros self. repeat (apply returns_bind; intros ?). apply returns_ret.
  - intros w. unfold __init__, Base__init__, register_dispatcher.
    unfold mbind at 1 2. unfold stmt_bind at 1 2. cbn beta iota zeta.
    cbn [_DISPATCHERS set_next_id set_objects].
    destruct (decide (pid ∈ dom (_DISPATCHERS w))); reflexivity.
Qed.


End DispatcherFrames.


(** ** Attaching a process *)

Section AttachFacts.
Import PyNum HumanReadable DispatcherController ProcessDispatcher.

Lemma key_Some w t p a :
  key w t = Some (p, a) ↔
  ∃ d, objects w !! t = Some d ∧ trace_pid d = p ∧ alive d = a.
Proof.
  unfold key. destruct (objects w !! t) as [d|]; simpl; split.
  - intros [= <- <-]. by exists d.
  - intros (d' & [= <-] & <- & <-). done.
  - done.
  - by intros (d' & ? & _).
Qed.

Lemma key_is_Some w t : is_Some (key w t) ↔ is_Some (objects w !! t).
Proof. unfold key. by rewrite fmap_is_Some. Qed.

Lemma key_object w t d :
  objects w !! t = Some d → key w t = Some (trace_pid d, alive d).
Proof. unfold key. by intros ->. Qed.

Lemma key_alter f t w t' :
  key (set_objects (alter f t) w) t' =
    if decide (t' = t) then
      (λ d, (trace_pid (f d), alive (f d))) <$> objects w !! t
    else key w t'.
Proof.
  unfold key; simpl. case_decide as Ht.
  - subst. rewrite lookup_alter_eq. by destruct (objects w !! t).
  - by rewrite lookup_alter_ne.
Qed.

Lemma key_insert d t w t' :
  key (set_objects <[t:=d]> w) t' =
    if decide (t' = t) then Some (trace_pid d, alive d) else key w t'.
Proof.
  unfold key; simpl. case_decide as Ht.
  - subst. by rewrite lookup_insert_eq.
  - by rewrite lookup_insert_ne.
Qed.

Lemma same_core_well_formed w w' :
  same_core w w' → well_formed w → well_formed w'.
Proof.
  intros (_ & Hn & Hk) Hwf t Ht. rewrite Hn. apply Hwf.
  apply key_is_Some. rewrite <- Hk. by apply key_is_Some.
Qed.

Lemma extends_of_same_core w w' : same_core w w' → extends w w'.
Proof.
  intros Hs Hwf. pose proof (same_core_well_formed _ _ Hs Hwf) as Hwf'.
  destruct Hs as (Hr & Hn & Hk).
  split; [done|]. split; [lia|]. split; [by rewrite Hr|]. split; [by intros|].
  intros t d Hle Hd _. exfalso.
  assert (Ht : is_Some (objects w !! t)).
  { apply key_is_Some. rewrite <- Hk. apply key_is_Some. by rewrite Hd. }
  apply Hwf in Ht. lia.
Qed.

Global Instance extends_preorder : PreOrder extends.
Proof.
  split.
  - intros w. by apply extends_of_same_core.
  - intros w1 w2 w3 H12 H23 Hwf.
    destruct (H12 Hwf) as (Hwf2 & Hn12 & Hr12 & Hk12 & Hnew12).
    destruct (H23 Hwf2) as (Hwf3 & Hn23 & Hr23 & Hk23 & Hnew23).
    split; [done|]. split; [lia|]. split; [by auto|].
    split; [intros t Ht; rewrite Hk23, Hk12 by lia; done|].
    intros t d Hle Hd Ha.
    destruct (decide (t < next_id w2)%nat) as [Hlt|Hge].
    + assert (Hk : key w2 t = Some (trace_pid d, alive d)).
      { rewrite <- Hk23 by done. by apply key_object. }
      rewrite Ha in Hk. apply key_Some in Hk as (d2 & Hd2 & Hp & Ha2).
      destruct (Hnew12 t d2 Hle Hd2 Ha2) as [Hnone Hsome].
      rewrite Hp in Hnone, Hsome. split; [done|]. by apply Hr23.
    + destruct (Hnew23 t d ltac:(lia) Hd Ha) as [Hnone Hsome].
      split; [|done].
      destruct (_DISPATCHERS w1 !! trace_pid d) as [x|] eqn:Hx; [|done].
      apply Hr12 in Hx. congruence.
Qed.

Global Instance extends_frame t : Frame extends t.
Proof.
  split; [apply _| | | |]; intros f w; intros; apply extends_of_same_core.
  - apply (frame_log (R := same_core) (t := t)).
  - apply (frame_files (R := same_core) (t := t)).
  - apply (frame_all_pids (R := same_core) (t := t)).
  - by apply (frame_update (R := same_core) (t := t)).
Qed.

(** Constructing a dispatcher and starting it extends the world. *)
Lemma attach_extends pid b lt pv :
  respects extends (new_thread ← __init__ pid b lt pv; start new_thread).
Proof.
  intros w. unfold exec.
  destruct (init_unfold pid b lt pv) as (rest & Hrest & Hret & Heq).
  specialize (Heq w). cbn zeta in Heq.
  set (self := next_id w) in *.
  destruct (decide (pid ∈ dom (_DISPATCHERS w))) as [Hin|Hnin].
  { erewrite bind_raise by exact Heq. simpl. intros Hwf.
    split.
    { intros t Ht. simpl in *. destruct (decide (t = self)) as [->|Hne]; [lia|].
      rewrite lookup_insert_ne in Ht by done. apply Hwf in Ht. lia. }
    split; [simpl; lia|]. split; [done|]. split.
    { intros t Ht. unfold key; simpl. rewrite lookup_insert_ne by (unfold self; lia). done. }
    intros t d Hle Hd Ha. simpl in Hd. exfalso.
    destruct (decide (t = self)) as [->|Hne].
    - rewrite lookup_insert_eq in Hd. by inversion Hd; subst.
    - rewrite lookup_insert_ne in Hd by done.
      assert (Ht : is_Some (objects w !! t)) by (by rewrite Hd).
      apply Hwf in Ht. lia. }
  set (w3 := set_objects _ _) in Heq.
  pose proof (Hrest same_core self _ w3) as Hsame. unfold exec in Hsame.
  pose proof (Hret self w3) as Hr.
  destruct (rest self w3) as [w4 r] eqn:E4. simpl in Hsame, Hr.
  destruct Hsame as (Hreg & Hnext & Hkey).
  assert (Hreg4 : _DISPATCHERS w4 = <[pid:=self]> (_DISPATCHERS w)) by (by rewrite Hreg).
  assert (Hnext4 : next_id w4 = S self) by (by rewrite Hnext).
  assert (Hkey4 : ∀ t, key w4 t = if decide (t = self) then Some (pid, false) else key w t).
  { intros t. rewrite Hkey. subst w3. rewrite !key_alter.
    case_decide as Ht.
    - subst t. simpl. rewrite lookup_alter_eq. simpl. by rewrite lookup_insert_eq.
    - unfold key; simpl. by rewrite lookup_insert_ne. }
  assert (Hfinal : ∃ wf a,
    (__init__ pid b lt pv ≫= λ new_thread, start new_thread) w = (wf, a)
    ∧ _DISPATCHERS wf = <[pid:=self]> (_DISPATCHERS w)
    ∧ next_id wf = S self
    ∧ ∀ t, key wf t = if decide (t = self) then Some (pid, match a with Ok _ => true | Raise _ => false end)
                       else key w t).
  { destruct Hr as [-> | [e ->]].
    - erewrite bind_ok by exact Heq. eexists _, _. split; [reflexivity|].
      split; [done|]. split; [done|]. intros t. rewrite key_alter.
      specialize (Hkey4 t). destruct (decide (t = self)) as [->|Ht]; [|done].
      apply key_Some in Hkey4 as (d & -> & Hp & Ha). simpl. by rewrite Hp.
    - erewrite bind_raise by exact Heq. eexists _, _. split; [reflexivity|].
      split; [done|]. split; [done|]. exact Hkey4. }
  destruct Hfinal as (wf & a & -> & Hregf & Hnextf & Hkeyf). simpl.
  intros Hwf. split.
  { intros t Ht. rewrite Hnextf. apply key_is_Some in Ht. rewrite Hkeyf in Ht.
    case_decide; [lia|]. apply key_is_Some, Hwf in Ht. fold self in Ht. lia. }
  split; [lia|]. split.
  { intros p t Hp. rewrite Hregf. rewrite lookup_insert_ne; [done|].
    intros <-. apply Hnin. apply elem_of_dom. by rewrite Hp. }
  split.
  { intros t Ht. rewrite Hkeyf. rewrite decide_False by (unfold self; lia). done. }
  intros t d Hle Hd Ha.
  pose proof (key_object _ _ _ Hd) as Hk. rewrite Hkeyf in Hk.
  case_decide as Ht.
  - subst t. injection Hk as <- _. split.
    + by apply not_elem_of_dom.
    + rewrite Hregf. apply lookup_insert_eq.
  - exfalso. apply key_Some in Hk as (d' & Hd' & _).
    assert (Hs : is_Some (objects w !! t)) by (by rewrite Hd').
    apply Hwf in Hs. fold self in Hle. lia.
Qed.

End AttachFacts.


(** ** The supervision loop *)

Section LoopFacts.
Import PyNum HumanReadable DispatcherController ProcessDispatcher.

Lemma respects_ext {S A} (R : S → S → Prop) (m m' : stmt S A) :
  (∀ s, m s = m' s) → respects R m → respects R m'.
Proof. intros He Hm s. unfold exec. rewrite <- He. apply Hm. Qed.

Lemma bind_assoc {S A B C} (m : stmt S A) (k : A → stmt S B) (h : B → stmt S C) s :
  ((m ≫= k) ≫= h) s = (m ≫= λ a, k a ≫= h) s.
Proof.
  unfold mbind, stmt_bind. destruct (m s) as [s' [a|e]]; [|done].
  by destruct (k a s') as [s'' [b|e]].
Qed.

Lemma _update_cache_respects R self cv `{!Frame R self} :
  respects R (_update_cache self cv).
Proof.
  unfold _update_cache.
  repeat first
    [ apply (getattr_respects R self) | apply (setitem_respects R self)
    | apply (update_respects R self); done | respects_step ].
Qed.

Section Scan.
Context (R : world → world → Prop) (self t0 : nat) `{!Frame R t0}.
Context (Hattach : ∀ pid b lt pv,
           respects R (new_thread ← __init__ pid b lt pv; start new_thread)).
Context (Happend : ∀ name, respects R (append_threadpool self name)).

Lemma _detect_process_respects cv : respects R (_detect_process self cv).
Proof.
  unfold _detect_process.
  apply respects_try_except; [apply _| |].
  - apply respects_bind; [apply _|apply respects_lift; apply _|].
    intros children. apply respects_for_each; [apply _|].
    intros [pid pv].
    apply respects_bind; [apply _|apply (active_pids_respects R t0)|].
    intros active. case_decide; [|apply respects_ret; apply _].
    apply respects_bind; [apply _|apply (logging_respects R t0)|]. intros _.
    apply respects_bind; [apply _|apply (getattr_respects R t0)|]. intros d.
    eapply respects_ext; [intros s; apply bind_assoc|].
    apply respects_bind; [apply _|apply Hattach|]. intros _. apply Happend.
  - intros e. apply respects_bind; [apply _|apply (tracee_error_respects R t0)|].
    intros _. apply respects_lift; apply _.
Qed.

End Scan.

Lemma _detect_process_extends self cv : respects extends (_detect_process self cv).
Proof.
  apply (_detect_process_respects extends self self).
  - apply attach_extends.
  - intros name. apply (append_threadpool_respects extends self).
Qed.

(** [sigterm] never raises. *)
Lemma sigterm_total self : total (sigterm self).
Proof.
  unfold sigterm, before_ending, update, open_w, write, remove_dispatcher.
  repeat first [apply total_modify | apply total_ret
               | apply total_bind; [|intros ?]].
Qed.

(** One pass of the loop, case by case. *)
Lemma run_body_pass_shape self cv w :
  if should_exit (default blank (objects w !! self)) then
    run_body_pass self cv w = (exec (sigterm self) w, Ok Finished)
  else
    let w1 := exec (_update_cache self cv) w in
    match (_update_cache self cv w).2 with
    | Raise e => run_body_pass self cv w = (w1, Raise e)
    | Ok _ =>
        let w2 := exec (_detect_process self cv) w1 in
        match (_detect_process self cv w1).2 with
        | Ok _ => run_body_pass self cv w = (w2, Ok Continue)
        | Raise e =>
            if PSUTIL_NOTFOUND_ERRORS e then
              run_body_pass self cv w = (exec (sigterm self) w2, Ok Finished)
            else run_body_pass self cv w = (w2, Raise e)
        end
    end.
Proof.
  assert (Hsig : ∀ w2, (sigterm self ≫= λ _, mret Finished) w2
                       = (exec (sigterm self) w2, Ok Finished)).
  { intros w2. destruct (sigterm_total self w2) as [[] Ha].
    unfold exec. destruct (sigterm self w2) as [w3 r] eqn:E. simpl in Ha. subst r.
    by erewrite bind_ok by done. }
  unfold run_body_pass.
  erewrite bind_ok by reflexivity.
  destruct (should_exit (default blank (objects w !! self))); [apply Hsig|].
  unfold exec. cbn zeta.
  destruct (_update_cache self cv w) as [w1 [[]|e]] eqn:E1; cbn [fst snd].
  2:{ by erewrite bind_raise. }
  erewrite bind_ok by done.
  set (scan := try_except _ _ _).
  assert (Hscan : scan w1 =
    match _detect_process self cv w1 with
    | (w2, Ok _) => (w2, Ok false)
    | (w2, Raise e) =>
        if PSUTIL_NOTFOUND_ERRORS e then (w2, Ok true) else (w2, Raise e)
    end).
  { subst scan. unfold try_except.
    destruct (_detect_process self cv w1) as [w2 [[]|e]] eqn:E2.
    - by erewrite bind_ok by done.
    - erewrite bind_raise by done. by destruct (PSUTIL_NOTFOUND_ERRORS e). }
  destruct (_detect_process self cv w1) as [w2 [[]|e]] eqn:E2; cbn [fst snd].
  - by erewrite bind_ok by done.
  - destruct (PSUTIL_NOTFOUND_ERRORS e).
    + erewrite bind_ok by done. apply Hsig.
    + by erewrite bind_raise by done.
Qed.

(** One pass of the loop: the world is extended by the child scan, and the
    pass either goes on, or raises, or ends with [sigterm]. *)
Lemma run_body_pass_cases self cv w :
  ∃ w2, extends w w2
    ∧ (run_body_pass self cv w = (w2, Ok Continue)
       ∨ (∃ e, run_body_pass self cv w = (w2, Raise e))
       ∨ run_body_pass self cv w = (exec (sigterm self) w2, Ok Finished)).
Proof.
  pose proof (run_body_pass_shape self cv w) as H.
  destruct (should_exit _).
  { exists w. split; [reflexivity|]. by right; right. }
  cbn zeta in H.
  pose proof (_update_cache_respects extends self cv w) as H1.
  destruct ((_update_cache self cv w).2) as [[]|e].
  2:{ eexists. split; [exact H1|]. right. left. by exists e. }
  pose proof (_detect_process_extends self cv (exec (_update_cache self cv) w)) as H2.
  assert (H12 := transitivity H1 H2).
  destruct ((_detect_process self cv _).2) as [[]|e].
  - eexists. split; [exact H12|]. by left.
  - eexists. split; [exact H12|]. destruct (PSUTIL_NOTFOUND_ERRORS e).
    + by right; right.
    + right. left. by exists e.
Qed.

End LoopFacts.


(** ** One dispatcher per entity *)

Section RegistryInvariant.
Import PyNum HumanReadable DispatcherController ProcessDispatcher.

(** What [sigterm] does: the cumulative CPU time is written to the cputime
    file and the pid leaves the registry. *)
Lemma sigterm_effect self w d :
  objects w !! self = Some d →
  let w' := exec (sigterm self) w in
  _DISPATCHERS w' = delete (trace_pid d) (_DISPATCHERS w)
  ∧ next_id w' = next_id w
  ∧ (∀ t, key w' t = key w t)
  ∧ files w' !! cputime_path d = Some (str (_cached_last_cpu_time d) +:+ NL)
  ∧ (∃ d', objects w' !! self = Some d' ∧ should_exit d' = true
           ∧ _cached_last_cpu_time d' = _cached_last_cpu_time d).
Proof.
  intros Hd.
  unfold exec, sigterm, before_ending, update, open_w, write, remove_dispatcher,
    getattr, modify, mbind, stmt_bind, cputime_path.
  cbn. rewrite !lookup_alter_eq, Hd. cbn.
  split; [done|]. split; [done|]. split.
  { intros t. unfold key. cbn. destruct (decide (t = self)) as [->|Hne].
    - by rewrite !lookup_alter_eq, Hd.
    - by rewrite !lookup_alter_ne. }
  split.
  { rewrite lookup_insert_eq. by rewrite lookup_insert_eq. }
  eexists. split; [reflexivity|]. done.
Qed.

Lemma invariant_empty : invariant empty_world.
Proof.
  split; intros t; [intros [d Hd]|intros d Hd];
    cbn in Hd; by rewrite lookup_empty in Hd.
Qed.

Lemma extends_invariant w w' : invariant w → extends w w' → invariant w'.
Proof.
  intros [Hwf Hreg] Hext.
  destruct (Hext Hwf) as (Hwf' & Hn & Hr & Hk & Hnew).
  split; [done|]. intros t d Hd Ha.
  destruct (decide (t < next_id w)%nat) as [Hlt|Hge].
  - pose proof (key_object _ _ _ Hd) as Hkd. rewrite Hk, Ha in Hkd by done.
    apply key_Some in Hkd as (d0 & Hd0 & Hp & Ha0).
    apply Hr. rewrite <- Hp. by apply Hreg.
  - by apply (Hnew t d ltac:(lia) Hd Ha).
Qed.

Lemma key_end_thread self w t :
  key (end_thread self w) t =
    if decide (t = self) then (λ d, (trace_pid d, false)) <$> objects w !! self
    else key w t.
Proof. unfold end_thread. by rewrite key_alter. Qed.

Lemma end_thread_alive self w t p :
  key (end_thread self w) t = Some (p, true) → t ≠ self ∧ key w t = Some (p, true).
Proof.
  rewrite key_end_thread. case_decide; [|done].
  by destruct (objects w !! self).
Qed.

Lemma end_thread_invariant self w : invariant w → invariant (end_thread self w).
Proof.
  intros [Hwf Hreg]. split.
  - intros t Ht. apply key_is_Some in Ht. rewrite key_end_thread in Ht.
    apply (Hwf t). case_decide; [subst|by apply key_is_Some].
    by apply fmap_is_Some in Ht.
  - intros t d Hd Ha. pose proof (key_object _ _ _ Hd) as Hk. rewrite Ha in Hk.
    apply end_thread_alive in Hk as [_ Hk].
    apply key_Some in Hk as (d0 & Hd0 & Hp & Ha0).
    change (_DISPATCHERS (end_thread self w)) with (_DISPATCHERS w).
    rewrite <- Hp. by apply Hreg.
Qed.

(** The teardown of a live dispatcher keeps the invariant: its pid is
    registered to it alone. *)
Lemma teardown_invariant self w d :
  invariant w → objects w !! self = Some d → alive d = true →
  invariant (end_thread self (exec (sigterm self) w))
  ∧ (trace_pid d ∉ dom (_DISPATCHERS (end_thread self (exec (sigterm self) w)))).
Proof.
  intros [Hwf Hreg] Hd Ha.
  destruct (sigterm_effect self w d Hd) as (Hr & Hn & Hk & _).
  set (w' := exec (sigterm self) w) in *.
  split; [split|].
  - intros t Ht. apply key_is_Some in Ht. rewrite key_end_thread in Ht.
    change (next_id (end_thread self w')) with (next_id w'). rewrite Hn.
    apply Hwf. apply key_is_Some. rewrite <- Hk.
    case_decide; [subst; apply key_is_Some; by apply fmap_is_Some in Ht|done].
  - intros t d' Hd' Ha'. pose proof (key_object _ _ _ Hd') as Hkd. rewrite Ha' in Hkd.
    apply end_thread_alive in Hkd as [Hne Hkd]. rewrite Hk in Hkd.
    apply key_Some in Hkd as (d0 & Hd0 & Hp & Ha0).
    change (_DISPATCHERS (end_thread self w')) with (_DISPATCHERS w'). rewrite Hr.
    pose proof (Hreg t d0 Hd0 Ha0) as H0. pose proof (Hreg self d Hd Ha) as Hs.
    rewrite lookup_delete_ne; [by rewrite <- Hp|].
    intros Heq. rewrite Hp, <- Heq in H0. congruence.
  - change (_DISPATCHERS (end_thread self w')) with (_DISPATCHERS w'). rewrite Hr.
    rewrite dom_delete_L, not_elem_of_difference, elem_of_singleton. by right.
Qed.

(** A step extends the world and then, at most, ends the thread that took
    it, with or without teardown. *)
Lemma step_cases w ev :
  ∃ w2, extends w w2
    ∧ (step w ev = w2
       ∨ ∃ self cv, ev = Pass self cv ∧ is_alive self w = true
           ∧ ((step w ev = end_thread self w2
               ∧ (run_body_pass self cv w).2 ≠ Ok Finished)
              ∨ (step w ev = end_thread self (exec (sigterm self) w2)
                 ∧ (run_body_pass self cv w).2 = Ok Finished))).
Proof.
  destruct ev as [pid b pv|self cv|self]; cbn [step].
  - exists (exec (new_thread ← __init__ pid b None pv; start new_thread) w).
    split; [apply attach_extends | by left].
  - destruct (is_alive self w) eqn:Ha; [|exists w; split; [reflexivity|by left]].
    destruct (run_body_pass_cases self cv w) as (w2 & Hext & [E|[[e E]|E]]);
      exists w2; (split; [done|]); rewrite E; cbn [snd].
    + by left.
    + right. exists self, cv. rewrite E. split; [done|]. split; [done|]. by left.
    + right. exists self, cv. rewrite E. split; [done|]. split; [done|]. by right.
  - exists (update self (set_should_exit true) w).1. split; [|by left].
    apply (update_respects extends self). done.
Qed.

Lemma is_alive_object self w :
  is_alive self w = true → ∃ d, objects w !! self = Some d ∧ alive d = true.
Proof.
  unfold is_alive. destruct (objects w !! self) as [d|]; simpl; [|done].
  intros Ha. by exists d.
Qed.

Lemma extends_keeps_object w w2 self d :
  well_formed w → extends w w2 → objects w !! self = Some d →
  ∃ d2, objects w2 !! self = Some d2 ∧ trace_pid d2 = trace_pid d
        ∧ alive d2 = alive d.
Proof.
  intros Hwf Hext Hd. destruct (Hext Hwf) as (_ & _ & _ & Hk & _).
  assert (Hlt : (self < next_id w)%nat) by (apply Hwf; by rewrite Hd).
  pose proof (key_object _ _ _ Hd) as Hkd. rewrite <- Hk in Hkd by done.
  apply key_Some in Hkd as (d2 & ? & ? & ?). by exists d2.
Qed.

Lemma step_invariant w ev : invariant w → invariant (step w ev).
Proof.
  intros Hinv. destruct (step_cases w ev) as (w2 & Hext & Hcases).
  pose proof (extends_invariant _ _ Hinv Hext) as Hinv2.
  destruct Hcases as [->|(self & cv & -> & Ha & [[-> _]|[-> _]])]; [done| |].
  - by apply end_thread_invariant.
  - apply is_alive_object in Ha as (d & Hd & Had).
    destruct (extends_keeps_object w w2 self d (proj1 Hinv) Hext Hd)
      as (d2 & Hd2 & _ & Ha2).
    apply (teardown_invariant self w2 d2); [done|done|congruence].
Qed.

Lemma run_invariant evs w : invariant w → invariant (run evs w).
Proof.
  revert w. induction evs as [|ev evs IH]; intros w Hinv; [done|].
  simpl. apply IH. by apply step_invariant.
Qed.

(** No step starts a dispatcher for a pid that is already registered. *)
Lemma step_no_second_dispatcher w ev pid t d' :
  invariant w → pid ∈ dom (_DISPATCHERS w) →
  objects (step w ev) !! t = Some d' → alive d' = true → trace_pid d' = pid →
  ∃ d, objects w !! t = Some d ∧ alive d = true ∧ trace_pid d = pid.
Proof.
  intros [Hwf Hreg] Hpid Hd' Ha' Hp'.
  destruct (step_cases w ev) as (w2 & Hext & Hcases).
  destruct (Hext Hwf) as (Hwf2 & Hn & Hr & Hk & Hnew).
  pose proof (key_object _ _ _ Hd') as Hkd. rewrite Ha', Hp' in Hkd.
  assert (Hk2 : key w2 t = Some (pid, true)).
  { destruct Hcases as [<-|(self & cv & -> & Ha & [[E _]|[E _]])]; [done| |];
      rewrite E in Hkd; apply end_thread_alive in Hkd as [Hne Hkd]; [done|].
    apply is_alive_object in Ha as (d & Hd & Had).
    destruct (extends_keeps_object w w2 self d Hwf Hext Hd) as (d2 & Hd2 & _).
    destruct (sigterm_effect self w2 d2 Hd2) as (_ & _ & Hks & _).
    by rewrite Hks in Hkd. }
  destruct (decide (t < next_id w)%nat) as [Hlt|Hge].
  - rewrite Hk in Hk2 by done. apply key_Some in Hk2 as (d & ? & ? & ?). by exists d.
  - exfalso. apply key_Some in Hk2 as (d2 & Hd2 & Hp2 & Ha2).
    destruct (Hnew t d2 ltac:(lia) Hd2 Ha2) as [Hnone _].
    rewrite Hp2 in Hnone. apply elem_of_dom in Hpid as [x Hx]. congruence.
Qed.

Lemma is_alive_end_thread self w : is_alive self (end_thread self w) = false.
Proof.
  unfold is_alive, end_thread. cbn [objects set_objects].
  rewrite lookup_alter_eq. by destruct (objects w !! self).
Qed.

(** When the loop of a live dispatcher ends, its pid is unregistered. *)
Lemma step_finished_unregisters w self cv d :
  invariant w → objects w !! self = Some d → alive d = true →
  (run_body_pass self cv w).2 = Ok Finished →
  (trace_pid d ∉ dom (_DISPATCHERS (step w (Pass self cv))))
  ∧ is_alive self (step w (Pass self cv)) = false.
Proof.
  intros Hinv Hd Ha Hfin.
  destruct (step_cases w (Pass self cv)) as (w2 & Hext & Hcases).
  assert (Hal : is_alive self w = true) by (unfold is_alive; by rewrite Hd).
  destruct (extends_keeps_object w w2 self d (proj1 Hinv) Hext Hd)
    as (d2 & Hd2 & Hp2 & Ha2).
  pose proof (extends_invariant _ _ Hinv Hext) as Hinv2.
  destruct Hcases as [E|(self' & cv' & [= <- <-] & _ & [[E Hn]|[E _]])].
  - exfalso. cbn [step] in E. rewrite Hal in E.
    destruct (run_body_pass self cv w) as [w' [[|]|e]]; cbn [snd] in Hfin; try done.
    pose proof (is_alive_end_thread self w') as Hdead.
    rewrite E in Hdead. unfold is_alive in Hdead. rewrite Hd2 in Hdead.
    cbn in Hdead. congruence.
  - done.
  - rewrite E. split.
    + rewrite <- Hp2. apply (teardown_invariant self w2 d2); [done|done|congruence].
    + apply is_alive_end_thread.
Qed.

(** What does hold of the registry after every sequence of events: two
    live dispatchers never watch one pid, and the dispatcher of a live thread
    is the one registered under its pid; no further event starts a
    dispatcher for a pid that is registered; and when a pass of a live
    dispatcher leaves the loop through [sigterm], its pid is no longer
    registered.  Entries of dispatchers that are not live are not
    covered. *)
Lemma live_dispatchers_registered (evs : list event) :
  let w := run evs empty_world in
  (∀ t1 t2 d1 d2,
     objects w !! t1 = Some d1 → objects w !! t2 = Some d2 →
     alive d1 = true → alive d2 = true → trace_pid d1 = trace_pid d2 → t1 = t2)
  ∧ (∀ t d, objects w !! t = Some d → alive d = true →
       _DISPATCHERS w !! trace_pid d = Some t)
  ∧ (∀ ev pid t d',
       pid ∈ dom (_DISPATCHERS w) →
       objects (step w ev) !! t = Some d' → alive d' = true → trace_pid d' = pid →
       ∃ d, objects w !! t = Some d ∧ alive d = true ∧ trace_pid d = pid)
  ∧ (∀ self cv d,
       objects w !! self = Some d → alive d = true →
       (run_body_pass self cv w).2 = Ok Finished →
       (trace_pid d ∉ dom (_DISPATCHERS (step w (Pass self cv))))
       ∧ is_alive self (step w (Pass self cv)) = false).
Proof.
  intros w.
  assert (Hinv : invariant w) by apply run_invariant, invariant_empty.
  split; [|split; [|split]].
  - intros t1 t2 d1 d2 H1 H2 Ha1 Ha2 Hp.
    pose proof (proj2 Hinv t1 d1 H1 Ha1) as E1.
    pose proof (proj2 Hinv t2 d2 H2 Ha2) as E2. congruence.
  - apply Hinv.
  - intros ev pid t d'. by apply step_no_second_dispatcher.
  - intros self cv d. by apply step_finished_unregisters.
Qed.

End RegistryInvariant.


(** ** The order of cumulative CPU times *)

Section OrderFacts.
Import PyFloat PyNum.

Lemma lex_lt p q :
  lex p q = Lt ↔
  p.1.1 < q.1.1 ∨ (p.1.1 = q.1.1 ∧ (p.1.2 < q.1.2 ∨ (p.1.2 = q.1.2 ∧ p.2 < q.2))).
Proof.
  destruct p as [[p1 p2] p3], q as [[q1 q2] q3]. unfold lex. simpl.
  destruct (Z.compare_spec p1 q1), (Z.compare_spec p2 q2),
    (Z.compare_spec p3 q3); split; intros; try done; lia.
Qed.

Lemma lex_eq p q : lex p q = Eq ↔ p = q.
Proof.
  destruct p as [[p1 p2] p3], q as [[q1 q2] q3]. unfold lex. simpl.
  destruct (Z.compare_spec p1 q1), (Z.compare_spec p2 q2),
    (Z.compare_spec p3 q3); split; intros Heq; try done;
    try (injection Heq; intros; lia); subst; done.
Qed.

Lemma lex_antisym p q : lex q p = CompOpp (lex p q).
Proof.
  destruct p as [[p1 p2] p3], q as [[q1 q2] q3]. unfold lex. simpl.
  rewrite (Z.compare_antisym p1 q1), (Z.compare_antisym p2 q2),
    (Z.compare_antisym p3 q3).
  by destruct (p1 ?= q1), (p2 ?= q2), (p3 ?= q3).
Qed.

Lemma exact_ratio_positive m e : 0 < (exact_ratio m e).1.
Proof.
  unfold exact_ratio. destruct (0 <=? e) eqn:He; simpl; [|lia].
  apply Z.leb_le in He. apply Z.mul_pos_pos; [lia|]. by apply Z.pow_pos_nonneg.
Qed.

Lemma compare_float_zero x :
  x ≠ S754_nan →
  compare_float_Z x 0 = Some (lex (rank (PyFloat x)) (0, 0, 0)).
Proof.
  intros Hx. destruct x as [s|s| |s m e]; simpl; try done.
  - by destruct s.
  - pose proof (exact_ratio_positive m e) as Hp.
    destruct (exact_ratio m e) as [a b]. simpl in Hp. f_equal.
    destruct s; unfold lex; simpl.
    + by apply Z.compare_lt_iff; lia.
    + by apply Z.compare_gt_iff; lia.
Qed.

(** On comparable numbers, comparison is the lexicographic order of the
    ranks. *)
Lemma compare_rank a b :
  comparable a → comparable b → compare a b = Some (lex (rank a) (rank b)).
Proof.
  intros [->|(x & -> & Hx)] [->|(y & -> & Hy)].
  - done.
  - simpl compare. rewrite compare_float_zero by done. simpl.
    f_equal. symmetry. apply lex_antisym.
  - simpl compare. by rewrite compare_float_zero.
  - simpl compare.
    destruct x as [sx|sx| |sx mx ex], y as [sy|sy| |sy my ey]; try done;
      try (by destruct sx); try (by destruct sy); try (by destruct sx, sy).
    destruct sx, sy; simpl; try done; unfold lex; simpl.
    rewrite Z.compare_opp, (Z.compare_antisym ex ey).
    by destruct (ex ?= ey).
Qed.

Lemma ge_rank a b :
  comparable a → comparable b →
  ge a b = true ↔ lex (rank a) (rank b) ≠ Lt.
Proof.
  intros Ha Hb. unfold ge. rewrite compare_rank by done.
  destruct (lex _ _); split; intros; done.
Qed.

Lemma gt_rank a b :
  comparable a → comparable b →
  gt a b = true ↔ lex (rank a) (rank b) = Gt.
Proof.
  intros Ha Hb. unfold gt. rewrite compare_rank by done.
  destruct (lex _ _); split; intros; done.
Qed.

Lemma eq_rank a b :
  comparable a → comparable b →
  eq a b = true ↔ rank a = rank b.
Proof.
  intros Ha Hb. unfold eq. rewrite compare_rank by done.
  rewrite <- lex_eq. destruct (lex _ _); split; intros; done.
Qed.

Lemma ge_refl a : comparable a → ge a a = true.
Proof.
  intros Ha. apply ge_rank; [done..|].
  by rewrite (proj2 (lex_eq _ _) eq_refl).
Qed.

Lemma ge_trans a b c :
  comparable a → comparable b → comparable c →
  ge b a = true → ge c b = true → ge c a = true.
Proof.
  intros Ha Hb Hc. rewrite !ge_rank by done. rewrite !lex_lt. lia.
Qed.

(** A reading that is not below zero is comparable. *)
Lemma reading_comparable r :
  ge (PyFloat r) (PyInt 0) = true → comparable (PyFloat r).
Proof. intros H. right. exists r. split; [done|]. by intros ->. Qed.

Lemma max_comparable c r :
  comparable c → comparable r → comparable (max c r).
Proof. intros Hc Hr. unfold max. by destruct (gt r c). Qed.

Lemma max_ge_l c r : comparable c → comparable r → ge (max c r) c = true.
Proof.
  intros Hc Hr. unfold max. destruct (gt r c) eqn:Hg.
  - apply gt_rank in Hg; [|done..]. apply ge_rank; [done..|]. congruence.
  - by apply ge_refl.
Qed.

Lemma max_ge_r c r : comparable c → comparable r → ge (max c r) r = true.
Proof.
  intros Hc Hr. unfold max. destruct (gt r c) eqn:Hg.
  - by apply ge_refl.
  - apply ge_rank; [done..|]. intros Hlt.
    assert (Hgt : gt r c = true); [|congruence].
    apply gt_rank; [done..|]. by rewrite lex_antisym, Hlt.
Qed.

(** A NaN is greater than nothing: it never replaces the cached value. *)
Lemma gt_nan c : gt (PyFloat S754_nan) c = false.
Proof.
  unfold gt. destruct c as [n|x]; simpl; [done|]. by destruct x.
Qed.

Lemma nan_or_not (r : float) : r = S754_nan ∨ r ≠ S754_nan.
Proof. destruct r; (by left) || (by right). Qed.

Lemma max_nan c : max c (PyFloat S754_nan) = c.
Proof. unfold max. by rewrite gt_nan. Qed.

(** One update never lowers the cached value, whatever float is read. *)
Lemma max_never_lowers c r : comparable c → ge (max c (PyFloat r)) c = true.
Proof.
  intros Hc. destruct (nan_or_not r) as [->|Hr].
  - rewrite max_nan. by apply ge_refl.
  - apply max_ge_l; [done|]. right. by exists r.
Qed.

Lemma max_float_comparable c r : comparable c → comparable (max c (PyFloat r)).
Proof.
  intros Hc. destruct (nan_or_not r) as [->|Hr].
  - by rewrite max_nan.
  - apply max_comparable; [done|]. right. by exists r.
Qed.

Lemma updated_never_lowers c r : comparable c → ge (updated c r) c = true.
Proof.
  intros Hc. destruct r as [t|e]; simpl.
  - by apply max_never_lowers.
  - by apply ge_refl.
Qed.

Lemma updated_comparable c r : comparable c → comparable (updated c r).
Proof.
  intros Hc. destruct r as [t|e]; simpl; [|done]. by apply max_float_comparable.
Qed.

Lemma max_with_zero_comparable c rs : max_with_zero c rs → comparable c.
Proof.
  intros ([->|(r & _ & ->)] & H0 & _); [by left|]. by apply reading_comparable.
Qed.

Lemma max_with_zero_init : max_with_zero (PyInt 0) [].
Proof.
  split; [by left|]. split; [done|]. intros r Hin. by apply not_elem_of_nil in Hin.
Qed.

(** The step of the running maximum: one more reading, whatever it is,
    leaves the cached value at the maximum of 0 and the readings. *)
Lemma max_with_zero_step c rs r :
  max_with_zero c rs → max_with_zero (max c (PyFloat r)) (rs ++ [r]).
Proof.
  intros Hm. pose proof (max_with_zero_comparable _ _ Hm) as Hc.
  destruct Hm as (Hone & H0 & Hall).
  assert (Hz : comparable (PyInt 0)) by (by left).
  split; [|split].
  - unfold max. destruct (gt (PyFloat r) c).
    + right. exists r. split; [|done]. apply elem_of_app. right. constructor.
    + destruct Hone as [->|(r' & Hin & ->)]; [by left|].
      right. exists r'. split; [|done]. apply elem_of_app. by left.
  - apply (ge_trans _ c); [done|done|by apply max_float_comparable|done|].
    by apply max_never_lowers.
  - intros r' Hin Hr'. apply elem_of_app in Hin as [Hin|Hin].
    + apply (ge_trans _ c);
        [right; by exists r'|done|by apply max_float_comparable|by apply Hall|].
      by apply max_never_lowers.
    + apply list_elem_of_singleton in Hin. subst r'.
      apply max_ge_r; [done|]. right. by exists r.
Qed.

Lemma max_with_zero_updated c rs r :
  max_with_zero c rs →
  max_with_zero (updated c r)
    (rs ++ match r with Ok t => [t] | Raise _ => [] end).
Proof.
  intros Hm. destruct r as [t|e]; simpl.
  - by apply max_with_zero_step.
  - by rewrite app_nil_r.
Qed.

End OrderFacts.


(** ** The cumulative CPU time of one dispatcher *)

Section CpuTimeFacts.
Import PyFloat PyNum HumanReadable DispatcherController ProcessDispatcher.

(** Attaching a child leaves the scanning dispatcher as it is. *)
Lemma attach_keeps self pid b lt pv :
  respects (keeps self) (new_thread ← __init__ pid b lt pv; start new_thread).
Proof.
  intros w Hlt. unfold exec.
  destruct (init_unfold pid b lt pv) as (rest & Hrest & Hret & Heq).
  specialize (Heq w). cbn zeta in Heq.
  assert (Hne : next_id w ≠ self) by lia.
  destruct (decide (pid ∈ dom (_DISPATCHERS w))) as [Hin|Hnin].
  { erewrite bind_raise by exact Heq. cbn. split; [lia|].
    intros d Hd. exists d. by rewrite lookup_insert_ne. }
  set (w3 := set_objects _ _) in Heq.
  assert (H3 : keeps self w w3).
  { intros _. subst w3. cbn. split; [lia|]. intros d Hd. exists d.
    by rewrite !lookup_alter_ne, lookup_insert_ne. }
  pose proof (Hrest (keeps self) (next_id w) (keeps_frame_other _ _ Hne) w3) as H4.
  unfold exec in H4. pose proof (Hret (next_id w) w3) as Hr.
  destruct (rest (next_id w) w3) as [w4 r] eqn:E4. simpl in H4, Hr.
  assert (H04 : keeps self w w4) by (by etrans).
  destruct Hr as [-> | [e ->]].
  - erewrite bind_ok by exact Heq.
    refine (transitivity H04 _ Hlt). by apply keeps_update_other.
  - erewrite bind_raise by exact Heq. by apply H04.
Qed.

Lemma _detect_process_keeps self cv :
  respects (keeps self) (_detect_process self cv).
Proof.
  apply (_detect_process_respects (keeps self) self (S self)
           (Frame0 := keeps_frame_other self (S self) ltac:(lia))).
  - apply attach_keeps.
  - intros name w. by apply keeps_update_harmless.
Qed.

(** What [_update_cache] does to the dispatcher, whether or not the rest of
    the rebuild raises: the cached CPU time becomes the maximum of itself and
    the reading. *)
Lemma _update_cache_effect self cv w d :
  objects w !! self = Some d →
  let w1 := exec (_update_cache self cv) w in
  next_id w1 = next_id w
  ∧ ∃ d1, objects w1 !! self = Some d1
      ∧ trace_pid d1 = trace_pid d ∧ basename d1 = basename d
      ∧ should_exit d1 = should_exit d ∧ alive d1 = alive d
      ∧ _cached_last_cpu_time d1
        = updated (_cached_last_cpu_time d) (cv_cpu_time cv).
Proof.
  intros Hd.
  unfold exec, _update_cache, setitem, update, getattr, lift, modify, mbind, stmt_bind.
  cbn -[max _to_human_readable str round2].
  rewrite Hd. destruct (cv_cpu_time cv) as [t|e];
    cbn -[max _to_human_readable str round2].
  - destruct (_to_human_readable _ _); cbn -[max str round2];
      (split; [done|]); rewrite ?lookup_alter_eq, Hd; cbn -[max str round2];
      eexists; (split; [reflexivity|]); done.
  - split; [done|]. by exists d.
Qed.

(** A poll that raises leaves [_update_cache] at once: nothing is assigned
    and the error goes to the caller. *)
Lemma _update_cache_poll_raises self cv w e :
  cv_cpu_time cv = Raise e → _update_cache self cv w = (w, Raise e).
Proof.
  intros He. unfold _update_cache, getattr, lift, mbind, stmt_bind.
  by rewrite He.
Qed.

(** What one pass of the loop does to its dispatcher. *)
Lemma run_body_pass_effect self cv w d :
  objects w !! self = Some d → (self < next_id w)%nat →
  let w' := exec (run_body_pass self cv) w in
  let r := (run_body_pass self cv w).2 in
  (self < next_id w')%nat
  ∧ ∃ d', objects w' !! self = Some d'
      ∧ trace_pid d' = trace_pid d ∧ basename d' = basename d
      ∧ _cached_last_cpu_time d'
        = (if should_exit d then _cached_last_cpu_time d
           else updated (_cached_last_cpu_time d) (cv_cpu_time cv))
      ∧ (r = Ok Continue → should_exit d = false ∧ should_exit d' = false)
      ∧ (r = Ok Finished →
           files w' !! cputime_path d = Some (str (_cached_last_cpu_time d') +:+ NL)
           ∧ trace_pid d ∉ dom (_DISPATCHERS w')).
Proof.
  intros Hd Hlt.
  assert (Hsig : ∀ w2 d2, (self < next_id w2)%nat → objects w2 !! self = Some d2 →
    trace_pid d2 = trace_pid d → basename d2 = basename d →
    (self < next_id (exec (sigterm self) w2))%nat
    ∧ ∃ d', objects (exec (sigterm self) w2) !! self = Some d'
        ∧ trace_pid d' = trace_pid d ∧ basename d' = basename d
        ∧ _cached_last_cpu_time d' = _cached_last_cpu_time d2
        ∧ (Ok Finished = Ok Continue → should_exit d = false ∧ should_exit d' = false)
        ∧ (Ok Finished = Ok Finished →
             files (exec (sigterm self) w2) !! cputime_path d
               = Some (str (_cached_last_cpu_time d') +:+ NL)
             ∧ trace_pid d ∉ dom (_DISPATCHERS (exec (sigterm self) w2)))).
  { intros w2 d2 Hlt2 Hd2 Hp2 Hb2.
    destruct (sigterm_effect self w2 d2 Hd2) as (Hr & Hn & Hk & Hf & d' & Hd' & _ & Hc').
    split; [by rewrite Hn|]. exists d'.
    assert (Hkd' := key_object _ _ _ Hd'). rewrite Hk, (key_object _ _ _ Hd2) in Hkd'.
    injection Hkd' as Hp' Ha'.
    assert (Hb' : basename d' = basename d2).
    { clear -Hd' Hd2. revert Hd'.
      unfold exec, sigterm, before_ending, update, open_w, write, remove_dispatcher,
        getattr, modify, mbind, stmt_bind.
      cbn. rewrite !lookup_alter_eq, Hd2. cbn. by intros [= <-]. }
    split; [done|]. split; [congruence|]. split; [congruence|]. split; [done|].
    split; [done|]. intros _. split.
    - rewrite Hc'. unfold cputime_path in *. by rewrite <- Hp2, <- Hb2.
    - rewrite Hr, <- Hp2, dom_delete_L, not_elem_of_difference, elem_of_singleton. by right. }
  cbn zeta. unfold exec.
  pose proof (run_body_pass_shape self cv w) as Hshape.
  rewrite Hd in Hshape. change (default blank (Some d)) with d in Hshape.
  revert Hshape. destruct (should_exit d) eqn:Hse; intros Hshape.
  { rewrite Hshape. cbn [fst snd]. by apply Hsig. }
  cbn zeta in Hshape.
  destruct (_update_cache_effect self cv w d Hd)
    as (Hn1 & d1 & Hd1 & Hp1 & Hb1 & Hs1 & Ha1 & Hc1).
  revert Hshape. destruct ((_update_cache self cv w).2) as [[]|e]; intros Hshape.
  { set (w1 := exec (_update_cache self cv) w) in *.
    assert (Hlt1 : (self < next_id w1)%nat) by (by rewrite Hn1).
    destruct (_detect_process_keeps self cv w1 Hlt1) as [Hlt2 Hk2].
    destruct (Hk2 d1 Hd1) as (d2 & Hd2 & Hp2 & Hb2 & Hs2 & Hc2 & Ha2).
    revert Hshape.
    destruct ((_detect_process self cv w1).2) as [[]|e]; intros Hshape.
    - rewrite Hshape. cbn [fst snd]. split; [done|]. exists d2.
      split; [done|]. split; [congruence|]. split; [congruence|].
      split; [congruence|]. split; [|done]. intros _. split; congruence.
    - revert Hshape.
      destruct (PSUTIL_NOTFOUND_ERRORS e); intros Hshape; rewrite Hshape;
        cbn [fst snd].
      + destruct (Hsig _ d2 Hlt2 Hd2 ltac:(congruence) ltac:(congruence))
          as (Hlt3 & d3 & Hd3 & Hp3 & Hb3 & Hc3 & _ & Hfin).
        split; [done|]. exists d3.
        split; [done|]. split; [done|]. split; [done|]. split; [congruence|].
        split; [done|]. intros _. by apply Hfin.
      + split; [done|]. exists d2.
        split; [done|]. split; [congruence|]. split; [congruence|].
        split; [congruence|]. done. }
  rewrite Hshape. cbn [fst snd]. split; [by rewrite Hn1|]. exists d1.
  split; [done|]. split; [done|]. split; [done|]. split; [done|]. done.
Qed.

Lemma run_body_single self cv w :
  run_body self [cv] w = run_body_pass self cv w.
Proof.
  cbn [run_body]. unfold mbind, stmt_bind.
  by destruct (run_body_pass self cv w) as [w1 [[|]|e]].
Qed.

Lemma run_body_app self l1 l2 w :
  run_body self (l1 ++ l2) w =
    match run_body self l1 w with
    | (w1, Ok Continue) => run_body self l2 w1
    | r => r
    end.
Proof.
  revert w. induction l1 as [|cv l1 IH]; intros w; [done|].
  cbn [app run_body]. unfold mbind, stmt_bind.
  destruct (run_body_pass self cv w) as [w1 [[|]|e]]; [apply IH|done|done].
Qed.

Lemma readings_cons cv cvs :
  readings (cv :: cvs)
  = match cv_cpu_time cv with Ok t => [t] | Raise _ => [] end ++ readings cvs.
Proof. unfold readings. cbn [omap list_omap]. by destruct (cv_cpu_time cv). Qed.

Lemma readings_app l1 l2 : readings (l1 ++ l2) = readings l1 ++ readings l2.
Proof. unfold readings. apply omap_app. Qed.

(** What [run_body] does to its dispatcher over a sequence of passes,
    whatever the polls answer. *)
Lemma run_body_effect self cvs : ∀ w d rs0,
  objects w !! self = Some d → (self < next_id w)%nat →
  comparable (_cached_last_cpu_time d) →
  let w' := exec (run_body self cvs) w in
  let r := (run_body self cvs w).2 in
  (self < next_id w')%nat
  ∧ ∃ d', objects w' !! self = Some d'
      ∧ trace_pid d' = trace_pid d ∧ basename d' = basename d
      ∧ comparable (_cached_last_cpu_time d')
      ∧ ge (_cached_last_cpu_time d') (_cached_last_cpu_time d) = true
      ∧ (r = Ok Continue → should_exit d = false →
           should_exit d' = false
           ∧ (max_with_zero (_cached_last_cpu_time d) rs0 →
              max_with_zero (_cached_last_cpu_time d') (rs0 ++ readings cvs)))
      ∧ (r = Ok Finished →
           files w' !! cputime_path d = Some (str (_cached_last_cpu_time d') +:+ NL)
           ∧ (trace_pid d ∉ dom (_DISPATCHERS w'))).
Proof.
  induction cvs as [|cv cvs IH]; intros w d rs0 Hd Hlt Hc.
  { cbn. split; [done|]. exists d. split; [done|]. split; [done|]. split; [done|].
    split; [done|]. split; [by apply ge_refl|]. split; [|done].
    intros _ Hse. split; [done|]. by rewrite app_nil_r. }
  cbn zeta. unfold exec. cbn [run_body].
  destruct (run_body_pass_effect self cv w d Hd Hlt)
    as (Hlt1 & d1 & Hd1 & Hp1 & Hb1 & Hc1 & Hcont1 & Hfin1).
  unfold exec in *.
  assert (Hcomp1 : comparable (_cached_last_cpu_time d1)).
  { rewrite Hc1. destruct (should_exit d); [done|by apply updated_comparable]. }
  assert (Hge1 : ge (_cached_last_cpu_time d1) (_cached_last_cpu_time d) = true).
  { rewrite Hc1. destruct (should_exit d);
      [by apply ge_refl|by apply updated_never_lowers]. }
  destruct (run_body_pass self cv w) as [w1 [[|]|e]] eqn:E; cbn [fst snd] in *.
  - erewrite bind_ok by exact E.
    destruct (Hcont1 eq_refl) as [Hse Hse1].
    destruct (IH w1 d1
                (rs0 ++ match cv_cpu_time cv with Ok t => [t] | Raise _ => [] end)
                Hd1 Hlt1 Hcomp1)
      as (Hlt2 & d2 & Hd2 & Hp2 & Hb2 & Hcomp2 & Hge2 & Hcont2 & Hfin2).
    unfold exec in *.
    split; [done|]. exists d2. split; [done|]. split; [congruence|].
    split; [congruence|]. split; [done|].
    split; [by apply (ge_trans _ (_cached_last_cpu_time d1))|]. split.
    + intros Hr _. destruct (Hcont2 Hr Hse1) as [Hse2 Htr]. split; [done|].
      intros Hm. rewrite readings_cons, app_assoc. apply Htr.
      rewrite Hc1, Hse. by apply max_with_zero_updated.
    + intros Hr. destruct (Hfin2 Hr) as [Hf Hu].
      unfold cputime_path in *. rewrite <- Hp1, <- Hb1. done.
  - erewrite bind_ok by exact E. cbn.
    split; [done|]. exists d1. split; [done|]. split; [done|]. split; [done|].
    split; [done|]. split; [done|]. split; [done|]. intros _. by apply Hfin1.
  - erewrite bind_raise by exact E. cbn.
    split; [done|]. exists d1. split; [done|]. split; [done|]. split; [done|].
    split; [done|]. split; [done|]. done.
Qed.

(** A pass whose poll raises leaves the loop at once: the world is as it was
    before the pass and the error leaves [run_body]; [sigterm] is not
    reached. *)
Lemma run_body_poll_raises self cv cvs w d e :
  objects w !! self = Some d → should_exit d = false →
  cv_cpu_time cv = Raise e →
  run_body self (cv :: cvs) w = (w, Raise e).
Proof.
  intros Hd Hse He. cbn [run_body]. unfold mbind, stmt_bind.
  assert (Hpass : run_body_pass self cv w = (w, Raise e)).
  { pose proof (run_body_pass_shape self cv w) as Hshape.
    rewrite Hd in Hshape. change (default blank (Some d)) with d in Hshape.
    rewrite Hse in Hshape. cbn zeta in Hshape. unfold exec in Hshape.
    by rewrite (_update_cache_poll_raises self cv w e He) in Hshape. }
  by rewrite Hpass.
Qed.

End CpuTimeFacts.


Section CpuTimeClaims.
Import PyFloat PyNum HumanReadable DispatcherController ProcessDispatcher.

Lemma cpu_time_after_object self cvs w d' :
  objects (exec (run_body self cvs) w) !! self = Some d' →
  cpu_time_after self cvs w = _cached_last_cpu_time d'.
Proof. unfold cpu_time_after. by intros ->. Qed.

Lemma cpu_time_monotone self l1 l2 w d :
  objects w !! self = Some d → (self < next_id w)%nat →
  comparable (_cached_last_cpu_time d) →
  ge (cpu_time_after self (l1 ++ l2) w) (cpu_time_after self l1 w) = true.
Proof.
  intros Hd Hlt Hc.
  destruct (run_body_effect self l1 w d [] Hd Hlt Hc)
    as (Hlt1 & d1 & Hd1 & _ & _ & Hc1 & _).
  rewrite (cpu_time_after_object self l1 w d1 Hd1).
  unfold cpu_time_after, exec in *. rewrite run_body_app.
  destruct (run_body self l1 w) as [w1 [[|]|e]] eqn:E; cbn [fst snd] in *;
    try (rewrite Hd1; by apply ge_refl).
  destruct (run_body_effect self l2 w1 d1 [] Hd1 Hlt1 Hc1)
    as (_ & d2 & Hd2 & _ & _ & _ & Hge & _).
  unfold exec in Hd2. by rewrite Hd2.
Qed.

(** C5: from the state the constructor leaves (cached value 0), for every
    sequence of readings, be they negative, infinite, not a number or a poll
    that raises: after each pass that the loop reaches, the cached cumulative
    CPU time is the maximum of the initial 0 and the readings so far (the
    initial 0 or one of the readings, not below 0 and not below any reading
    that compares); along the passes it never decreases; and the value
    written to the cputime file at teardown is the last cached value, not
    below any earlier one. *)
Theorem cpu_time_maximum_with_zero self cvs w d :
  objects w !! self = Some d → (self < next_id w)%nat →
  should_exit d = false → _cached_last_cpu_time d = PyInt 0 →
  (∀ k, (0 < k ≤ length cvs)%nat →
     (run_body self (take (k - 1) cvs) w).2 = Ok Continue →
     max_with_zero (cpu_time_after self (take k cvs) w) (readings (take k cvs)))
  ∧ (∀ i j, (i ≤ j)%nat →
       ge (cpu_time_after self (take j cvs) w)
          (cpu_time_after self (take i cvs) w) = true)
  ∧ ((run_body self cvs w).2 = Ok Finished →
       files (exec (run_body self cvs) w) !! cputime_path d
         = Some (str (cpu_time_after self cvs w) +:+ NL)
       ∧ ∀ k, ge (cpu_time_after self cvs w)
                 (cpu_time_after self (take k cvs) w) = true).
Proof.
  intros Hd Hlt Hse Hc0.
  assert (Hc : comparable (_cached_last_cpu_time d)) by (rewrite Hc0; by left).
  assert (Hmono : ∀ i j, (i ≤ j)%nat →
    ge (cpu_time_after self (take j cvs) w)
       (cpu_time_after self (take i cvs) w) = true).
  { intros i j Hij.
    assert (Hsplit : take j cvs = take i cvs ++ drop i (take j cvs)).
    { rewrite <- (take_drop i (take j cvs)) at 1.
      by rewrite take_take, Nat.min_l by lia. }
    rewrite Hsplit. by apply (cpu_time_monotone self _ _ w d). }
  split; [|split; [done|]].
  - intros k [Hk1 Hk2] Hcont.
    destruct k as [|n]; [lia|]. replace (S n - 1)%nat with n in Hcont by lia.
    destruct (lookup_lt_is_Some_2 cvs n ltac:(lia)) as [cv Hcv].
    rewrite (take_S_r cvs n cv Hcv).
    destruct (run_body_effect self (take n cvs) w d [] Hd Hlt Hc)
      as (Hlt1 & d1 & Hd1 & _ & _ & Hc1 & _ & Hcont1 & _).
    destruct (Hcont1 Hcont Hse) as [Hse1 Htr].
    assert (Htr1 : max_with_zero (_cached_last_cpu_time d1) (readings (take n cvs))).
    { apply Htr. rewrite Hc0. apply max_with_zero_init. }
    unfold cpu_time_after, exec in *. rewrite run_body_app.
    destruct (run_body self (take n cvs) w) as [w1 r] eqn:E.
    cbn [fst snd] in *. subst r. rewrite run_body_single.
    destruct (run_body_pass_effect self cv w1 d1 Hd1 Hlt1)
      as (_ & d2 & Hd2 & _ & _ & Hc2 & _).
    unfold exec in Hd2. rewrite Hd2. cbn [default from_option id].
    change (id d2) with d2. rewrite Hc2, Hse1.
    rewrite readings_app, readings_cons. change (readings []) with (@nil float).
    rewrite app_nil_r. by apply max_with_zero_updated.
  - intros Hfin.
    destruct (run_body_effect self cvs w d [] Hd Hlt Hc)
      as (_ & d' & Hd' & _ & _ & _ & _ & _ & Hfile).
    rewrite (cpu_time_after_object self cvs w d' Hd'). split; [by apply Hfile|].
    intros k. rewrite <- (cpu_time_after_object self cvs w d' Hd').
    rewrite <- (take_ge cvs (k + length cvs)) at 1 by lia.
    apply Hmono. lia.
Qed.

(** An enumeration of the children that raises makes the scan raise. *)
Lemma _detect_process_enumeration_raises self cv w e :
  cv_children cv = Raise e → PSUTIL_NOTFOUND_ERRORS e = true →
  (_detect_process self cv w).2 = Raise e.
Proof.
  intros Hc He. unfold _detect_process, try_except, tracee_error, logging, getattr,
    lift, modify, mbind, stmt_bind.
  rewrite Hc. cbn. by rewrite He.
Qed.

(** The path of the child scan: when the scan of a pass raises a not-found
    error, after the cache update of that pass has returned, [run_body]
    leaves the loop and finishes through the teardown: the cputime file holds
    the cumulative CPU time accumulated so far, this pass included, and the
    pid has left the registry. *)
Lemma scan_gone_runs_teardown self cv cvs w d e :
  objects w !! self = Some d → (self < next_id w)%nat →
  should_exit d = false →
  (_update_cache self cv w).2 = Ok () →
  (_detect_process self cv (exec (_update_cache self cv) w)).2 = Raise e →
  PSUTIL_NOTFOUND_ERRORS e = true →
  let w' := exec (run_body self (cv :: cvs)) w in
  (run_body self (cv :: cvs) w).2 = Ok Finished
  ∧ files w' !! cputime_path d
    = Some (str (updated (_cached_last_cpu_time d) (cv_cpu_time cv)) +:+ NL)
  ∧ (trace_pid d ∉ dom (_DISPATCHERS w')).
Proof.
  intros Hd Hlt Hse Hup Hdet He. cbn zeta. unfold exec. cbn [run_body].
  pose proof (run_body_pass_shape self cv w) as Hshape.
  rewrite Hd in Hshape. change (default blank (Some d)) with d in Hshape.
  rewrite Hse in Hshape. cbn zeta in Hshape. rewrite Hup, Hdet, He in Hshape.
  destruct (run_body_pass_effect self cv w d Hd Hlt)
    as (_ & d' & Hd' & _ & _ & Hc' & _ & Hfin).
  unfold exec in *. rewrite Hshape in *. cbn [fst snd] in *.
  erewrite bind_ok by exact Hshape. cbn.
  destruct (Hfin eq_refl) as [Hf Hu].
  split; [done|]. split; [|done]. by rewrite Hf, Hc', Hse.
Qed.


End CpuTimeClaims.


(** ** Failures while a dispatcher is attached *)

Section AttachFailures.
Import PyFloat PyNum HumanReadable DispatcherController ProcessDispatcher.

(** Whatever the world, constructing a dispatcher for a process that no
    longer exists raises the not-found error after the pid has been
    registered, and the registration stays. *)
Lemma init_gone_registers pid b lt pv w :
  pid ∉ dom (_DISPATCHERS w) → pv_Process pv = Raise NoSuchProcess →
  (__init__ pid b lt pv w).2 = Raise NoSuchProcess
  ∧ _DISPATCHERS (exec (__init__ pid b lt pv) w) !! pid = Some (next_id w).
Proof.
  intros Hnin Hpv.
  unfold exec, __init__, Base__init__, register_dispatcher, update, try_except,
    tracee_error, logging, getattr, lift, modify, mbind, stmt_bind.
  cbn. rewrite decide_False by done. cbn. rewrite Hpv. cbn.
  split; [done|]. apply lookup_insert_eq.
Qed.

(** C3, on the code: the process 7 has exited when its dispatcher is
    constructed in an empty world.  The constructor raises the not-found
    error, but it registered the pid first, and the entry stays in the
    registry although no thread was started. *)
Theorem init_entity_gone_stays_registered :
  _DISPATCHERS empty_world !! 7 = None
  ∧ (__init__ 7 "out" None Samples.gone empty_world).2 = Raise NoSuchProcess
  ∧ _DISPATCHERS (exec (__init__ 7 "out" None Samples.gone) empty_world) !! 7
    = Some 0%nat
  ∧ is_alive 0 (exec (__init__ 7 "out" None Samples.gone) empty_world) = false.
Proof. vm_compute. done. Qed.

(** C4, on the code: the dispatcher of process 1 scans its children 2 and
    3 when 2 has already exited.  The not-found error of the constructor of 2
    leaves the scan, so 3 is not attached, and it ends the loop of the
    parent, whose thread finishes and whose pid leaves the registry; the
    entry of 2 stays. *)
Theorem child_gone_ends_parent :
  let w := Samples.parent_world in
  let w' := step w (Pass 0 Samples.scan_with_gone_child) in
  is_alive 0 w = true ∧ _DISPATCHERS w !! 1 = Some 0%nat
  ∧ (run_body_pass 0 Samples.scan_with_gone_child w).2 = Ok Finished
  ∧ is_alive 0 w' = false ∧ _DISPATCHERS w' !! 1 = None
  ∧ _DISPATCHERS w' !! 3 = None
  ∧ _DISPATCHERS w' !! 2 = Some 1%nat ∧ is_alive 1 w' = false.
Proof. vm_compute. done. Qed.

(** C1, on the code: entries do leak.  The process 7 has exited when its
    dispatcher is attached: the constructor raises, no thread runs, and 7
    stays registered.  The process 1 is attached and exits before the poll
    of its first pass: the not-found error ends the thread outside the
    teardown, and 1 stays registered.  A registered pid is never attached
    again: a later scan that finds a live process 7 starts no dispatcher
    for it. *)
Theorem registry_leaks_entries :
  let w := run [Attach 7 "out" Samples.gone] empty_world in
  let w' := run [Attach 1 "out" (Samples.live "a" 0); Pass 0 Samples.poll_gone]
              empty_world in
  let scan := Samples.pass_view 5 (Ok [(7, Samples.live "b" 1)]) in
  let w'' := run [Attach 7 "out" Samples.gone; Attach 1 "out" (Samples.live "a" 0);
                  Pass 1 scan] empty_world in
  _DISPATCHERS w !! 7 = Some 0%nat ∧ is_alive 0 w = false
  ∧ _DISPATCHERS w' !! 1 = Some 0%nat ∧ is_alive 0 w' = false
  ∧ _DISPATCHERS w'' !! 7 = Some 0%nat ∧ is_alive 0 w'' = false
  ∧ is_alive 1 w'' = true ∧ next_id w'' = 2%nat.
Proof. vm_compute. done. Qed.

End AttachFailures.

(** ** Witnesses of the loop properties *)

Section LoopExamples.
Import PyFloat PyNum HumanReadable DispatcherController ProcessDispatcher Samples.

Example lifetime_cpu_times :
  (λ k, str (cpu_time_after 0 (take k Samples.lifetime) Samples.parent_world))
    <$> [0; 1; 2; 3]%nat
  = ["0"; "1.25"; "1.25"; "2.0"]%string
  ∧ files (exec (run_body 0 Samples.lifetime) Samples.parent_world)
      !! "out.1.cputime"%string = Some ("2.0" +:+ NL).
Proof. vm_compute. done. Qed.

(** The process 1 is attached; its child 3 is found by one scan and found
    again by the next, which starts nothing; then 3 exits and its dispatcher
    leaves the registry.  Two dispatchers were created in all. *)
Example registry_lifetime :
  let scan := pass_view 5 (Ok [(3, live "c" 1)]) in
  let w2 := run [Attach 1 "out" (live "a" 0); Pass 0 scan] empty_world in
  let w3 := step w2 (Pass 0 scan) in
  let w4 := step w3 (Pass 1 (pass_view 2 (Raise NoSuchProcess))) in
  map_to_list (_DISPATCHERS w2) ≡ₚ [(1, 0%nat); (3, 1%nat)]
  ∧ is_alive 0 w2 = true ∧ is_alive 1 w2 = true ∧ next_id w2 = 2%nat
  ∧ _DISPATCHERS w3 = _DISPATCHERS w2 ∧ next_id w3 = 2%nat
  ∧ map_to_list (_DISPATCHERS w4) = [(1, 0%nat)]
  ∧ is_alive 0 w4 = true ∧ is_alive 1 w4 = false
  ∧ files w4 !! "out.3.cputime"%string = Some ("0.5" +:+ NL).
Proof.
  cbn zeta. split; [|vm_compute; done].
  vm_compute. first [reflexivity | apply Permutation_swap].
Qed.

(** C5 as stated fails.  The first reading is -1.0: the cached value stays
    at its initial 0, which is none of the readings so far. *)
Lemma cpu_time_running_maximum_as_stated_fail :
  let cvs := [Samples.reading (of_ratio true 1 1)] in
  let c := cpu_time_after 0 cvs Samples.parent_world in
  (run_body 0 cvs Samples.parent_world).2 = Ok Continue
  ∧ readings cvs = [of_ratio true 1 1]
  ∧ str (PyFloat (of_ratio true 1 1)) = "-1.0"%string
  ∧ c = PyInt 0
  ∧ forallb (λ r, negb (eq c (PyFloat r))) (readings cvs) = true.
Proof. vm_compute. done. Qed.

Example noisy_cpu_times :
  (λ k, str (cpu_time_after 0 (take k Samples.noisy_lifetime) Samples.parent_world))
    <$> [0; 1; 2; 3; 4]%nat
  = ["0"; "0"; "0"; "0.5"; "0.5"]%string
  ∧ files (exec (run_body 0 Samples.noisy_lifetime) Samples.parent_world)
      !! "out.1.cputime"%string = Some ("0.5" +:+ NL).
Proof. vm_compute. done. Qed.

Lemma cpu_time_maximum_with_zero_witness :
  objects Samples.parent_world !! 0%nat = Some Samples.parent
  ∧ (0 < next_id Samples.parent_world)%nat
  ∧ should_exit Samples.parent = false
  ∧ _cached_last_cpu_time Samples.parent = PyInt 0
  ∧ (∀ k, (0 < k ≤ length Samples.noisy_lifetime)%nat →
       (run_body 0 (take (k - 1) Samples.noisy_lifetime) Samples.parent_world).2
         = Ok Continue →
       max_with_zero
         (cpu_time_after 0 (take k Samples.noisy_lifetime) Samples.parent_world)
         (readings (take k Samples.noisy_lifetime)))
  ∧ (∀ i j, (i ≤ j)%nat →
       ge (cpu_time_after 0 (take j Samples.noisy_lifetime) Samples.parent_world)
          (cpu_time_after 0 (take i Samples.noisy_lifetime) Samples.parent_world)
       = true)
  ∧ ((run_body 0 Samples.noisy_lifetime Samples.parent_world).2 = Ok Finished →
       files (exec (run_body 0 Samples.noisy_lifetime) Samples.parent_world)
         !! cputime_path Samples.parent
         = Some (str (cpu_time_after 0 Samples.noisy_lifetime Samples.parent_world)
                 +:+ NL)
       ∧ ∀ k, ge (cpu_time_after 0 Samples.noisy_lifetime Samples.parent_world)
                 (cpu_time_after 0 (take k Samples.noisy_lifetime)
                    Samples.parent_world)
               = true).
Proof.
  split; [vm_compute; reflexivity|]. split; [vm_compute; lia|].
  split; [vm_compute; reflexivity|]. split; [vm_compute; reflexivity|].
  apply (cpu_time_maximum_with_zero 0 Samples.noisy_lifetime Samples.parent_world
           Samples.parent).
  - vm_compute; reflexivity.
  - vm_compute; lia.
  - vm_compute; reflexivity.
  - vm_compute; reflexivity.
Defined.

Example scan_gone_runs_teardown_example :
  let cv := pass_view 8 (Raise NoSuchProcess) in
  let w := Samples.parent_world in
  let w' := exec (run_body 0 [cv]) w in
  (run_body 0 [cv] w).2 = Ok Finished
  ∧ files w' !! cputime_path Samples.parent
    = Some (str (updated (_cached_last_cpu_time Samples.parent)
                   (cv_cpu_time cv)) +:+ NL)
  ∧ (trace_pid Samples.parent ∉ dom (_DISPATCHERS w')).
Proof.
  cbn zeta.
  apply (scan_gone_runs_teardown 0 (pass_view 8 (Raise NoSuchProcess)) []
           Samples.parent_world Samples.parent NoSuchProcess).
  - vm_compute; reflexivity.
  - vm_compute; lia.
  - vm_compute; reflexivity.
  - vm_compute; reflexivity.
  - vm_compute; reflexivity.
  - vm_compute; reflexivity.
Qed.

End LoopExamples.


(** * Further properties *)

(** ** Exceptions of the numeric operations *)

Ltac system_update_reduce :=
  cbn beta iota zeta delta
    [fst snd negb SystemDispatcher.cached_cpu_percent
     SystemDispatcher.cached_vm_info SystemDispatcher.cached_swap_info].

Ltac system_update_step :=
  match goal with
  | |- context [negb (?b =? 0)] =>
      let E := fresh "E" in destruct (b =? 0) eqn:E; system_update_reduce
  | |- context [match ?r with Ok _ => _ | Raise _ => _ end] =>
      let E := fresh "E" in destruct r eqn:E; system_update_reduce
  end.

Ltac system_update_cases :=
  unfold SystemDispatcher._update_cache, SystemDispatcher.setitem, lift, modify,
    mbind, stmt_bind;
  system_update_reduce; repeat system_update_step.

Section ExceptionFacts.
Import PyFloat PyNum HumanReadable Statistics.

Lemma to_float_raises v e : to_float v = Raise e → e = OverflowError.
Proof.
  unfold to_float. destruct v as [n|x]; [|done].
  destruct (of_Z_round n); by intros [= <-].
Qed.

Lemma truediv_raises a b e :
  truediv a b = Raise e → e = ZeroDivisionError ∨ e = OverflowError.
Proof.
  unfold truediv, mbind, result_bind.
  repeat case_match; intros; simplify_eq; eauto using to_float_raises.
Qed.

Lemma mul_raises a b e : mul a b = Raise e → e = OverflowError.
Proof.
  unfold mul, mbind, result_bind.
  repeat case_match; intros; simplify_eq; eauto using to_float_raises.
Qed.

Lemma mean_raises data e :
  mean data = Raise e →
  (e = StatisticsError ∧ data = []) ∨ (e = OverflowError ∧ data ≠ []).
Proof.
  intros H. unfold mean in H.
  destruct data as [|x data]; [left; split; [congruence|done]|].
  right. split; [|done]. set (l := x :: data) in *.
  assert (Hn : Z.of_nat (length l) ≠ 0) by (subst l; simpl; lia).
  destruct (forallb is_finite l); unfold mbind, result_bind in H.
  - pose proof (ratio_sum_denominator l) as Hd.
    set (total := foldr _ _ l) in *.
    destruct (truediv _ _) as [q|e'] eqn:E.
    + by apply to_float_raises in H.
    + injection H as ->. destruct (truediv_raises _ _ _ E) as [-> | ->]; [|done].
      by apply (truediv_nonzero_int _ (total.2 * Z.of_nat (length l))
                  ltac:(lia)) in E.
  - destruct (truediv _ _) as [q|e'] eqn:E.
    + by apply to_float_raises in H.
    + injection H as ->. destruct (truediv_raises _ _ _ E) as [-> | ->]; [|done].
      by apply (truediv_nonzero_int _ (Z.of_nat (length l)) Hn) in E.
Qed.

End ExceptionFacts.

(** ** More on the byte-scaling routine *)

Ltac in_list :=
  repeat first [apply list_elem_of_here | apply list_elem_of_further].
Ltac not_in_list :=
  let H := fresh in
  intros H; repeat (apply elem_of_cons in H as [H|H]; [discriminate H|]);
  by apply elem_of_nil in H.

Section PrettyChars.

(** The decimal text of an integer is made of digits and a leading sign. *)
Lemma pretty_N_chars (P : ascii → Prop) (x : N) :
  (∀ d, (d < 10)%N → P (pretty_N_char d)) →
  Forall P (list_ascii_of_string (pretty x)).
Proof.
  intros HP.
  assert (Hgo : ∀ (y : N) s, Forall P (list_ascii_of_string s) →
                  Forall P (list_ascii_of_string (pretty_N_go y s))).
  { intros y. induction (N.lt_wf_0 y) as [y _ IH]; intros s Hs.
    destruct (decide (y = 0)%N) as [->|Hy]; [by rewrite pretty_N_go_0|].
    rewrite pretty_N_go_step by lia. apply IH.
    - apply N.div_lt; lia.
    - simpl. constructor; [|done]. apply HP. by apply N.mod_lt. }
  unfold pretty, pretty_N. case_decide.
  - simpl. constructor; [|done]. by apply (HP 0%N).
  - by apply Hgo.
Qed.

Lemma pretty_Z_chars (P : ascii → Prop) (n : Z) :
  (∀ d, (d < 10)%N → P (pretty_N_char d)) → P "-"%char →
  Forall P (list_ascii_of_string (pretty n)).
Proof.
  intros HP Hm. destruct n as [|p|p]; unfold pretty, pretty_Z.
  - simpl. constructor; [|done]. by apply (HP 0%N).
  - simpl. by apply pretty_N_chars.
  - simpl. constructor; [done|]. by apply pretty_N_chars.
Qed.

Lemma pretty_Z_not_nil (n : Z) : list_ascii_of_string (pretty n) ≠ [].
Proof.
  assert (Hgo : ∀ (y : N) s, s ≠ ""%string → pretty_N_go y s ≠ ""%string).
  { intros y. induction (N.lt_wf_0 y) as [y _ IH]; intros s Hs.
    destruct (decide (y = 0)%N) as [->|Hy]; [by rewrite pretty_N_go_0|].
    rewrite pretty_N_go_step by lia. apply IH; [apply N.div_lt; lia | done]. }
  assert (HN : ∀ x : N, list_ascii_of_string (pretty x) ≠ []).
  { intros x. unfold pretty, pretty_N. case_decide; [done|].
    rewrite pretty_N_go_step by lia. intros Hx.
    apply (Hgo (x `div` 10)%N (String (pretty_N_char (x `mod` 10)) "")); [done|].
    apply chars_inj. by rewrite Hx. }
  destruct n as [|p|p]; unfold pretty, pretty_Z; [done|apply HN|done].
Qed.

End PrettyChars.

Section HumanReadableMore.
Import PyFloat PyNum HumanReadable.

Lemma scale_raises budget dc_list base num step dc e :
  scale budget dc_list base num step dc = Raise e →
  e = ZeroDivisionError ∨ e = OverflowError.
Proof.
  revert num step dc. induction budget as [|budget IH]; intros num step dc; simpl; [done|].
  destruct (gt num (PyInt base)); [|done].
  unfold mbind, result_bind.
  destruct (truediv num (PyInt base)) as [q|e'] eqn:E; [apply IH|].
  intros [= ->]. by apply truediv_raises in E.
Qed.

(** The loop either leaves the number as it is, or divides it at least once:
    then the number is a float and the unit is further in the table, by at
    most the budget. *)
Lemma scale_Ok budget dc_list base num step dc v dc' :
  scale budget dc_list base num step dc = Ok (v, dc') →
  (v = num ∧ dc' = dc ∧ (budget = 0%nat ∨ gt num (PyInt base) = false))
  ∨ (gt num (PyInt base) = true
     ∧ ∃ k x, (step < k ≤ step + budget)%nat ∧ dc' = index dc_list k
              ∧ v = PyFloat x).
Proof.
  revert num step dc. induction budget as [|budget IH]; intros num step dc; simpl.
  { intros [= <- <-]. left. auto. }
  destruct (gt num (PyInt base)) eqn:Hgt; [|intros [= <- <-]; left; auto].
  unfold mbind, result_bind.
  destruct (truediv num (PyInt base)) as [q|e'] eqn:E; [|done].
  destruct (truediv_float _ _ _ E) as [x ->].
  intros H. right. split; [done|].
  destruct (IH _ _ _ H) as [(-> & -> & _)|(_ & k & y & Hk & -> & ->)].
  - exists (S step), x. split; [lia|done].
  - exists k, y. split; [lia|done].
Qed.

Lemma to_human_readable_Ok num base s :
  _to_human_readable num base = Ok s →
  ∃ dc_list,
    (base = 1024 ∧ dc_list = dc_list_1024 ∨ base = 1000 ∧ dc_list = dc_list_1000)
    ∧ ((gt num (PyInt base) = false ∧ s = str (round2 num) +:+ "B")
       ∨ (gt num (PyInt base) = true
          ∧ ∃ k x, (1 ≤ k ≤ 6)%nat
                   ∧ s = repr (round_ndigits 2 x) +:+ index dc_list k)).
Proof.
  unfold _to_human_readable.
  assert (Hcase : ∀ dc_list, length dc_list = 7%nat → index dc_list 0 = "B"%string →
    ('(num0, dc) ← scale (length dc_list - 1 - 0) dc_list base num 0 (index dc_list 0);
     Ok (str (round2 num0) +:+ dc)) = Ok s →
    (gt num (PyInt base) = false ∧ s = str (round2 num) +:+ "B")
    ∨ (gt num (PyInt base) = true
       ∧ ∃ k x, (1 ≤ k ≤ 6)%nat ∧ s = repr (round_ndigits 2 x) +:+ index dc_list k)).
  { intros dc_list Hlen H0. rewrite Hlen, H0. unfold mbind, result_bind.
    destruct (scale _ _ _ _ _ _) as [[v dc']|e] eqn:E; [|done].
    intros [= <-].
    destruct (scale_Ok _ _ _ _ _ _ _ _ E) as [(-> & -> & [?|Hg])|(Hg & k & x & Hk & -> & ->)].
    - done.
    - by left.
    - right. split; [done|]. exists k, x. split; [lia|done]. }
  destruct (base =? 1024) eqn:H1; [|destruct (base =? 1000) eqn:H2; [|done]].
  - apply Z.eqb_eq in H1. cbn [mbind result_bind]. intros H.
    exists dc_list_1024. split; [by left|]. by apply Hcase.
  - apply Z.eqb_eq in H2. cbn [mbind result_bind]. intros H.
    exists dc_list_1000. split; [by right|]. by apply Hcase.
Qed.

Lemma to_human_readable_raises num base e :
  _to_human_readable num base = Raise e →
  (e = ValueError ∧ base ≠ 1024 ∧ base ≠ 1000)
  ∨ (e = OverflowError ∧ (base = 1024 ∨ base = 1000)).
Proof.
  pose proof (to_human_readable_no_zero_division num base) as Hz.
  unfold _to_human_readable in *.
  destruct (base =? 1024) eqn:H1; [|destruct (base =? 1000) eqn:H2].
  - apply Z.eqb_eq in H1. cbn [mbind result_bind] in *.
    destruct (scale _ _ _ _ _ _) as [[v dc']|e'] eqn:E; [done|].
    intros [= <-]. right. split; [|by left].
    destruct (scale_raises _ _ _ _ _ _ _ E) as [-> | ->]; done.
  - apply Z.eqb_eq in H2. cbn [mbind result_bind] in *.
    destruct (scale _ _ _ _ _ _) as [[v dc']|e'] eqn:E; [done|].
    intros [= <-]. right. split; [|by right].
    destruct (scale_raises _ _ _ _ _ _ _ E) as [-> | ->]; done.
  - apply Z.eqb_neq in H1, H2. cbn. intros [= <-]. by left.
Qed.

End HumanReadableMore.

Section HumanReadableTheorems.
Import PyFloat PyNum HumanReadable.

Lemma unit_letter_not_numeral (c : ascii) (l : list ascii) (n : Z) :
  c ∈ ["i"; "K"; "M"; "G"; "T"; "P"; "E"]%char →
  l ++ [c] ≠ list_ascii_of_string (pretty n).
Proof.
  intros Hc Heq.
  pose proof (pretty_Z_chars (λ a, a ∉ ["i"; "K"; "M"; "G"; "T"; "P"; "E"]%char) n) as HP.
  rewrite <- Heq in HP. rewrite Forall_app, Forall_singleton in HP.
  apply HP; [| |done].
  - intros d Hd. unfold pretty_N_char. repeat case_match; not_in_list.
  - not_in_list.
Qed.

(** X1: [_to_human_readable] raises [ValueError] exactly for a base other
    than 1024 and 1000, whatever the number; the only other exception it can
    raise is [OverflowError], from the division of an integer beyond the
    range of floats. *)
Theorem to_human_readable_errors num base :
  (_to_human_readable num base = Raise ValueError ↔ base ≠ 1024 ∧ base ≠ 1000)
  ∧ ∀ e, _to_human_readable num base = Raise e →
         e = ValueError ∨ e = OverflowError.
Proof.
  split; [split|].
  - intros H. by destruct (to_human_readable_raises _ _ _ H) as [(_ & ? & ?)|[? _]].
  - intros [H1 H2]. unfold _to_human_readable.
    apply Z.eqb_neq in H1, H2. by rewrite H1, H2.
  - intros e H. destruct (to_human_readable_raises _ _ _ H) as [[-> _]|[-> _]]; auto.
Qed.

(** X2: an integer is written unscaled, as its decimal text followed by "B",
    exactly when it does not exceed the base: 1024 is still "1024B", a
    negative number is never scaled, and every integer above the base gets a
    larger unit. *)
Theorem to_human_readable_unscaled_iff n :
  (_to_human_readable (PyInt n) 1024 = Ok (pretty n +:+ "B") ↔ n <= 1024)
  ∧ (_to_human_readable (PyInt n) 1000 = Ok (pretty n +:+ "B") ↔ n <= 1000).
Proof.
  assert (H : ∀ base, base = 1024 ∨ base = 1000 →
    _to_human_readable (PyInt n) base = Ok (pretty n +:+ "B") ↔ n <= base).
  { intros base Hb. split; [|by apply to_human_readable_small].
    intros Hs. destruct (to_human_readable_Ok _ _ _ Hs) as (dc_list & Hdc & [[Hg _]|[_ Hsc]]).
    - unfold gt in Hg. simpl in Hg. apply Z.compare_le_iff.
      intros Hc. by rewrite Hc in Hg.
    - exfalso. destruct Hsc as (k & x & Hk & Heq).
      assert (∃ u c, c ∈ ["i"; "K"; "M"; "G"; "T"; "P"; "E"]%char
                ∧ index dc_list k = u +:+ String c "B") as (u & c & Hc & Hu).
      { destruct Hdc as [[_ ->]|[_ ->]];
          destruct k as [|[|[|[|[|[|[|k]]]]]]]; try lia; cbn.
        all: first [ by exists "K"%string, "i"%char; split; [in_list|]
                   | by exists "M"%string, "i"%char; split; [in_list|]
                   | by exists "G"%string, "i"%char; split; [in_list|]
                   | by exists "T"%string, "i"%char; split; [in_list|]
                   | by exists "P"%string, "i"%char; split; [in_list|]
                   | by exists "E"%string, "i"%char; split; [in_list|]
                   | by exists ""%string, "K"%char; split; [in_list|]
                   | by exists ""%string, "M"%char; split; [in_list|]
                   | by exists ""%string, "G"%char; split; [in_list|]
                   | by exists ""%string, "T"%char; split; [in_list|]
                   | by exists ""%string, "P"%char; split; [in_list|]
                   | by exists ""%string, "E"%char; split; [in_list|] ]. }
      rewrite Hu in Heq. apply (f_equal list_ascii_of_string) in Heq.
      rewrite !chars_app in Heq. cbn [list_ascii_of_string] in Heq.
      change ([c; "B"%char]) with ([c] ++ ["B"%char]) in Heq.
      rewrite !app_assoc in Heq. apply app_inj_2 in Heq as [Heq _]; [|done].
      symmetry in Heq. by apply unit_letter_not_numeral in Heq. }
  split; apply H; auto.
Qed.

(** X3: whatever the number, a result of [_to_human_readable] ends with a
    unit of the table of its base: the loop stops at the last unit, so the
    table is never indexed beyond its end; and a number above the base is
    written as a float rounded to two decimals. *)
Theorem to_human_readable_unit num base s :
  _to_human_readable num base = Ok s →
  ∃ t dc, s = t +:+ dc
    ∧ dc ∈ (if base =? 1024 then dc_list_1024 else dc_list_1000)
    ∧ (if gt num (PyInt base)
       then dc ≠ "B"%string ∧ ∃ x, t = repr (round_ndigits 2 x)
       else dc = "B"%string ∧ t = str (round2 num)).
Proof.
  intros Hs. destruct (to_human_readable_Ok _ _ _ Hs) as (dc_list & Hdc & Hcase).
  assert (Htab : (if base =? 1024 then dc_list_1024 else dc_list_1000) = dc_list).
  { by destruct Hdc as [[-> ->]|[-> ->]]. }
  rewrite Htab.
  destruct Hcase as [[Hg ->]|(Hg & k & x & Hk & ->)]; rewrite Hg.
  - exists (str (round2 num)), "B"%string. split; [done|]. split; [|done].
    destruct Hdc as [[_ ->]|[_ ->]]; in_list.
  - exists (repr (round_ndigits 2 x)), (index dc_list k). split; [done|].
    destruct Hdc as [[_ ->]|[_ ->]];
      destruct k as [|[|[|[|[|[|[|k]]]]]]]; try lia; cbn;
      (split; [in_list|]); (split; [done|by exists x]).
Qed.

End HumanReadableTheorems.

(** ** More on the system frontend cache *)

Ltac build_writes :=
  lazymatch goal with
  | |- (<[?k:=?v]> ?m, _) = (foldr _ _ ?ws, _) =>
      let ws' := fresh "ws" in
      evar (ws' : list (string * string));
      unify ws ((k, v) :: ws'); subst ws';
      cbn [foldr fst snd];
      apply (f_equal2 pair); [apply (f_equal (insert k v))|reflexivity];
      build_writes_map
  | |- (?c, _) = (foldr _ ?c ?ws, _) =>
      unify ws (@nil (string * string)); reflexivity
  end
with build_writes_map :=
  lazymatch goal with
  | |- <[?k:=?v]> ?m = foldr _ _ ?ws =>
      let ws' := fresh "ws" in
      evar (ws' : list (string * string));
      unify ws ((k, v) :: ws'); subst ws';
      cbn [foldr fst snd];
      apply (f_equal (insert k v));
      build_writes_map
  | |- ?c = foldr _ ?c ?ws =>
      unify ws (@nil (string * string)); reflexivity
  end.

Section SystemCacheMore.
Import PyFloat PyNum HumanReadable SystemDispatcher.

Lemma last_char_neq (s t : string) (c d : ascii) :
  c ≠ d → s +:+ String c "" ≠ t +:+ String d "".
Proof.
  intros Hcd H. apply string_app_inj_suffix in H as [_ H]; [|done].
  by injection H.
Qed.

Lemma percent_text_not_NA (t : string) : t +:+ "%" ≠ "NA"%string.
Proof. by apply (last_char_neq t "N" "%" "A"). Qed.

Lemma to_human_readable_not_NA num base s :
  _to_human_readable num base = Ok s → s ≠ "NA"%string.
Proof.
  intros Hs.
  assert (∃ t u, s = t +:+ (u +:+ "B")) as (t & u & ->).
  { destruct (to_human_readable_Ok _ _ _ Hs)
      as (dc_list & Hdc & [[_ ->]|(_ & k & x & Hk & ->)]).
    - by exists (str (round2 num)), ""%string.
    - exists (repr (round_ndigits 2 x)).
      destruct Hdc as [[_ ->]|[_ ->]];
        destruct k as [|[|[|[|[|[|[|k]]]]]]]; try lia; cbn;
        first [by exists "K"%string | by exists "M"%string
              | by exists "G"%string | by exists "T"%string | by exists "P"%string
              | by exists "E"%string | by exists "Ki"%string | by exists "Mi"%string
              | by exists "Gi"%string | by exists "Ti"%string | by exists "Pi"%string
              | by exists "Ei"%string]. }
  intros H. apply (last_char_neq (t +:+ u) "N" "B" "A"); [done|].
  transitivity (t +:+ (u +:+ "B")); [|exact H].
  apply chars_inj. by rewrite !chars_app, app_assoc.
Qed.

(** What a rebuild does, whatever the dictionary it is applied to: a list of
    writes, the last one first, and an outcome.  Both depend on the values
    cached by the pollers only. *)
Lemma system_update_writes (p : pool) :
  ∃ (ws : list (string * string)) (r : result unit),
    (∀ c, _update_cache p c = (foldr (λ kv m, <[kv.1:=kv.2]> m) c ws, r))
    ∧ Forall (λ kv, is_Some (_setup_cache !! kv.1) ∧ kv.2 ≠ "NA"%string) ws
    ∧ (r = Ok () →
       ws.*1 = ["SWAP_PERCENT"; "SWAP_TOTAL"; "SWAP_AVAIL"; "SHARED"; "BUFFERED";
                "VM_PERCENT"; "VM_TOTAL"; "VM_AVAIL"; "CPU%"]%string)
    ∧ (∀ e, r = Raise e →
         (e = StatisticsError ∧ cached_cpu_percent p = [] ∧ ws = [])
         ∨ e = OverflowError)
    ∧ (cached_cpu_percent p = [] → r = Raise StatisticsError).
Proof.
  destruct p as [cpu [[[mem0 mem1] mem2] mem3] [swap0 swap1]].
  system_update_cases.
  all: eexists _, _; split; [intros c; build_writes|].
  all: split;
    [repeat constructor; cbn [fst snd];
     first [ by eexists; vm_compute; reflexivity
           | by eapply to_human_readable_not_NA
           | apply percent_text_not_NA
           | apply (percent_text_not_NA "0.00") ]|].
  all: split; [intros Hr; first [reflexivity | discriminate Hr]|].
  all: cbn [cached_cpu_percent].
  all: split;
    [intros e0 Hr; first [discriminate Hr | injection Hr as <-]
    |intros ->;
     match goal with
     | E : Statistics.mean [] = _ |- _ => cbn in E; first [discriminate E | by injection E as <-]
     end].
  all: repeat match goal with
       | E : (_ =? 0) = false |- _ => apply Z.eqb_neq in E
       end.
  all: match goal with
       | E : Statistics.mean _ = Raise _ |- _ =>
           destruct (mean_raises _ _ E) as [[-> ->]|[-> _]]; [left|right]; done
       | E : _to_human_readable _ 1024 = Raise _ |- _ =>
           destruct (to_human_readable_raises _ _ _ E) as [(_ & ? & _)|[-> _]];
           [done|by right]
       | E : mul _ _ = Raise _ |- _ =>
           right; by apply mul_raises in E
       | E : truediv _ (PyInt ?n) = Raise _, Hn : ?n ≠ 0 |- _ =>
           destruct (truediv_raises _ _ _ E) as [-> | ->];
           [by apply (truediv_nonzero_int _ n Hn) in E | by right]
       end.
Qed.

Lemma lookup_writes_ne (k : string) ws (c : cache) :
  k ∉ ws.*1 → foldr (λ kv m, <[kv.1:=kv.2]> m) c ws !! k = c !! k.
Proof.
  induction ws as [|[k' v] ws IH]; [done|]. cbn [foldr fmap list_fmap fst snd].
  rewrite not_elem_of_cons. intros [Hne Hin].
  rewrite lookup_insert_ne by done. by apply IH.
Qed.

Lemma lookup_writes_in (k : string) ws (c : cache) :
  k ∈ ws.*1 →
  ∃ v, (k, v) ∈ ws ∧ ∀ c' : cache, foldr (λ kv m, <[kv.1:=kv.2]> m) c' ws !! k = Some v.
Proof.
  induction ws as [|[k' v] ws IH]; cbn [foldr fmap list_fmap fst snd].
  { intros H. by apply elem_of_nil in H. }
  destruct (decide (k' = k)) as [->|Hne].
  - intros _. exists v. split; [apply list_elem_of_here|].
    intros c'. apply lookup_insert_eq.
  - rewrite elem_of_cons. intros [->|Hin]; [done|].
    destruct (IH Hin) as (v' & Hv' & Hl). exists v'.
    split; [by apply list_elem_of_further|].
    intros c'. by rewrite lookup_insert_ne.
Qed.

Lemma writes_agree ws (c1 c2 : cache) :
  (∀ k, k ∉ ws.*1 → c1 !! k = c2 !! k) →
  foldr (λ kv m, <[kv.1:=kv.2]> m) c1 ws = foldr (λ kv m, <[kv.1:=kv.2]> m) c2 ws.
Proof.
  intros H. apply map_eq. intros k.
  destruct (decide (k ∈ ws.*1)) as [Hin|Hnin].
  - destruct (lookup_writes_in k ws c1 Hin) as (v & _ & Hv). by rewrite !Hv.
  - rewrite !lookup_writes_ne by done. by apply H.
Qed.

Lemma dom_writes ws (c : cache) :
  dom (foldr (λ kv m, <[kv.1:=kv.2]> m) c ws) = list_to_set ws.*1 ∪ dom c.
Proof.
  induction ws as [|[k v] ws IH]; simpl.
  - by rewrite (left_id_L ∅ (∪)).
  - by rewrite dom_insert_L, IH, (assoc_L (∪)).
Qed.

Lemma system_update_other_keys (p : pool) (c : cache) (k : string) :
  _setup_cache !! k = None → (_update_cache p c).1 !! k = c !! k.
Proof.
  destruct (system_update_writes p) as (ws & r & Hw & Hkeys & _).
  rewrite Hw. cbn [fst]. intros Hk. apply lookup_writes_ne. intros Hin.
  apply list_elem_of_fmap in Hin as (kv & -> & Hin).
  rewrite Forall_forall in Hkeys. destruct (Hkeys kv Hin) as [[v Hv] _].
  congruence.
Qed.

(** X4: a rebuild of the system cache, completed or interrupted by an
    exception, writes to the nine keys of [_setup_cache] only: every other
    entry of the dictionary is left as it was, and no key is removed; after a
    completed rebuild the keys are those it had together with the nine. *)
Theorem system_update_footprint (p : pool) (c : cache) :
  let c' := (_update_cache p c).1 in
  (∀ k, _setup_cache !! k = None → c' !! k = c !! k)
  ∧ dom c ⊆ dom c'
  ∧ ((_update_cache p c).2 = Ok () → dom c' = dom c ∪ dom _setup_cache).
Proof.
  destruct (system_update_writes p) as (ws & r & Hw & Hkeys & Hok & _).
  cbn zeta. split; [intros k; apply system_update_other_keys|].
  rewrite Hw. cbn [fst snd]. split.
  - rewrite dom_writes. apply union_subseteq_r.
  - intros Hr. rewrite dom_writes, (Hok Hr). unfold _setup_cache.
    rewrite dom_list_to_map_L. cbn [fmap list_fmap fst].
    rewrite (comm_L (∪) (dom c)). apply (f_equal (λ X : gset string, X ∪ dom c)).
    apply set_eq. intros k. rewrite !elem_of_list_to_set.
    change ["SWAP_PERCENT"; "SWAP_TOTAL"; "SWAP_AVAIL"; "SHARED"; "BUFFERED";
            "VM_PERCENT"; "VM_TOTAL"; "VM_AVAIL"; "CPU%"]%string
      with (reverse ["CPU%"; "VM_AVAIL"; "VM_TOTAL"; "VM_PERCENT"; "BUFFERED";
                     "SHARED"; "SWAP_AVAIL"; "SWAP_TOTAL"; "SWAP_PERCENT"]%string).
    apply elem_of_reverse.
Qed.

(** X5: a completed rebuild overwrites whatever an earlier rebuild, completed
    or not, has written: the dictionary after it is the one that it alone
    gives.  In particular a rebuild from the same cached values is
    idempotent. *)
Theorem system_update_overwrites (p1 p2 : pool) (c : cache) :
  (_update_cache p2 c).2 = Ok () →
  _update_cache p2 (_update_cache p1 c).1 = _update_cache p2 c.
Proof.
  destruct (system_update_writes p2) as (ws & r & Hw & Hkeys & Hok & _).
  rewrite !Hw. cbn [snd]. intros Hr. f_equal.
  apply writes_agree. intros k Hk. apply system_update_other_keys.
  destruct (_setup_cache !! k) as [v|] eqn:Hs; [|done].
  exfalso. apply Hk. rewrite (Hok Hr).
  assert (Hin : k ∈ ["CPU%"; "VM_AVAIL"; "VM_TOTAL"; "VM_PERCENT"; "BUFFERED";
                     "SHARED"; "SWAP_AVAIL"; "SWAP_TOTAL"; "SWAP_PERCENT"]%string).
  { unfold _setup_cache in Hs. apply elem_of_list_to_map_2 in Hs.
    apply (list_elem_of_fmap_2 fst) in Hs. exact Hs. }
  apply elem_of_reverse in Hin. exact Hin.
Qed.

(** X6: after a completed rebuild none of the nine entries of the system
    cache holds the placeholder "NA" that [_setup_cache] gave it. *)
Theorem system_update_no_placeholder (p : pool) (c : cache) (k : string) :
  (_update_cache p c).2 = Ok () → is_Some (_setup_cache !! k) →
  ∃ v, (_update_cache p c).1 !! k = Some v ∧ v ≠ "NA"%string.
Proof.
  destruct (system_update_writes p) as (ws & r & Hw & Hkeys & Hok & _).
  rewrite Hw. cbn [fst snd]. intros Hr [v0 Hs].
  assert (Hin : k ∈ ws.*1).
  { rewrite (Hok Hr).
    unfold _setup_cache in Hs. apply elem_of_list_to_map_2 in Hs.
    apply (list_elem_of_fmap_2 fst) in Hs. apply elem_of_reverse in Hs. exact Hs. }
  destruct (lookup_writes_in k ws c Hin) as (v & Hv & Hl).
  exists v. split; [apply Hl|].
  rewrite Forall_forall in Hkeys. by destruct (Hkeys _ Hv) as [_ ?].
Qed.

(** X7: a rebuild of the system cache raises [StatisticsError] exactly when
    the list of per-core percentages is empty, and then the dictionary is
    left untouched; the only other exception it can raise is
    [OverflowError]. *)
Theorem system_update_errors (p : pool) (c : cache) :
  ((_update_cache p c).2 = Raise StatisticsError ↔ cached_cpu_percent p = [])
  ∧ (cached_cpu_percent p = [] → (_update_cache p c).1 = c)
  ∧ ∀ e, (_update_cache p c).2 = Raise e →
         e = StatisticsError ∨ e = OverflowError.
Proof.
  destruct (system_update_writes p) as (ws & r & Hw & _ & _ & Hraise & Hempty).
  rewrite Hw. cbn [fst snd]. split; [split|split].
  - intros Hr. by destruct (Hraise _ Hr) as [(_ & ? & _)|?].
  - exact Hempty.
  - intros He. destruct (Hraise _ (Hempty He)) as [(_ & _ & ->)|?]; done.
  - intros e Hr. destruct (Hraise _ Hr) as [(-> & _) | ->]; auto.
Qed.

End SystemCacheMore.

(** ** Running the constructor step by step *)

Section ObjectSteps.
Import PyNum HumanReadable DispatcherController ProcessDispatcher.

Lemma getattr_insert self d R A F L O N :
  getattr self (World R A F L (<[self:=d]> O) N)
  = (World R A F L (<[self:=d]> O) N, Ok d).
Proof. unfold getattr. cbn. by rewrite lookup_insert_eq. Qed.

Lemma update_insert self f d R A F L O N :
  update self f (World R A F L (<[self:=d]> O) N)
  = (World R A F L (<[self:=f d]> O) N, Ok ()).
Proof. unfold update, modify, set_objects. cbn. by rewrite alter_insert_eq. Qed.

(** A loop of writes to a file that is open appends the lines in order and
    never raises. *)
Lemma for_each_write {X} (l : list X) (body : X → stmt world unit)
    (path : string) (row : X → string) s R A F L O N :
  (∀ x, body x = write path (row x)) →
  for_each l body (World R A (<[path:=s]> F) L O N)
  = (World R A (<[path:=s +:+ join "" (row <$> l)]> F) L O N, Ok ()).
Proof.
  intros Hb. revert s. induction l as [|x l IH]; intros s.
  - cbn [for_each fmap list_fmap]. unfold mret, stmt_ret, join.
    change (String.concat "" []) with ""%string.
    assert (Hs : s +:+ "" = s).
    { apply chars_inj. rewrite chars_app. apply app_nil_r. }
    by rewrite Hs.
  - cbn [for_each]. unfold mbind, stmt_bind. rewrite Hb.
    unfold write at 1. unfold modify, set_files.
    cbn [files _DISPATCHERS _ALL_PIDS log objects next_id].
    rewrite lookup_insert_eq, insert_insert_eq. cbn [default]. rewrite IH.
    assert (Hs : (s +:+ row x) +:+ join "" (row <$> l)
                 = s +:+ join "" (row <$> x :: l)).
    { apply chars_inj. unfold join. rewrite fmap_cons.
      generalize (row <$> l). intros [|y l'].
      - change (String.concat "" [row x]) with (row x).
        change (String.concat "" []) with ""%string.
        rewrite !chars_app. change (list_ascii_of_string "") with (@nil ascii).
        by rewrite app_nil_r.
      - change (String.concat "" (row x :: y :: l'))
          with (row x +:+ String.concat "" (y :: l')).
        rewrite !chars_app. by rewrite app_assoc. }
    unfold id. by rewrite Hs.
Qed.

End ObjectSteps.

Ltac world_simpl :=
  lazy beta iota zeta delta
    [fst snd default
     set_files set_log set_ALL_PIDS set_DISPATCHERS set_next_id set_objects
     _DISPATCHERS _ALL_PIDS files log objects next_id].

Section MethodEquations.
Import PyNum HumanReadable DispatcherController ProcessDispatcher.

Lemma _write_env_equation self d pv R A F L O N :
  let w := World R A F L (<[self:=d]> O) N in
  let path := basename d +:+ "." +:+ pretty (trace_pid d) +:+ ".env.tsv" in
  let header := join TAB ["NAME"; "VALUE"] +:+ NL in
  _write_env self pv w =
    match pv_environ pv with
    | Ok env =>
        (World R A
           (<[path:=header +:+ join "" ((λ '(n, v), join TAB [n; v] +:+ NL) <$> env)]> F)
           L (<[self:=d]> O) N, Ok ())
    | Raise e =>
        if PSUTIL_NOTFOUND_ERRORS e then
          (World R A (<[path:=header]> F)
             (L ++ [(ERROR, "TRACEE=" +:+ pretty (trace_pid d) +:+ ": "
                            +:+ exn_name e +:+ " encountered!")])
             (<[self:=d]> O) N, Raise e)
        else (World R A (<[path:=header]> F) L (<[self:=d]> O) N, Raise e)
    end.
Proof.
  cbn zeta. unfold _write_env, try_except, tracee_error.
  unfold mbind at 1 2 3. unfold stmt_bind at 1 2 3.
  rewrite getattr_insert. unfold open_w at 1. unfold modify at 1. world_simpl.
  unfold write at 1. unfold modify at 1. world_simpl.
  rewrite lookup_insert_eq, insert_insert_eq. world_simpl.
  unfold lift at 1. unfold mbind at 1, stmt_bind at 1.
  destruct (pv_environ pv) as [env|e].
  - erewrite (for_each_write env _ _ (λ '(n, v), join TAB [n; v] +:+ NL)).
    + reflexivity.
    + by intros [n v].
  - destruct (PSUTIL_NOTFOUND_ERRORS e); [|reflexivity].
    unfold mbind, stmt_bind. rewrite getattr_insert.
    unfold logging, modify, lift. world_simpl. reflexivity.
Qed.

Lemma _write_mapfile_equation self d pv R A F L O N :
  let w := World R A F L (<[self:=d]> O) N in
  let path := basename d +:+ "." +:+ pretty (trace_pid d) +:+ ".mapfile.tsv" in
  let header := join TAB ["PATH"; "RESIDENT"; "VIRT"; "SWAP"] +:+ NL in
  _write_mapfile self pv w =
    match pv_memory_maps pv with
    | Ok maps =>
        (World R A
           (<[path:=header +:+ join "" ((λ item,
                join TAB [mm_path item; str (PyInt (mm_rss item));
                          str (PyInt (mm_size item));
                          str (PyInt (mm_swap item))] +:+ NL) <$> maps)]> F)
           L (<[self:=d]> O) N, Ok ())
    | Raise e =>
        if PSUTIL_NOTFOUND_ERRORS e then
          (World R A (<[path:=header]> F)
             (L ++ [(ERROR, "TRACEE=" +:+ pretty (trace_pid d) +:+ ": "
                            +:+ exn_name e +:+ " encountered!")])
             (<[self:=d]> O) N, Raise e)
        else (World R A (<[path:=header]> F) L (<[self:=d]> O) N, Raise e)
    end.
Proof.
  cbn zeta. unfold _write_mapfile, try_except, tracee_error.
  unfold mbind at 1 2 3. unfold stmt_bind at 1 2 3.
  rewrite getattr_insert. unfold open_w at 1. unfold modify at 1. world_simpl.
  unfold write at 1. unfold modify at 1. world_simpl.
  rewrite lookup_insert_eq, insert_insert_eq. world_simpl.
  unfold lift at 1. unfold mbind at 1, stmt_bind at 1.
  destruct (pv_memory_maps pv) as [maps|e].
  - erewrite for_each_write; [reflexivity|done].
  - destruct (PSUTIL_NOTFOUND_ERRORS e); [|reflexivity].
    unfold mbind, stmt_bind. rewrite getattr_insert.
    unfold logging, modify, lift. world_simpl. reflexivity.
Qed.

(** The line of the registry file: the three queries are made in order after
    the file has been opened for appending. *)
Lemma _write_registry_equation self d pv R A F L O N :
  let w := World R A F L (<[self:=d]> O) N in
  let path := basename d +:+ ".reg.tsv" in
  let old := default ""%string (F !! path) in
  _write_registry self pv w =
    match (cmdline ← pv_cmdline pv; exe ← pv_exe pv; cwd ← pv_cwd pv;
           Ok (join TAB [pv_timestamp pv; str (PyInt (trace_pid d));
                         join " " cmdline; exe; cwd] +:+ NL)) with
    | Ok line =>
        (World R A (<[path:=old +:+ line]> F) L (<[self:=d]> O) N, Ok ())
    | Raise e =>
        if PSUTIL_NOTFOUND_ERRORS e then
          (World R A (<[path:=old]> F)
             (L ++ [(ERROR, "TRACEE=" +:+ pretty (trace_pid d) +:+ ": "
                            +:+ exn_name e +:+ " encountered!")])
             (<[self:=d]> O) N, Raise e)
        else (World R A (<[path:=old]> F) L (<[self:=d]> O) N, Raise e)
    end.
Proof.
  cbn zeta. unfold _write_registry, try_except.
  unfold mbind at 1 2. unfold stmt_bind at 1 2.
  rewrite getattr_insert. unfold open_a at 1. unfold modify at 1. world_simpl.
  destruct (pv_cmdline pv) as [cmdline|e]; [|];
    [destruct (pv_exe pv) as [exe|e]; [|];
       [destruct (pv_cwd pv) as [cwd|e]; [|]|]|].
  all: unfold tracee_error, lift, write, logging, modify, mbind, stmt_bind,
         result_bind; world_simpl.
  all: try (destruct (PSUTIL_NOTFOUND_ERRORS e); [|reflexivity]).
  all: rewrite ?getattr_insert; world_simpl.
  all: by rewrite ?lookup_insert_eq, ?insert_insert_eq.
Qed.

Lemma _setup_cache_equation self d pv R A F L O N :
  let d1 := set_frontend_cache (λ _, list_to_map
      [("PID", str (PyInt (trace_pid d))); ("PPID", "NA"); ("NAME", "NA");
       ("CPU%", "NA"); ("STAT", "NA"); ("CPU_TIME", str (PyInt 0));
       ("RESIDENT_MEM", "NA"); ("NUM_THREADS", "NA");
       ("NUM_CHILD_PROCESS", "NA")]%string)
    (set_cached_last_cpu_time (PyInt 0) d) in
  _setup_cache self pv (World R A F L (<[self:=d]> O) N) =
    match pv_name pv with
    | Raise e => (World R A F L (<[self:=d1]> O) N, Raise e)
    | Ok name =>
        let d2 := set_frontend_cache <["NAME"%string:=name]> d1 in
        match pv_ppid pv with
        | Raise e => (World R A F L (<[self:=d2]> O) N, Raise e)
        | Ok ppid =>
            (World R A F L
               (<[self:=set_frontend_cache <["PPID"%string:=str (PyInt ppid)]> d2]> O)
               N, Ok ())
        end
    end.
Proof.
  cbn zeta. unfold _setup_cache, try_except, setitem.
  unfold mbind at 1 2 3. unfold stmt_bind at 1 2 3.
  rewrite update_insert, getattr_insert, update_insert.
  destruct (pv_name pv) as [name|e]; [destruct (pv_ppid pv) as [ppid|e]|].
  all: unfold lift, mbind, stmt_bind; rewrite ?update_insert.
  all: try (destruct (PSUTIL_NOTFOUND_ERRORS e)); reflexivity.
Qed.

End MethodEquations.

(** ** The constructor, path by path *)

Ltac init_simpl :=
  lazy beta iota zeta delta
    [fst snd default
     set_files set_log set_ALL_PIDS set_DISPATCHERS set_next_id set_objects
     _DISPATCHERS _ALL_PIDS files log objects next_id
     ProcessDispatcher.pv_Process ProcessDispatcher.pv_name
     ProcessDispatcher.pv_ppid ProcessDispatcher.pv_timestamp
     ProcessDispatcher.pv_cmdline ProcessDispatcher.pv_exe
     ProcessDispatcher.pv_cwd ProcessDispatcher.pv_environ
     ProcessDispatcher.pv_memory_maps
     ProcessDispatcher.set_trace_pid ProcessDispatcher.set_should_exit
     ProcessDispatcher.set_loaded_tracers ProcessDispatcher.set_tracer_kwargs
     ProcessDispatcher.set_thread_pool ProcessDispatcher.set_cached_last_cpu_time
     ProcessDispatcher.set_frontend_cache ProcessDispatcher.set_alive
     trace_pid basename should_exit loaded_tracers tracer_kwargs thread_pool
     _cached_last_cpu_time _frontend_cache alive
     mbind result_bind].

Ltac init_run :=
  unfold ProcessDispatcher.__init__, ProcessDispatcher.Base__init__,
    DispatcherController.register_dispatcher, ProcessDispatcher.start_tracers,
    try_except, ProcessDispatcher.tracee_error, logging, lift, modify,
    mbind, stmt_bind, mret, stmt_ret;
  repeat first
    [ rewrite getattr_insert | rewrite update_insert
    | rewrite _setup_cache_equation | rewrite _write_registry_equation
    | rewrite _write_env_equation | rewrite _write_mapfile_equation
    | rewrite decide_False by done
    | progress init_simpl ].

Section InitPaths.
Import PyNum HumanReadable DispatcherController ProcessDispatcher.

(** The constructor when every query is answered. *)
Lemma init_success_world pid b lt R A F L O N name ppid ts cmdline exe cwd env maps :
  pid ∉ dom R →
  let pv := {| pv_Process := Ok (); pv_name := Ok name; pv_ppid := Ok ppid;
               pv_timestamp := ts; pv_cmdline := Ok cmdline; pv_exe := Ok exe;
               pv_cwd := Ok cwd; pv_environ := Ok env;
               pv_memory_maps := Ok maps |} in
  let tracers := default default_tracers lt in
  let cache : gmap string string :=
    <["PPID"%string:=str (PyInt ppid)]> (<["NAME"%string:=name]> (list_to_map
      [("PID", str (PyInt pid)); ("PPID", "NA"); ("NAME", "NA");
       ("CPU%", "NA"); ("STAT", "NA"); ("CPU_TIME", str (PyInt 0));
       ("RESIDENT_MEM", "NA"); ("NUM_THREADS", "NA");
       ("NUM_CHILD_PROCESS", "NA")]%string)) in
  let d := Dispatcher pid b false tracers {["trace_pid"%string := pid]} tracers
             (PyInt 0) cache false in
  let reg := b +:+ ".reg.tsv" in
  let envf := b +:+ "." +:+ pretty pid +:+ ".env.tsv" in
  let mapf := b +:+ "." +:+ pretty pid +:+ ".mapfile.tsv" in
  __init__ pid b lt pv (World R A F L O N) =
    (World (<[pid:=N]> R) ({[pid]} ∪ A)
       (<[mapf:=(join TAB ["PATH"; "RESIDENT"; "VIRT"; "SWAP"] +:+ NL)
                +:+ join "" ((λ item,
                      join TAB [mm_path item; str (PyInt (mm_rss item));
                                str (PyInt (mm_size item));
                                str (PyInt (mm_swap item))] +:+ NL) <$> maps)]>
          (<[envf:=(join TAB ["NAME"; "VALUE"] +:+ NL)
                   +:+ join "" ((λ '(n, v), join TAB [n; v] +:+ NL) <$> env)]>
             (<[reg:=default ""%string (F !! reg)
                     +:+ (join TAB [ts; str (PyInt pid); join " " cmdline; exe; cwd]
                          +:+ NL)]> F)))
       L (<[N:=d]> O) (S N), Ok N).
Proof.
  intros Hpid pv. subst pv. cbn zeta. init_run.
  unfold insert at 1, singletonM, map_singleton.
  destruct lt; reflexivity.
Qed.

Ltac init_paths :=
  repeat match goal with
  | |- context [match ?r with Ok _ => _ | Raise _ => _ end] =>
      is_var r; destruct r as [?|?]; init_run
  | |- context [if PSUTIL_NOTFOUND_ERRORS ?e then _ else _] =>
      destruct (PSUTIL_NOTFOUND_ERRORS e) eqn:?; init_run
  end.

(** X8: whatever the outcome of the constructor, a pid that was not
    registered is registered to the new object afterwards: no failure path
    removes the registration.  The new object is not alive, its poller pool
    is started exactly when the constructor returns, and no other object is
    touched. *)
Theorem init_registration_stays pid b lt pv w :
  pid ∉ dom (_DISPATCHERS w) →
  let w' := exec (__init__ pid b lt pv) w in
  let self := next_id w in
  _DISPATCHERS w' = <[pid:=self]> (_DISPATCHERS w)
  ∧ next_id w' = S self
  ∧ (∃ d, objects w' !! self = Some d
       ∧ trace_pid d = pid ∧ basename d = b ∧ alive d = false
       ∧ thread_pool d = match (__init__ pid b lt pv w).2 with
                         | Ok _ => default default_tracers lt
                         | Raise _ => []
                         end)
  ∧ ∀ t, t ≠ self → objects w' !! t = objects w !! t.
Proof.
  destruct w as [R A F L O N]. destruct pv as [p n pp ts c e cw en mm].
  unfold exec. cbn [_DISPATCHERS next_id objects]. intros Hpid. cbn zeta.
  init_run. init_paths.
  all: split; [reflexivity|]; split; [reflexivity|]; split;
    [eexists; split; [apply lookup_insert_eq|]; by destruct lt
    |intros t Ht; by apply lookup_insert_ne].
Qed.

(** X9: the constructor adds the pid to [_ALL_PIDS] exactly when the
    existence check, [psutil.Process] and the two queries of [_setup_cache],
    passes, whatever happens afterwards.  When the check fails the error
    reaches the caller, no file is created or written, and one error that
    names the pid is logged if the error is a not-found error. *)
Theorem init_existence_check pid b lt pv w :
  pid ∉ dom (_DISPATCHERS w) →
  let w' := exec (__init__ pid b lt pv) w in
  match (pv_Process pv ≫= λ _, pv_name pv ≫= λ _, pv_ppid pv ≫= λ _, Ok ()) with
  | Ok _ => _ALL_PIDS w' = {[pid]} ∪ _ALL_PIDS w
  | Raise e =>
      (__init__ pid b lt pv w).2 = Raise e
      ∧ _ALL_PIDS w' = _ALL_PIDS w
      ∧ files w' = files w
      ∧ log w' = log w ++
          (if PSUTIL_NOTFOUND_ERRORS e
           then [(ERROR, "TRACEE=" +:+ pretty pid +:+ ": " +:+ exn_name e
                         +:+ " encountered!")]
           else [])
  end.
Proof.
  destruct w as [R A F L O N]. destruct pv as [p n pp ts c e cw en mm].
  unfold exec. cbn [_DISPATCHERS _ALL_PIDS files log]. intros Hpid. cbn zeta.
  init_run. init_paths.
  all: first [reflexivity | by rewrite ?app_nil_r].
Qed.

(** X10: when every query is answered, the constructor appends one line to
    the registry file of the run, keeping what the file held, and replaces
    the environment table and the map table of the pid by a header and one
    row per variable and per mapped region, in order; it touches no other
    file and logs nothing. *)
Theorem init_files pid b lt w name ppid ts cmdline exe cwd env maps :
  pid ∉ dom (_DISPATCHERS w) →
  let pv := {| pv_Process := Ok (); pv_name := Ok name; pv_ppid := Ok ppid;
               pv_timestamp := ts; pv_cmdline := Ok cmdline; pv_exe := Ok exe;
               pv_cwd := Ok cwd; pv_environ := Ok env;
               pv_memory_maps := Ok maps |} in
  let w' := exec (__init__ pid b lt pv) w in
  let reg := b +:+ ".reg.tsv" in
  let envf := b +:+ "." +:+ pretty pid +:+ ".env.tsv" in
  let mapf := b +:+ "." +:+ pretty pid +:+ ".mapfile.tsv" in
  files w' =
    <[mapf:=(join TAB ["PATH"; "RESIDENT"; "VIRT"; "SWAP"] +:+ NL)
            +:+ join "" ((λ item,
                  join TAB [mm_path item; pretty (mm_rss item);
                            pretty (mm_size item); pretty (mm_swap item)]
                  +:+ NL) <$> maps)]>
      (<[envf:=(join TAB ["NAME"; "VALUE"] +:+ NL)
               +:+ join "" ((λ '(n, v), join TAB [n; v] +:+ NL) <$> env)]>
         (<[reg:=default ""%string (files w !! reg)
                 +:+ (join TAB [ts; pretty pid; join " " cmdline; exe; cwd]
                      +:+ NL)]> (files w)))
  ∧ log w' = log w.
Proof.
  destruct w as [R A F L O N]. cbn [_DISPATCHERS files log]. intros Hpid.
  cbn zeta. unfold exec.
  by rewrite (init_success_world pid b lt R A F L O N name ppid ts cmdline exe cwd
                env maps Hpid).
Qed.

(** X11: when every query is answered, the constructor returns the new
    object, registered under the pid, with the pid in [_ALL_PIDS]; its cache
    holds the pid, the name and the parent pid of the process, a CPU time of
    0 and "NA" for the five values that the first rebuild fills in; its
    poller pool holds the loaded tracers, the default seven when none are
    given. *)
Theorem init_attaches pid b lt w name ppid ts cmdline exe cwd env maps :
  pid ∉ dom (_DISPATCHERS w) →
  let pv := {| pv_Process := Ok (); pv_name := Ok name; pv_ppid := Ok ppid;
               pv_timestamp := ts; pv_cmdline := Ok cmdline; pv_exe := Ok exe;
               pv_cwd := Ok cwd; pv_environ := Ok env;
               pv_memory_maps := Ok maps |} in
  let w' := exec (__init__ pid b lt pv) w in
  let self := next_id w in
  let tracers := default default_tracers lt in
  (__init__ pid b lt pv w).2 = Ok self
  ∧ _DISPATCHERS w' !! pid = Some self
  ∧ pid ∈ _ALL_PIDS w'
  ∧ objects w' !! self =
      Some (Dispatcher pid b false tracers {["trace_pid"%string := pid]} tracers
              (PyInt 0)
              (list_to_map
                 [("PID", pretty pid); ("PPID", pretty ppid); ("NAME", name);
                  ("CPU%", "NA"); ("STAT", "NA"); ("CPU_TIME", "0");
                  ("RESIDENT_MEM", "NA"); ("NUM_THREADS", "NA");
                  ("NUM_CHILD_PROCESS", "NA")]%string)
              false).
Proof.
  destruct w as [R A F L O N]. cbn [_DISPATCHERS next_id]. intros Hpid.
  cbn zeta. unfold exec.
  rewrite (init_success_world pid b lt R A F L O N name ppid ts cmdline exe cwd
             env maps Hpid).
  cbn [fst snd _DISPATCHERS _ALL_PIDS objects].
  split; [reflexivity|]. split; [apply lookup_insert_eq|].
  split; [apply elem_of_union_l, elem_of_singleton; reflexivity|].
  rewrite lookup_insert_eq. reflexivity.
Qed.

(** The registry after the constructor, whatever its outcome. *)
Lemma init_registry pid b lt pv w :
  pid ∉ dom (_DISPATCHERS w) →
  _DISPATCHERS (exec (__init__ pid b lt pv) w) = <[pid:=next_id w]> (_DISPATCHERS w).
Proof.
  destruct w as [R A F L O N]. destruct pv as [p n pp ts c e cw en mm].
  unfold exec. cbn [_DISPATCHERS next_id]. intros Hpid.
  init_run. init_paths.
  all: reflexivity.
Qed.

End InitPaths.

(** ** Examples of the further properties *)

Section FurtherExamples.
Import PyFloat PyNum HumanReadable DispatcherController ProcessDispatcher.

Lemma to_human_readable_unit_witness :
  _to_human_readable (PyInt 2048) 1024 = Ok "2.0KiB"%string
  ∧ ∃ t dc, "2.0KiB"%string = t +:+ dc
      ∧ dc ∈ (if 1024 =? 1024 then dc_list_1024 else dc_list_1000)
      ∧ (if gt (PyInt 2048) (PyInt 1024)
         then dc ≠ "B"%string ∧ ∃ x, t = repr (round_ndigits 2 x)
         else dc = "B"%string ∧ t = str (round2 (PyInt 2048))).
Proof.
  split; [vm_compute; reflexivity|].
  apply (to_human_readable_unit (PyInt 2048) 1024 "2.0KiB").
  vm_compute; reflexivity.
Defined.

Lemma system_update_overwrites_witness :
  (SystemDispatcher._update_cache Samples.system_pool
     SystemDispatcher._setup_cache).2 = Ok ()
  ∧ SystemDispatcher._update_cache Samples.system_pool
      (SystemDispatcher._update_cache Samples.system_pool
         SystemDispatcher._setup_cache).1
    = SystemDispatcher._update_cache Samples.system_pool
        SystemDispatcher._setup_cache.
Proof.
  split; [vm_compute; reflexivity|].
  apply (system_update_overwrites Samples.system_pool Samples.system_pool
           SystemDispatcher._setup_cache).
  vm_compute; reflexivity.
Defined.

Lemma system_update_no_placeholder_witness :
  (SystemDispatcher._update_cache Samples.system_pool
     SystemDispatcher._setup_cache).2 = Ok ()
  ∧ is_Some (SystemDispatcher._setup_cache !! "VM_PERCENT"%string)
  ∧ ∃ v, (SystemDispatcher._update_cache Samples.system_pool
            SystemDispatcher._setup_cache).1 !! "VM_PERCENT"%string = Some v
      ∧ v ≠ "NA"%string.
Proof.
  split; [vm_compute; reflexivity|].
  split; [exists "NA"%string; vm_compute; reflexivity|].
  apply (system_update_no_placeholder Samples.system_pool
           SystemDispatcher._setup_cache "VM_PERCENT").
  - vm_compute; reflexivity.
  - exists "NA"%string; vm_compute; reflexivity.
Defined.

Lemma init_registration_stays_witness :
  (7 ∉ dom (_DISPATCHERS empty_world))
  ∧ let w' := exec (__init__ 7 "out" None Samples.gone) empty_world in
    let self := next_id empty_world in
    _DISPATCHERS w' = <[7:=self]> (_DISPATCHERS empty_world)
    ∧ next_id w' = S self
    ∧ (∃ d, objects w' !! self = Some d
         ∧ trace_pid d = 7 ∧ basename d = "out"%string ∧ alive d = false
         ∧ thread_pool d = match (__init__ 7 "out" None Samples.gone empty_world).2 with
                           | Ok _ => default default_tracers None
                           | Raise _ => []
                           end)
    ∧ ∀ t, t ≠ self → objects w' !! t = objects empty_world !! t.
Proof.
  split; [refine (bool_decide_unpack _ _); vm_compute; exact I|].
  apply (init_registration_stays 7 "out" None Samples.gone empty_world).
  refine (bool_decide_unpack _ _); vm_compute; exact I.
Defined.

Lemma init_existence_check_witness :
  (7 ∉ dom (_DISPATCHERS empty_world))
  ∧ let w' := exec (__init__ 7 "out" None Samples.gone) empty_world in
    (__init__ 7 "out" None Samples.gone empty_world).2 = Raise NoSuchProcess
    ∧ _ALL_PIDS w' = _ALL_PIDS empty_world
    ∧ files w' = files empty_world
    ∧ log w' = log empty_world ++
        [(ERROR, "TRACEE=" +:+ pretty 7 +:+ ": " +:+ exn_name NoSuchProcess
                 +:+ " encountered!")].
Proof.
  split; [refine (bool_decide_unpack _ _); vm_compute; exact I|].
  apply (init_existence_check 7 "out" None Samples.gone empty_world).
  refine (bool_decide_unpack _ _); vm_compute; exact I.
Defined.

Lemma init_files_witness :
  (1 ∉ dom (_DISPATCHERS empty_world))
  ∧ let w' := exec (__init__ 1 "out" None (Samples.live "a" 0)) empty_world in
    files w' =
      <[("out" +:+ "." +:+ pretty 1 +:+ ".mapfile.tsv")%string
        :=(join TAB ["PATH"; "RESIDENT"; "VIRT"; "SWAP"] +:+ NL)
          +:+ join "" ((λ item,
                join TAB [mm_path item; pretty (mm_rss item);
                          pretty (mm_size item); pretty (mm_swap item)]
                +:+ NL) <$> [])]>
        (<[("out" +:+ "." +:+ pretty 1 +:+ ".env.tsv")%string
           :=(join TAB ["NAME"; "VALUE"] +:+ NL)
             +:+ join "" ((λ '(n, v), join TAB [n; v] +:+ NL)
                            <$> [("HOME", "/root")]%string)]>
           (<[("out" +:+ ".reg.tsv")%string
              :=default ""%string (files empty_world !! ("out" +:+ ".reg.tsv")%string)
                +:+ (join TAB ["t0"; pretty 1; join " " ["sh"; "-c"]; "/bin/sh"; "/"]
                     +:+ NL)]> (files empty_world)))
    ∧ log w' = log empty_world.
Proof.
  split; [refine (bool_decide_unpack _ _); vm_compute; exact I|].
  apply (init_files 1 "out" None empty_world "a" 0 "t0" ["sh"; "-c"]%string
           "/bin/sh" "/" [("HOME", "/root")]%string []).
  refine (bool_decide_unpack _ _); vm_compute; exact I.
Defined.

Lemma init_attaches_witness :
  (1 ∉ dom (_DISPATCHERS empty_world))
  ∧ let w' := exec (__init__ 1 "out" None (Samples.live "a" 0)) empty_world in
    (__init__ 1 "out" None (Samples.live "a" 0) empty_world).2 = Ok 0%nat
    ∧ _DISPATCHERS w' !! 1 = Some 0%nat
    ∧ 1 ∈ _ALL_PIDS w'
    ∧ objects w' !! 0%nat =
        Some (Dispatcher 1 "out" false default_tracers {["trace_pid"%string := 1]}
                default_tracers (PyInt 0)
                (list_to_map
                   [("PID", pretty 1); ("PPID", pretty 0); ("NAME", "a");
                    ("CPU%", "NA"); ("STAT", "NA"); ("CPU_TIME", "0");
                    ("RESIDENT_MEM", "NA"); ("NUM_THREADS", "NA");
                    ("NUM_CHILD_PROCESS", "NA")]%string)
                false).
Proof.
  split; [refine (bool_decide_unpack _ _); vm_compute; exact I|].
  apply (init_attaches 1 "out" None empty_world "a" 0 "t0" ["sh"; "-c"]%string
           "/bin/sh" "/" [("HOME", "/root")]%string []).
  refine (bool_decide_unpack _ _); vm_compute; exact I.
Defined.

End FurtherExamples.
